(** * The OpenAI completion client of gptscript: [pkg/openai/client.go]

    A shallow embedding of the request compiler ([toMessages]), the key and
    seed derivation ([cacheKey], [seed]), the stream assembler
    ([appendMessage]) and the completion orchestrator ([Call], [call],
    [fromCache], [store]), of the model listing ([ListModels], [Supports],
    [GetAzureMapperFunction]) and of the repositories of package
    [credentials], followed by the properties the specification states
    about them and by further properties of the code.

    Conventions.
    - A Go [string] is a [string]; [+] on strings is [+:+].
    - A Go [int] is a [Z]; a pointer that is only tested for [nil] and read
      is an [option].
    - A Go slice is a [list]; [s[i]] panics out of range, which the pure
      functions render as [None] and the orchestrator as [Panic].
    - Every Go struct is a record in a module of the struct's name, so that
      fields keep their Go names ([ContentPart.ToolCall],
      [CompletionMessage.ToolCall], ...). *)

From Stdlib Require Import DecimalString.
From Stdlib Require DecimalPos DecimalZ.
From stdpp Require Import base option numbers list strings.
From stdpp Require Import gmap sorting.

Local Open Scope Z_scope.

(** ** Data model of package [types] *)

(** Modelled from the spec: the role constants, declared in package
    [types]; they are the wire names of the four chat roles. *)
Definition CompletionMessageRoleTypeUser : string := "user".
Definition CompletionMessageRoleTypeSystem : string := "system".
Definition CompletionMessageRoleTypeAssistant : string := "assistant".
Definition CompletionMessageRoleTypeTool : string := "tool".

(** Modelled from the spec: the struct [types.CompletionFunctionCall],
    declared in package [types]: the name and the arguments of a tool call,
    both accumulated by appending. *)
Module CompletionFunctionCall.
Record t := mk { Name : string; Arguments : string }.
Definition zero : t := mk "" "".
End CompletionFunctionCall.

(** Modelled from the spec: the struct [types.CompletionToolCall], declared
    in package [types]: index (a [*int]), id, function name and arguments. *)
Module CompletionToolCall.
Record t := mk {
  Index : option Z;
  ID : string;
  Function : CompletionFunctionCall.t
}.
Definition zero : t := mk None "" CompletionFunctionCall.zero.
End CompletionToolCall.

(** Modelled from the spec: the struct [types.ContentPart], declared in
    package [types], with the two fields the client reads and writes: a
    text, empty when absent, and a pointer to a tool call, [nil] when
    absent. *)
Module ContentPart.
Record t := mk {
  Text : string;
  ToolCall : option CompletionToolCall.t
}.
End ContentPart.

(** Modelled from the spec: the struct [types.CompletionMessage], declared
    in package [types]: a role, the ordered content parts and, on a tool
    result, the call it answers. *)
Module CompletionMessage.
Record t := mk {
  Role : string;
  Content : list ContentPart.t;
  ToolCall : option CompletionToolCall.t
}.
Definition zero : t := mk "" [] None.
End CompletionMessage.

(** Modelled from the spec: the function [types.Text], declared in package
    [types]: the content list made of one text part. *)
Definition Text (text : string) : list ContentPart.t :=
  [ContentPart.mk text None].

(** The schema of a tool's parameters ([*openapi3.Schema]); the client only
    copies it into the wire request. *)
Inductive Schema := SchemaJSON (raw : string).

(** Modelled from the spec: the struct [types.CompletionTool], declared in
    package [types], reduced to the function definition the client reads. *)
Module CompletionTool.
Record t := mk {
  Name : string;
  Description : string;
  Parameters : option Schema
}.
End CompletionTool.

(** A [float32] is kept as its IEEE-754 bit pattern: the client stores and
    forwards temperatures and never computes with them. *)
Definition float32 := Z.
Definition float32_zero : float32 := 0.

(** Modelled from the spec: the struct [types.CompletionRequest], declared
    in package [types].  [Cache] and [InternalSystemPrompt] are [*bool],
    [Temperature] is [*float32]. *)
Module CompletionRequest.
Record t := mk {
  Model : string;
  InternalSystemPrompt : option bool;
  Tools : list CompletionTool.t;
  Messages : list CompletionMessage.t;
  MaxTokens : Z;
  Temperature : option float32;
  JSONResponse : bool;
  Cache : option bool
}.
End CompletionRequest.

(** ** Data model of the wire library [go-openai]

    The structs of [github.com/sashabaranov/go-openai], with the fields the
    client reads and writes. *)

Definition ToolTypeFunction : string := "function".
Definition ChatMessagePartTypeText : string := "text".
Definition ChatCompletionResponseFormatTypeJSONObject : string := "json_object".

Module FunctionCall.
Record t := mk { Name : string; Arguments : string }.
End FunctionCall.

Module ToolCall.
Record t := mk {
  Index : option Z;
  ID : string;
  Type_ : string;
  Function : FunctionCall.t
}.
End ToolCall.

Module ChatMessagePart.
Record t := mk { Type_ : string; Text : string }.
End ChatMessagePart.

Module ChatCompletionMessage.
Record t := mk {
  Role : string;
  Content : string;
  MultiContent : list ChatMessagePart.t;
  Name : string;
  ToolCalls : list ToolCall.t;
  ToolCallID : string
}.
End ChatCompletionMessage.

Module Tool.
Record t := mk {
  Type_ : string;
  Name : string;
  Description : string;
  Parameters : option Schema
}.
End Tool.

Module ChatCompletionRequest.
Record t := mk {
  Model : string;
  Messages : list ChatCompletionMessage.t;
  MaxTokens : Z;
  Temperature : option float32;
  ResponseFormat : option string;
  Seed : option Z;
  Tools : list Tool.t;
  User : string;
  Stream : bool
}.
End ChatCompletionRequest.

(** One streamed chunk: the client reads [Choices[0].Delta] only. *)
Module ChatCompletionStreamChoiceDelta.
Record t := mk {
  Content : string;
  Role : string;
  ToolCalls : list ToolCall.t
}.
End ChatCompletionStreamChoiceDelta.

Module ChatCompletionStreamChoice.
Record t := mk { Delta : ChatCompletionStreamChoiceDelta.t }.
End ChatCompletionStreamChoice.

Module ChatCompletionStreamResponse.
Record t := mk { Choices : list ChatCompletionStreamChoice.t }.
End ChatCompletionStreamResponse.

(** ** The stream assembler *)

(** [override]: the right string wins when it is not empty. *)
Definition override (left right : string) : string :=
  if decide (right = "") then left else right.

(** [s[i]] on a slice: out of range is a panic, here [None]. *)
Definition index {A} (s : list A) (i : Z) : option A :=
  if decide (i < 0) then None else s !! Z.to_nat i.

(** The placeholder appended while the content list is too short: a tool
    call that knows its own position and nothing else. *)
Definition placeholder (position : nat) : ContentPart.t :=
  ContentPart.mk ""
    (Some (CompletionToolCall.mk (Some (Z.of_nat position)) ""
             CompletionFunctionCall.zero)).

(** [for len(msg.Content)-1 < idx { msg.Content = append(...) }].  The loop
    test is the source's; [fuel] bounds the number of rounds. *)
Fixpoint growContent (fuel : nat) (content : list ContentPart.t) (idx : Z)
  : list ContentPart.t :=
  if decide (Z.of_nat (length content) - 1 < idx) then
    match fuel with
    | O => content
    | S fuel' => growContent fuel' (content ++ [placeholder (length content)]) idx
    end
  else content.

(** The body of the loop over [delta.ToolCalls]. *)
Definition appendToolCall (content : list ContentPart.t) (tool : ToolCall.t)
  : option (list ContentPart.t) :=
  let idx := default 0 (ToolCall.Index tool) in
  let content := growContent (Z.to_nat (idx + 1)) content idx in
  tc ← index content idx;
  let call := default CompletionToolCall.zero (ContentPart.ToolCall tc) in
  let call :=
    CompletionToolCall.mk
      (match ToolCall.Index tool with
       | Some i => Some i
       | None => CompletionToolCall.Index call
       end)
      (override (CompletionToolCall.ID call) (ToolCall.ID tool))
      (CompletionFunctionCall.mk
         (CompletionFunctionCall.Name (CompletionToolCall.Function call)
            +:+ FunctionCall.Name (ToolCall.Function tool))
         (CompletionFunctionCall.Arguments (CompletionToolCall.Function call)
            +:+ FunctionCall.Arguments (ToolCall.Function tool))) in
  Some (<[Z.to_nat idx := ContentPart.mk (ContentPart.Text tc) (Some call)]> content).

(** The loop over [delta.ToolCalls], left to right. *)
Fixpoint appendToolCalls (content : list ContentPart.t) (tools : list ToolCall.t)
  : option (list ContentPart.t) :=
  match tools with
  | [] => Some content
  | tool :: tools' =>
      content' ← appendToolCall content tool;
      appendToolCalls content' tools'
  end.

(** The text of a delta goes to the first part that is not a tool call; a
    new text part is appended when there is none. *)
Fixpoint appendText (content : list ContentPart.t) (text : string)
  : list ContentPart.t :=
  match content with
  | [] => [ContentPart.mk text None]
  | part :: rest =>
      match ContentPart.ToolCall part with
      | Some _ => part :: appendText rest text
      | None => ContentPart.mk (ContentPart.Text part +:+ text) None :: rest
      end
  end.

Definition appendMessage (msg : CompletionMessage.t)
    (response : ChatCompletionStreamResponse.t) : option CompletionMessage.t :=
  match ChatCompletionStreamResponse.Choices response with
  | [] => Some msg
  | choice :: _ =>
      let delta := ChatCompletionStreamChoice.Delta choice in
      let role :=
        override (CompletionMessage.Role msg)
                 (ChatCompletionStreamChoiceDelta.Role delta) in
      content ← appendToolCalls (CompletionMessage.Content msg)
                  (ChatCompletionStreamChoiceDelta.ToolCalls delta);
      let content :=
        if decide (ChatCompletionStreamChoiceDelta.Content delta = "")
        then content
        else appendText content (ChatCompletionStreamChoiceDelta.Content delta) in
      Some (CompletionMessage.mk role content (CompletionMessage.ToolCall msg))
  end.

(** [for _, response := range responses { result = appendMessage(result, response) }] *)
Fixpoint appendMessages (msg : CompletionMessage.t)
    (responses : list ChatCompletionStreamResponse.t)
  : option CompletionMessage.t :=
  match responses with
  | [] => Some msg
  | response :: responses' =>
      msg' ← appendMessage msg response;
      appendMessages msg' responses'
  end.
(** ** Collaborators

    The client calls into packages [system] and [hash] and compresses what
    it caches with [encoding/json] and [compress/gzip].  None of them is
    part of the client; they are taken as given, and every property below
    holds whatever they compute. *)

Definition error := string.
Definition bytes := list Byte.byte.

(** The value handed to [hash.Encode] by [cacheKey]: the map with the two
    entries ["base"] and ["request"]. *)
Record KeyInput := mkKeyInput {
  base : string;
  request : ChatCompletionRequest.t
}.

(** What reading a cache entry back can give: [gzip.NewReader] fails, or the
    decoder fills [result] and returns its error, [None] for [nil]. *)
Inductive Unpacked :=
| BadHeader (err : error)
| Decoded (result : list ChatCompletionStreamResponse.t) (err : option error).

(** The functions and values of other packages that the client uses. *)
Class Collaborators := {
  (** [system.InternalSystemPrompt] *)
  system_InternalSystemPrompt : string;
  (** [system.IsDefaultPrompt] *)
  system_IsDefaultPrompt : string → string * bool;
  (** [hash.Encode], on an input that can be marshalled to JSON; on
      another input [hash.Encode] panics (see [encodable] below) *)
  hash_Encode : KeyInput → string;
  (** [hash.Seed] *)
  hash_Seed : ChatCompletionRequest.t → Z;
  (** [hash.ID] *)
  hash_ID : list string → string;
  (** [json.NewEncoder(gz).Encode(responses)] followed by [gz.Close()] *)
  gzipJSON : list ChatCompletionStreamResponse.t → error + bytes;
  (** [gzip.NewReader] followed by [json.NewDecoder(gz).Decode(&result)] *)
  gunzipJSON : bytes → Unpacked
}.

(** ** The request compiler *)

Section RequestCompiler.

Context `{Collaborators}.

Definition newline : string := String (Ascii.ascii_of_nat 10) EmptyString.

(** [strings.Join] *)
Definition Join (elems : list string) (sep : string) : string :=
  String.concat sep elems.

Definition toToolCall (call : CompletionToolCall.t) : ToolCall.t :=
  ToolCall.mk
    (CompletionToolCall.Index call)
    (CompletionToolCall.ID call)
    ToolTypeFunction
    (FunctionCall.mk
       (CompletionFunctionCall.Name (CompletionToolCall.Function call))
       (CompletionFunctionCall.Arguments (CompletionToolCall.Function call))).

(** The test of the system branch:
    [i == len(request.Messages)-1 ||
     (request.Messages[i+1].Role != system && request.Messages[i+1].Role != user)]. *)
Definition lastOrOrphan (messages : list CompletionMessage.t) (i : nat) : option bool :=
  if decide (Z.of_nat i = Z.of_nat (length messages) - 1) then Some true
  else
    next ← index messages (Z.of_nat i + 1);
    Some (bool_decide (CompletionMessage.Role next ≠ CompletionMessageRoleTypeSystem)
          && bool_decide (CompletionMessage.Role next ≠ CompletionMessageRoleTypeUser)).

(** The first loop of [toMessages], at index [i] with [rest] still to
    visit.  [message.Content[0]] panics on a message without content. *)
Fixpoint systemLoop (messages : list CompletionMessage.t) (i : nat)
    (rest : list CompletionMessage.t)
    (systemPrompts : list string) (msgs : list CompletionMessage.t)
  : option (list string * list CompletionMessage.t) :=
  match rest with
  | [] => Some (systemPrompts, msgs)
  | message :: rest' =>
      if decide (CompletionMessage.Role message = CompletionMessageRoleTypeSystem) then
        demote ← lastOrOrphan messages i;
        if demote : bool then
          systemLoop messages (S i) rest' systemPrompts
            (msgs ++ [CompletionMessage.mk CompletionMessageRoleTypeUser
                        (CompletionMessage.Content message)
                        (CompletionMessage.ToolCall message)])
        else
          first ← index (CompletionMessage.Content message) 0;
          systemLoop messages (S i) rest'
            (systemPrompts ++ [ContentPart.Text first]) msgs
      else systemLoop messages (S i) rest' systemPrompts (msgs ++ [message])
  end.

(** [toMessages] up to and including [slices.Insert]: the messages with
    the system prompts gathered in front. *)
Definition gatherSystemPrompts (request : CompletionRequest.t)
  : option (list CompletionMessage.t) :=
  let systemPrompts :=
    match CompletionRequest.InternalSystemPrompt request with
    | Some false => []
    | _ => [system_InternalSystemPrompt]
    end in
  '(systemPrompts, msgs) ←
     systemLoop (CompletionRequest.Messages request) 0
       (CompletionRequest.Messages request) systemPrompts [];
  Some (if decide (0 < Z.of_nat (length systemPrompts)) then
          CompletionMessage.mk CompletionMessageRoleTypeSystem
            (Text (Join systemPrompts newline)) None :: msgs
        else msgs).

(** One round of the loop over [message.Content]. *)
Definition contentStep (chatMessage : ChatCompletionMessage.t)
    (content : ContentPart.t) : ChatCompletionMessage.t :=
  let toolCalls :=
    match ContentPart.ToolCall content with
    | Some call => ChatCompletionMessage.ToolCalls chatMessage ++ [toToolCall call]
    | None => ChatCompletionMessage.ToolCalls chatMessage
    end in
  let multiContent :=
    if decide (ContentPart.Text content ≠ "") then
      ChatCompletionMessage.MultiContent chatMessage
        ++ [ChatMessagePart.mk ChatMessagePartTypeText (ContentPart.Text content)]
    else ChatCompletionMessage.MultiContent chatMessage in
  ChatCompletionMessage.mk
    (ChatCompletionMessage.Role chatMessage)
    (ChatCompletionMessage.Content chatMessage)
    multiContent
    (ChatCompletionMessage.Name chatMessage)
    toolCalls
    (ChatCompletionMessage.ToolCallID chatMessage).

(** The body of the second loop of [toMessages]; [None] is its
    [continue]: the message is left out. *)
Definition toChatMessage (message : CompletionMessage.t)
  : option ChatCompletionMessage.t :=
  let chatMessage :=
    match CompletionMessage.ToolCall message with
    | Some call =>
        ChatCompletionMessage.mk (CompletionMessage.Role message) "" []
          (CompletionFunctionCall.Name (CompletionToolCall.Function call)) []
          (CompletionToolCall.ID call)
    | None =>
        ChatCompletionMessage.mk (CompletionMessage.Role message) "" [] "" [] ""
    end in
  let chatMessage := foldl contentStep chatMessage (CompletionMessage.Content message) in
  match ChatCompletionMessage.MultiContent chatMessage with
  | [part] =>
      if decide (ChatMessagePart.Type_ part = ChatMessagePartTypeText) then
        if decide (ChatMessagePart.Text part = "." ∨ ChatMessagePart.Text part = "{}")
        then None
        else
          let content := ChatMessagePart.Text part in
          let '(prompt, ok) := system_IsDefaultPrompt content in
          Some (ChatCompletionMessage.mk
                  (ChatCompletionMessage.Role chatMessage)
                  (if ok then prompt else content)
                  []
                  (ChatCompletionMessage.Name chatMessage)
                  (ChatCompletionMessage.ToolCalls chatMessage)
                  (ChatCompletionMessage.ToolCallID chatMessage))
      else Some chatMessage
  | _ => Some chatMessage
  end.

(** The second loop of [toMessages]. *)
Fixpoint chatLoop (msgs : list CompletionMessage.t)
    (result : list ChatCompletionMessage.t) : list ChatCompletionMessage.t :=
  match msgs with
  | [] => result
  | message :: msgs' =>
      match toChatMessage message with
      | None => chatLoop msgs' result
      | Some chatMessage => chatLoop msgs' (result ++ [chatMessage])
      end
  end.

(** [toMessages]; its error result is always [nil], so the only failure
    left is the panic, [None]. *)
Definition toMessages (request : CompletionRequest.t)
  : option (list ChatCompletionMessage.t) :=
  msgs ← gatherSystemPrompts request;
  Some (chatLoop msgs []).

End RequestCompiler.

(** ** Cache key and seed *)

Module Client.
Record t := mk {
  defaultModel : string;
  cacheKeyBase : string;
  invalidAuth : bool;
  setSeed : bool;
  user : string
}.
End Client.

Section KeyAndSeed.

Context `{Collaborators}.

Definition cacheKey (c : Client.t) (request : ChatCompletionRequest.t) : string :=
  hash_Encode (mkKeyInput (Client.cacheKeyBase c) request).

(** The inner loop of [seed]: the tool calls of a message, each with its id
    blanked, appended one by one. *)
Definition seedToolCalls (toolCalls : list ToolCall.t) : list ToolCall.t :=
  foldl (λ newToolCalls tool,
           newToolCalls ++ [ToolCall.mk (ToolCall.Index tool) ""
                              (ToolCall.Type_ tool) (ToolCall.Function tool)])
        [] toolCalls.

(** The outer loop of [seed]. *)
Definition seedMessages (messages : list ChatCompletionMessage.t)
  : list ChatCompletionMessage.t :=
  foldl (λ newMessages msg,
           newMessages ++
             [ChatCompletionMessage.mk
                (ChatCompletionMessage.Role msg)
                (ChatCompletionMessage.Content msg)
                (ChatCompletionMessage.MultiContent msg)
                (ChatCompletionMessage.Name msg)
                (seedToolCalls (ChatCompletionMessage.ToolCalls msg))
                ""])
        [] messages.

Definition seed (c : Client.t) (request : ChatCompletionRequest.t) : Z :=
  hash_Seed
    (ChatCompletionRequest.mk
       (ChatCompletionRequest.Model request)
       (seedMessages (ChatCompletionRequest.Messages request))
       (ChatCompletionRequest.MaxTokens request)
       (ChatCompletionRequest.Temperature request)
       (ChatCompletionRequest.ResponseFormat request)
       (ChatCompletionRequest.Seed request)
       (ChatCompletionRequest.Tools request)
       (ChatCompletionRequest.User request)
       (ChatCompletionRequest.Stream request)).

End KeyAndSeed.

(** ** The orchestrator *)

(** Modelled from the spec: the struct [types.CompletionStatus], declared
    in package [types]: the event pushed on the status channel.  [Request],
    [Response] and [Chunks] are [any] and [PartialResponse] is a pointer:
    [None] where the literal leaves the field out. *)
Module CompletionStatus.
Record t := mk {
  CompletionID : string;
  Request : option ChatCompletionRequest.t;
  Response : option CompletionMessage.t;
  Cached : bool;
  Chunks : option (list ChatCompletionStreamResponse.t);
  PartialResponse : option CompletionMessage.t
}.
End CompletionStatus.

(** What the client does to the world around it, in the order it does it:
    a status sent on the channel, a read of the cache store, a write to it,
    a stream opened on the transport.  A [Send] records the message a
    [PartialResponse] points to at the moment of the send. *)
Inductive Event :=
| Send (status : CompletionStatus.t)
| CacheGet (key : string)
| CacheStore (key : string) (data : bytes)
| CreateChatCompletionStream (request : ChatCompletionRequest.t).

(** A stream, as [Recv] shows it: the chunks received, then [io.EOF]
    ([None]) or another error.  A stream that never ends, on which [call]
    does not return, has no such description. *)
Record Stream := mkStream {
  received : list ChatCompletionStreamResponse.t;
  closing : option error
}.

(** The context of a call: [cache.IsNoCache(ctx)]. *)
Record Ctx := mkCtx { IsNoCache : bool }.

(** How the cache store and the transport answer. *)
Record Env := mkEnv {
  (** [c.cache.Get(key)]: the bytes, found, the error. *)
  cache_Get : string → bytes * bool * option error;
  (** [c.cache.Store(key, bytes)]: the error. *)
  cache_Store : string → bytes → option error;
  (** [c.c.CreateChatCompletionStream(ctx, request)]. *)
  openai_CreateChatCompletionStream : ChatCompletionRequest.t → error + Stream
}.

(** The result of a run: a value, a returned [error], or a panic. *)
Inductive Outcome (A : Type) :=
| Return (a : A)
| Fail (err : error)
| Panic.
Arguments Return {A} a.
Arguments Fail {A} err.
Arguments Panic {A}.

(** A run reads and updates the process-wide counter [completionID] and
    appends to the events. *)
Definition Run (A : Type) : Type := Z → Outcome A * Z * list Event.

Global Instance Run_ret : MRet Run := λ A a completionID, (Return a, completionID, []).

Global Instance Run_bind : MBind Run := λ A B k m completionID,
  match m completionID with
  | (Return a, completionID', events) =>
      match k a completionID' with
      | (outcome, completionID'', events') => (outcome, completionID'', events ++ events')
      end
  | (Fail err, completionID', events) => (Fail err, completionID', events)
  | (Panic, completionID', events) => (Panic, completionID', events)
  end.

Definition emit (event : Event) : Run unit :=
  λ completionID, (Return tt, completionID, [event]).

Definition fail {A} (err : error) : Run A :=
  λ completionID, (Fail err, completionID, []).

Definition orPanic {A} (value : option A) : Run A :=
  λ completionID,
    match value with
    | Some a => (Return a, completionID, [])
    | None => (Panic, completionID, [])
    end.

(** A value within the range of [int64], wrapped around. *)
Definition int64 (z : Z) : Z := (z + 2 ^ 63) `mod` 2 ^ 64 - 2 ^ 63.

(** [fmt.Sprint] of an [int64]. *)
Definition Sprint (z : Z) : string := NilZero.string_of_int (Z.to_int z).

(** [fmt.Sprint(atomic.AddInt64(&completionID, 1))] *)
Definition nextCompletionID : Run string :=
  λ completionID,
    let completionID' := int64 (completionID + 1) in
    (Return (Sprint completionID'), completionID', []).

Section Orchestrator.

Context `{Collaborators}.

Definition ValidAuth (c : Client.t) : option error :=
  if Client.invalidAuth c then
    Some "OPENAI_API_KEY is not set. Please set the OPENAI_API_KEY environment variable"
  else None.

(** The wire request [Call] fills in between the compilation of the
    messages and the first status. *)
Definition wireRequest (c : Client.t) (messageRequest : CompletionRequest.t)
    (msgs : list ChatCompletionMessage.t) : ChatCompletionRequest.t :=
  ChatCompletionRequest.mk
    (CompletionRequest.Model messageRequest)
    msgs
    (CompletionRequest.MaxTokens messageRequest)
    (match CompletionRequest.Temperature messageRequest with
     | None => Some float32_zero
     | Some temperature => Some temperature
     end)
    (if CompletionRequest.JSONResponse messageRequest
     then Some ChatCompletionResponseFormatTypeJSONObject else None)
    None
    (foldl (λ tools tool,
              tools ++ [Tool.mk ToolTypeFunction
                          (CompletionTool.Name tool)
                          (CompletionTool.Description tool)
                          (CompletionTool.Parameters tool)])
           [] (CompletionRequest.Tools messageRequest))
    (Client.user c)
    false.

Definition withModel (messageRequest : CompletionRequest.t) (model : string)
  : CompletionRequest.t :=
  CompletionRequest.mk model
    (CompletionRequest.InternalSystemPrompt messageRequest)
    (CompletionRequest.Tools messageRequest)
    (CompletionRequest.Messages messageRequest)
    (CompletionRequest.MaxTokens messageRequest)
    (CompletionRequest.Temperature messageRequest)
    (CompletionRequest.JSONResponse messageRequest)
    (CompletionRequest.Cache messageRequest).

Definition withSeed (request : ChatCompletionRequest.t) (seed : Z)
  : ChatCompletionRequest.t :=
  ChatCompletionRequest.mk
    (ChatCompletionRequest.Model request)
    (ChatCompletionRequest.Messages request)
    (ChatCompletionRequest.MaxTokens request)
    (ChatCompletionRequest.Temperature request)
    (ChatCompletionRequest.ResponseFormat request)
    (Some seed)
    (ChatCompletionRequest.Tools request)
    (ChatCompletionRequest.User request)
    (ChatCompletionRequest.Stream request).

Definition withStream (request : ChatCompletionRequest.t)
  : ChatCompletionRequest.t :=
  ChatCompletionRequest.mk
    (ChatCompletionRequest.Model request)
    (ChatCompletionRequest.Messages request)
    (ChatCompletionRequest.MaxTokens request)
    (ChatCompletionRequest.Temperature request)
    (ChatCompletionRequest.ResponseFormat request)
    (ChatCompletionRequest.Seed request)
    (ChatCompletionRequest.Tools request)
    (ChatCompletionRequest.User request)
    true.

(** The three shapes of status the client sends. *)
Definition Submitted (id : string) (request : ChatCompletionRequest.t)
  : CompletionStatus.t :=
  CompletionStatus.mk id (Some request) None false None None.

Definition Partial (id : string) (partialMessage : CompletionMessage.t)
  : CompletionStatus.t :=
  CompletionStatus.mk id None None false None (Some partialMessage).

Definition Final (id : string) (chunks : list ChatCompletionStreamResponse.t)
    (result : CompletionMessage.t) (cached : bool) : CompletionStatus.t :=
  CompletionStatus.mk id None (Some result) cached (Some chunks) None.

Definition waiting : CompletionMessage.t :=
  CompletionMessage.mk CompletionMessageRoleTypeAssistant
    (Text "Waiting for model response...") None.

(** [fromCache] returns its three results as they are; [Call] looks at
    the error.  In [return result, true, Decode(&result)] the slice
    returned is the decoded one. *)
Definition fromCache (c : Client.t) (ctx : Ctx) (env : Env)
    (messageRequest : CompletionRequest.t) (request : ChatCompletionRequest.t)
  : Run (list ChatCompletionStreamResponse.t * bool * option error) :=
  if IsNoCache ctx then mret ([], false, None)
  else
    match CompletionRequest.Cache messageRequest with
    | Some false => mret ([], false, None)
    | _ =>
        _ ← emit (CacheGet (cacheKey c request));
        match cache_Get env (cacheKey c request) with
        | (_, _, Some err) => mret ([], false, Some err)
        | (_, false, None) => mret ([], false, None)
        | (cache, true, None) =>
            match gunzipJSON cache with
            | BadHeader err => mret ([], false, Some err)
            | Decoded result err => mret (result, true, err)
            end
        end
    end.

Definition store (c : Client.t) (ctx : Ctx) (env : Env) (key : string)
    (responses : list ChatCompletionStreamResponse.t) : Run unit :=
  if IsNoCache ctx then mret tt
  else
    match gzipJSON responses with
    | inl err => fail err
    | inr buf =>
        _ ← emit (CacheStore key buf);
        match cache_Store env key buf with
        | Some err => fail err
        | None => mret tt
        end
    end.

(** The receive loop of [call], over what the stream still holds. *)
Fixpoint recvLoop (c : Client.t) (ctx : Ctx) (env : Env) (cacheKey : string)
    (transactionID : string)
    (pending : list ChatCompletionStreamResponse.t) (closing : option error)
    (responses : list ChatCompletionStreamResponse.t)
    (partialMessage : CompletionMessage.t)
  : Run (list ChatCompletionStreamResponse.t) :=
  match pending with
  | [] =>
      match closing with
      | None => _ ← store c ctx env cacheKey responses; mret responses
      | Some err => fail err
      end
  | response :: pending' =>
      partialMessage' ← orPanic (appendMessage partialMessage response);
      _ ← emit (Send (Partial transactionID partialMessage'));
      recvLoop c ctx env cacheKey transactionID pending' closing
        (responses ++ [response]) partialMessage'
  end.

(** [call]; the status channel it is given is the one of [Call], which is
    never [nil]. *)
Definition call (c : Client.t) (ctx : Ctx) (env : Env)
    (request : ChatCompletionRequest.t) (transactionID : string)
  : Run (list ChatCompletionStreamResponse.t) :=
  let cacheKey := cacheKey c request in
  let request := withStream request in
  _ ← emit (Send (Partial transactionID waiting));
  _ ← emit (CreateChatCompletionStream request);
  match openai_CreateChatCompletionStream env request with
  | inl err => fail err
  | inr stream =>
      recvLoop c ctx env cacheKey transactionID (received stream) (closing stream)
        [] CompletionMessage.zero
  end.

(** [s[:8]]: a panic on a string shorter than 8. *)
Definition slice8 (s : string) : option string :=
  if decide (8 ≤ String.length s)%nat then Some (String.substring 0 8 s) else None.

(** The body of the loop that gives an id to the tool calls without one. *)
Definition backfillID (content : ContentPart.t) : option ContentPart.t :=
  match ContentPart.ToolCall content with
  | Some toolCall =>
      if decide (CompletionToolCall.ID toolCall = "") then
        id ← slice8 (hash_ID
                [CompletionFunctionCall.Name (CompletionToolCall.Function toolCall);
                 CompletionFunctionCall.Arguments (CompletionToolCall.Function toolCall)]);
        Some (ContentPart.mk (ContentPart.Text content)
                (Some (CompletionToolCall.mk
                         (CompletionToolCall.Index toolCall)
                         ("call_" +:+ id)
                         (CompletionToolCall.Function toolCall))))
      else Some content
  | None => Some content
  end.

Definition backfillIDs (result : CompletionMessage.t) : option CompletionMessage.t :=
  content ← mapM backfillID (CompletionMessage.Content result);
  Some (CompletionMessage.mk (CompletionMessage.Role result) content
          (CompletionMessage.ToolCall result)).

Definition Call (c : Client.t) (ctx : Ctx) (env : Env)
    (messageRequest : CompletionRequest.t) : Run CompletionMessage.t :=
  match ValidAuth c with
  | Some err => fail err
  | None =>
      let messageRequest :=
        if decide (CompletionRequest.Model messageRequest = "")
        then withModel messageRequest (Client.defaultModel c)
        else messageRequest in
      msgs ← orPanic (toMessages messageRequest);
      if decide (length msgs = 0%nat) then
        fail "invalid request, no messages to send to OpenAI"
      else
        let request := wireRequest c messageRequest msgs in
        id ← nextCompletionID;
        _ ← emit (Send (Submitted id request));
        let request :=
          if Client.setSeed c then withSeed request (seed c request) else request in
        '(response, ok, err) ← fromCache c ctx env messageRequest request;
        match err with
        | Some err => fail err
        | None =>
            '(response, cacheResponse) ←
               (if ok : bool then mret (response, true)
                else response ← call c ctx env request id; mret (response, false));
            result ← orPanic (appendMessages CompletionMessage.zero response);
            result ← orPanic (backfillIDs result);
            _ ← emit (Send (Final id response result cacheResponse));
            mret result
        end
  end.

End Orchestrator.

(** ** The models of the transport *)

(** [openai.Model] and [openai.ModelsList] of the wire library, with the
    fields [ListModels] reads. *)
Module Model.
Record t := mk { ID : string }.
End Model.

Module ModelsList.
Record t := mk { Models : list Model.t }.
End ModelsList.

(** [sort.Strings]: the strings in increasing order, compared byte by byte.
    The order is total and antisymmetric, so that the sorted slice is the
    same whatever the algorithm. *)
Definition sort_Strings (x : list string) : list string :=
  merge_sort String.le x.

(** [slices.Contains] *)
Definition slices_Contains (s : list string) (v : string) : bool :=
  bool_decide (v ∈ s).

(** The mapper returned for [azureModel]: the identity without a
    deployment, the lookup in the one-entry map
    [map[string]string{defaultModel: azureModel}] otherwise, which gives
    the empty string for a missing key. *)
Definition GetAzureMapperFunction (defaultModel azureModel : string)
  : string → string :=
  if decide (azureModel = "") then λ model, model
  else λ model,
    default "" (({[ defaultModel := azureModel ]} : gmap string string) !! model).

(** [ListModels], for the answer [openai_ListModels] of the transport to
    [c.c.ListModels(ctx)]: the slice and the error returned. *)
Definition ListModels (c : Client.t) (openai_ListModels : error + ModelsList.t)
    (providers : list string) : list string * option error :=
  if bool_decide (length providers ≠ 0%nat) && negb (slices_Contains providers "")
  then ([], None)
  else
    match ValidAuth c with
    | Some err => ([], Some err)
    | None =>
        match openai_ListModels with
        | inl err => ([], Some err)
        | inr models =>
            (sort_Strings
               (foldl (λ result model, result ++ [Model.ID model])
                  [] (ModelsList.Models models)),
             None)
        end
    end.

Definition Supports (c : Client.t) (openai_ListModels : error + ModelsList.t)
    (modelName : string) : bool * option error :=
  match ListModels c openai_ListModels [] with
  | (_, Some err) => (false, Some err)
  | (models, None) => (slices_Contains models modelName, None)
  end.

(** ** Package [credentials]: the repositories of the credential helpers *)

Module credentials.
Section Credentials.

(** The constants [config.SqliteCredHelper] and
    [config.PostgresCredHelper], and [runtimeEnv.VarOrDefault]. *)
Variables (SqliteCredHelper PostgresCredHelper : string).
Variable VarOrDefault : string → string → string.

Definition RepoNameForCredentialStore (store : string) : string :=
  if decide (store = SqliteCredHelper ∨ store = PostgresCredHelper)
  then "gptscript-credential-database"
  else "gptscript-credential-helpers".

Definition GitURLForRepoName (repoName : string) : string * option error :=
  if decide (repoName = "gptscript-credential-database") then
    (VarOrDefault "GPTSCRIPT_CRED_SQLITE_ROOT"
       "https://github.com/gptscript-ai/gptscript-credential-database.git", None)
  else if decide (repoName = "gptscript-credential-helpers") then
    (VarOrDefault "GPTSCRIPT_CRED_HELPERS_ROOT"
       "https://github.com/gptscript-ai/gptscript-credential-helpers.git", None)
  else ("", Some ("unknown repo name: " +:+ repoName)).

Definition first (s : list string) : string :=
  match s with
  | [] => ""
  | head :: _ => head
  end.

End Credentials.
End credentials.

(** ** Vocabulary of the properties *)

Section Vocabulary.

Context `{Collaborators}.

Implicit Types (content : list ContentPart.t) (tool : ToolCall.t)
  (part : ContentPart.t) (msg : CompletionMessage.t)
  (message : CompletionMessage.t)
  (response : ChatCompletionStreamResponse.t).

(** The resolved target index of a fragment: its index, or 0. *)
Definition targetIndex tool : Z := default 0 (ToolCall.Index tool).

(** The placeholders for positions [from], [from+1], ..., [from+n-1]. *)
Definition placeholders (from n : nat) : list ContentPart.t :=
  placeholder <$> seq from n.

(** The slot a fragment leaves behind when it lands on [part]. *)
Definition populate (part : ContentPart.t) tool : ContentPart.t :=
  let call := default CompletionToolCall.zero (ContentPart.ToolCall part) in
  ContentPart.mk (ContentPart.Text part)
    (Some (CompletionToolCall.mk
       (match ToolCall.Index tool with
        | Some i => Some i
        | None => CompletionToolCall.Index call
        end)
       (override (CompletionToolCall.ID call) (ToolCall.ID tool))
       (CompletionFunctionCall.mk
          (CompletionFunctionCall.Name (CompletionToolCall.Function call)
             +:+ FunctionCall.Name (ToolCall.Function tool))
          (CompletionFunctionCall.Arguments (CompletionToolCall.Function call)
             +:+ FunctionCall.Arguments (ToolCall.Function tool))))).

Definition carriesText part : Prop := ContentPart.Text part ≠ "".
Definition carriesToolCall part : Prop := is_Some (ContentPart.ToolCall part).

(** "Either free text or a tool call, never both". *)
Definition exclusive part : Prop := ¬ (carriesText part ∧ carriesToolCall part).

(** "Free text or a tool call", possibly both. *)
Definition carriesSomething part : Prop := carriesText part ∨ carriesToolCall part.

(** The fragments of a chunk: those of [Choices[0].Delta], if any. *)
Definition fragments response : list ToolCall.t :=
  match ChatCompletionStreamResponse.Choices response with
  | [] => []
  | choice :: _ =>
      ChatCompletionStreamChoiceDelta.ToolCalls (ChatCompletionStreamChoice.Delta choice)
  end.

(** No fragment of [tools] is aimed at a position of [content] that holds a
    part without a tool call. *)
Definition targetsToolSlots content (tools : list ToolCall.t) : bool :=
  forallb (λ tool,
    match index content (targetIndex tool) with
    | Some part => bool_decide (carriesToolCall part)
    | None => true
    end) tools.

(** The same along a whole fold. *)
Fixpoint wellTargeted msg (responses : list ChatCompletionStreamResponse.t) : bool :=
  match responses with
  | [] => true
  | response :: responses' =>
      targetsToolSlots (CompletionMessage.Content msg) (fragments response)
      && match appendMessage msg response with
         | Some msg' => wellTargeted msg' responses'
         | None => true
         end
  end.

Definition nonNegative (tools : list ToolCall.t) : bool :=
  forallb (λ tool, bool_decide (0 ≤ targetIndex tool)) tools.

(** The texts a message contributes to [MultiContent]: those of its parts
    that have one. *)
Definition textParts message : list string :=
  filter (λ text, text ≠ "") (ContentPart.Text <$> CompletionMessage.Content message).

(** The scalar content sent for a text: the text, or the prompt
    [system.IsDefaultPrompt] extracts from it. *)
Definition scalarContent (text : string) : string :=
  if (system_IsDefaultPrompt text).2 then (system_IsDefaultPrompt text).1 else text.

(** *** System prompts, in the words of the specification *)

Definition isSystem message : bool :=
  bool_decide (CompletionMessage.Role message = CompletionMessageRoleTypeSystem).

(** The successor of a message exists and is a system or a user message. *)
Definition followedBySystemOrUser (rest : list CompletionMessage.t) : bool :=
  match rest with
  | next :: _ =>
      bool_decide (CompletionMessage.Role next = CompletionMessageRoleTypeSystem)
      || bool_decide (CompletionMessage.Role next = CompletionMessageRoleTypeUser)
  | [] => false
  end.

(** A system message is merged when such a successor follows it; it is
    demoted when it is last or followed by anything else. *)
Definition merged message (rest : list CompletionMessage.t) : bool :=
  isSystem message && followedBySystemOrUser rest.

Definition demoted message : CompletionMessage.t :=
  CompletionMessage.mk CompletionMessageRoleTypeUser
    (CompletionMessage.Content message) (CompletionMessage.ToolCall message).

(** The text a merged message gives to the leading prompt: that of its
    first content part. *)
Definition firstText message : string :=
  match CompletionMessage.Content message with
  | part :: _ => ContentPart.Text part
  | [] => ""
  end.

Fixpoint mergedTexts (messages : list CompletionMessage.t) : list string :=
  match messages with
  | [] => []
  | message :: rest =>
      if merged message rest then firstText message :: mergedTexts rest
      else mergedTexts rest
  end.

Fixpoint keptMessages (messages : list CompletionMessage.t) : list CompletionMessage.t :=
  match messages with
  | [] => []
  | message :: rest =>
      if merged message rest then keptMessages rest
      else (if isSystem message then demoted message else message) :: keptMessages rest
  end.

(** Every message to merge has a first content part. *)
Fixpoint mergeable (messages : list CompletionMessage.t) : bool :=
  match messages with
  | [] => true
  | message :: rest =>
      (if merged message rest
       then bool_decide (CompletionMessage.Content message ≠ [])
       else true)
      && mergeable rest
  end.

(** The internal system prompt, unless the request switches it off. *)
Definition internalPrompt (request : CompletionRequest.t) : list string :=
  match CompletionRequest.InternalSystemPrompt request with
  | Some false => []
  | _ => [system_InternalSystemPrompt]
  end.

(** The leading system message made of [prompts], if there are any. *)
Definition leadingSystemMessage (prompts : list string) : list CompletionMessage.t :=
  match prompts with
  | [] => []
  | _ => [CompletionMessage.mk CompletionMessageRoleTypeSystem
            (Text (Join prompts newline)) None]
  end.

(** *** Requests that differ in tool-call ids only *)

Definition sameToolCallButID (a b : ToolCall.t) : Prop :=
  ToolCall.Index a = ToolCall.Index b
  ∧ ToolCall.Type_ a = ToolCall.Type_ b
  ∧ ToolCall.Function a = ToolCall.Function b.

Definition sameMessageButIDs (a b : ChatCompletionMessage.t) : Prop :=
  ChatCompletionMessage.Role a = ChatCompletionMessage.Role b
  ∧ ChatCompletionMessage.Content a = ChatCompletionMessage.Content b
  ∧ ChatCompletionMessage.MultiContent a = ChatCompletionMessage.MultiContent b
  ∧ ChatCompletionMessage.Name a = ChatCompletionMessage.Name b
  ∧ Forall2 sameToolCallButID
      (ChatCompletionMessage.ToolCalls a) (ChatCompletionMessage.ToolCalls b).

Definition sameRequestButIDs (a b : ChatCompletionRequest.t) : Prop :=
  ChatCompletionRequest.Model a = ChatCompletionRequest.Model b
  ∧ ChatCompletionRequest.MaxTokens a = ChatCompletionRequest.MaxTokens b
  ∧ ChatCompletionRequest.Temperature a = ChatCompletionRequest.Temperature b
  ∧ ChatCompletionRequest.ResponseFormat a = ChatCompletionRequest.ResponseFormat b
  ∧ ChatCompletionRequest.Seed a = ChatCompletionRequest.Seed b
  ∧ ChatCompletionRequest.Tools a = ChatCompletionRequest.Tools b
  ∧ ChatCompletionRequest.User a = ChatCompletionRequest.User b
  ∧ ChatCompletionRequest.Stream a = ChatCompletionRequest.Stream b
  ∧ Forall2 sameMessageButIDs
      (ChatCompletionRequest.Messages a) (ChatCompletionRequest.Messages b).

(** *** The course of a call *)

(** The request [Call] compiles: the caller's, with the default model
    when it names none. *)
Definition withDefaultModel (c : Client.t) (messageRequest : CompletionRequest.t)
  : CompletionRequest.t :=
  if decide (CompletionRequest.Model messageRequest = "")
  then withModel messageRequest (Client.defaultModel c)
  else messageRequest.

(** The request [Call] looks up and sends: the compiled one, with the seed
    when the client sets seeds. *)
Definition seeded (c : Client.t) (request : ChatCompletionRequest.t)
  : ChatCompletionRequest.t :=
  if Client.setSeed c then withSeed request (seed c request) else request.

(** The cache is not read: caching is off for the context or for the
    request. *)
Definition lookupSkipped (ctx : Ctx) (messageRequest : CompletionRequest.t) : bool :=
  IsNoCache ctx || bool_decide (CompletionRequest.Cache messageRequest = Some false).

(** What a lookup that reads the cache returns. *)
Definition lookupResult (env : Env) (key : string)
  : list ChatCompletionStreamResponse.t * bool * option error :=
  match cache_Get env key with
  | (_, _, Some err) => ([], false, Some err)
  | (_, false, None) => ([], false, None)
  | (cache, true, None) =>
      match gunzipJSON cache with
      | BadHeader err => ([], false, Some err)
      | Decoded result err => (result, true, err)
      end
  end.

(** The messages assembled from the first chunk, the first two, and so on,
    up to the first fragment that makes the assembler panic; the flag tells
    whether the end was reached. *)
Fixpoint partialMessages msg (responses : list ChatCompletionStreamResponse.t)
  : list CompletionMessage.t * bool :=
  match responses with
  | [] => ([], true)
  | response :: responses' =>
      match appendMessage msg response with
      | None => ([], false)
      | Some msg' =>
          let '(partials, complete) := partialMessages msg' responses' in
          (msg' :: partials, complete)
      end
  end.

(** The events of [store]. *)
Definition storeEvents (ctx : Ctx) (key : string)
    (responses : list ChatCompletionStreamResponse.t) : list Event :=
  if IsNoCache ctx then []
  else match gzipJSON responses with
       | inl _ => []
       | inr buf => [CacheStore key buf]
       end.

(** The error of [store], if any. *)
Definition storeError (ctx : Ctx) (env : Env) (key : string)
    (responses : list ChatCompletionStreamResponse.t) : option error :=
  if IsNoCache ctx then None
  else match gzipJSON responses with
       | inl err => Some err
       | inr buf => cache_Store env key buf
       end.

(** The message of the last status: the tool calls of [part] with an id. *)
Definition backfilled part : ContentPart.t :=
  match ContentPart.ToolCall part with
  | Some toolCall =>
      if decide (CompletionToolCall.ID toolCall = "") then
        ContentPart.mk (ContentPart.Text part)
          (Some (CompletionToolCall.mk
                   (CompletionToolCall.Index toolCall)
                   ("call_" +:+ String.substring 0 8
                      (hash_ID
                         [CompletionFunctionCall.Name (CompletionToolCall.Function toolCall);
                          CompletionFunctionCall.Arguments
                            (CompletionToolCall.Function toolCall)]))
                   (CompletionToolCall.Function toolCall)))
      else part
  | None => part
  end.

Definition isSend (event : Event) : bool :=
  match event with Send _ => true | _ => false end.

Definition isCacheGet (event : Event) : bool :=
  match event with CacheGet _ => true | _ => false end.

Definition isCacheStore (event : Event) : bool :=
  match event with CacheStore _ _ => true | _ => false end.

Definition isCreateChatCompletionStream (event : Event) : bool :=
  match event with CreateChatCompletionStream _ => true | _ => false end.

(** The end of [Call], from the chunks on: assemble, give ids, send the
    last status. *)
Definition conclude (id : string) (response : list ChatCompletionStreamResponse.t)
    (cached : bool) (completionID : Z) (events : list Event)
  : Outcome CompletionMessage.t * Z * list Event :=
  match appendMessages CompletionMessage.zero response with
  | None => (Panic, completionID, events)
  | Some assembled =>
      match backfillIDs assembled with
      | None => (Panic, completionID, events)
      | Some result =>
          (Return result, completionID,
           events ++ [Send (Final id response result cached)])
      end
  end.

(** [Call] from the live call on, [events] having happened before. *)
Definition live (c : Client.t) (ctx : Ctx) (env : Env)
    (request : ChatCompletionRequest.t) (id : string) (completionID : Z)
    (events : list Event) : Outcome CompletionMessage.t * Z * list Event :=
  match call c ctx env request id completionID with
  | (Return response, _, events') =>
      conclude id response false completionID (events ++ events')
  | (Fail err, _, events') => (Fail err, completionID, events ++ events')
  | (Panic, _, events') => (Panic, completionID, events ++ events')
  end.

(** [Call] from the first status on, for the compiled messages [msgs]. *)
Definition submit (c : Client.t) (ctx : Ctx) (env : Env)
    (messageRequest : CompletionRequest.t) (msgs : list ChatCompletionMessage.t)
    (completionID : Z) : Outcome CompletionMessage.t * Z * list Event :=
  let completionID' := int64 (completionID + 1) in
  let id := Sprint completionID' in
  let request := wireRequest c (withDefaultModel c messageRequest) msgs in
  let key := cacheKey c (seeded c request) in
  if lookupSkipped ctx messageRequest then
    live c ctx env (seeded c request) id completionID' [Send (Submitted id request)]
  else
    match lookupResult env key with
    | (_, _, Some err) =>
        (Fail err, completionID', [Send (Submitted id request); CacheGet key])
    | (response, true, None) =>
        conclude id response true completionID'
          [Send (Submitted id request); CacheGet key]
    | (_, false, None) =>
        live c ctx env (seeded c request) id completionID'
          [Send (Submitted id request); CacheGet key]
    end.

(** *** What a chunk carries *)

(** The role and the text of a chunk: those of [Choices[0].Delta], empty
    for a chunk without choices. *)
Definition deltaRole response : string :=
  match ChatCompletionStreamResponse.Choices response with
  | [] => ""
  | choice :: _ =>
      ChatCompletionStreamChoiceDelta.Role (ChatCompletionStreamChoice.Delta choice)
  end.

Definition deltaText response : string :=
  match ChatCompletionStreamResponse.Choices response with
  | [] => ""
  | choice :: _ =>
      ChatCompletionStreamChoiceDelta.Content (ChatCompletionStreamChoice.Delta choice)
  end.

(** The last string of a list that is not empty, [fallback] when there is
    none. *)
Definition lastNonEmpty (fallback : string) (strings : list string) : string :=
  default fallback (last (filter (λ s, s ≠ "") strings)).

(** The content made of the text [text]: no part for the empty text, one
    text part otherwise. *)
Definition textContent (text : string) : list ContentPart.t :=
  if decide (text = "") then [] else [ContentPart.mk text None].

(** The part that holds the tool call [call] and no text. *)
Definition toolPart (call : CompletionToolCall.t) : ContentPart.t :=
  ContentPart.mk "" (Some call).

(** [after] continues [before]: the same text and, for a tool call, the
    same name and arguments, each with something appended. *)
Definition continues (before after : ContentPart.t) : Prop :=
  (∃ more, ContentPart.Text after = ContentPart.Text before +:+ more)
  ∧ ∀ call, ContentPart.ToolCall before = Some call →
      ∃ call' moreName moreArguments,
        ContentPart.ToolCall after = Some call'
        ∧ CompletionFunctionCall.Name (CompletionToolCall.Function call')
          = CompletionFunctionCall.Name (CompletionToolCall.Function call) +:+ moreName
        ∧ CompletionFunctionCall.Arguments (CompletionToolCall.Function call')
          = CompletionFunctionCall.Arguments (CompletionToolCall.Function call)
            +:+ moreArguments.

(** The chunk that carries one fragment and nothing else. *)
Definition fragmentChunk tool : ChatCompletionStreamResponse.t :=
  ChatCompletionStreamResponse.mk
    [ChatCompletionStreamChoice.mk (ChatCompletionStreamChoiceDelta.mk "" "" [tool])].

(** The tool calls of [calls] carry the indices [start], [start+1], ... *)
Fixpoint indexedFrom (start : nat) (calls : list CompletionToolCall.t) : bool :=
  match calls with
  | [] => true
  | call :: calls' =>
      bool_decide (CompletionToolCall.Index call = Some (Z.of_nat start))
      && indexedFrom (S start) calls'
  end.

(** The chunk that carries a compiled message whole: its role, its scalar
    content and its tool calls. *)
Definition wholeChunk (chatMessage : ChatCompletionMessage.t)
  : ChatCompletionStreamResponse.t :=
  ChatCompletionStreamResponse.mk
    [ChatCompletionStreamChoice.mk
       (ChatCompletionStreamChoiceDelta.mk
          (ChatCompletionMessage.Content chatMessage)
          (ChatCompletionMessage.Role chatMessage)
          (ChatCompletionMessage.ToolCalls chatMessage))].

(** *** Compiled messages, in closed form *)

(** The wire tool calls of the parts of a message, in their order. *)
Definition wireToolCalls message : list ToolCall.t :=
  toToolCall <$> omap ContentPart.ToolCall (CompletionMessage.Content message).

(** The name and the tool-call id a message takes from the call it
    answers. *)
Definition answeredName message : string :=
  match CompletionMessage.ToolCall message with
  | Some call => CompletionFunctionCall.Name (CompletionToolCall.Function call)
  | None => ""
  end.

Definition answeredID message : string :=
  match CompletionMessage.ToolCall message with
  | Some call => CompletionToolCall.ID call
  | None => ""
  end.

(** *** The events of a call *)

(** The completion id of the status an event sends. *)
Definition sentID (event : Event) : option string :=
  match event with
  | Send status => Some (CompletionStatus.CompletionID status)
  | _ => None
  end.

(** The message of the partial status an event sends. *)
Definition sentPartial (event : Event) : option CompletionMessage.t :=
  match event with
  | Send status => CompletionStatus.PartialResponse status
  | _ => None
  end.

(** The event sends a status that carries a response: a Final status. *)
Definition isFinal (event : Event) : bool :=
  match event with
  | Send status =>
      match CompletionStatus.Response status with Some _ => true | None => false end
  | _ => false
  end.

(** The event reads or writes the cache store. *)
Definition touchesCache (event : Event) : bool :=
  isCacheGet event || isCacheStore event.

(** A tool call without an id whose hash is too short to take 8 characters
    from: the one kind of part on which the loop over the ids panics. *)
Definition unhashable part : Prop :=
  ∃ toolCall,
    ContentPart.ToolCall part = Some toolCall
    ∧ CompletionToolCall.ID toolCall = ""
    ∧ (String.length
         (hash_ID
            [CompletionFunctionCall.Name (CompletionToolCall.Function toolCall);
             CompletionFunctionCall.Arguments (CompletionToolCall.Function toolCall)])
       < 8)%nat.

(** A message the second loop of [toMessages] leaves out: its one text is
    ["."] or ["{}"]. *)
Definition leftOut message : Prop :=
  textParts message = ["."] ∨ textParts message = ["{}"].

(** The parts that are not tool calls: those the text of a delta can go
    to. *)
Definition isPlain part : bool :=
  match ContentPart.ToolCall part with
  | None => true
  | Some _ => false
  end.

Definition plainParts content : list ContentPart.t :=
  filter (λ part, isPlain part = true) content.

(** *** Requests that can be encoded

    [cacheKey] hands the request to [hash.Encode], which marshals it with
    [encoding/json] and panics when that fails; [hash_Encode] is the hash
    of a request that can be marshalled.  Of what a request built by
    [Call] holds, [encoding/json] refuses a temperature that is NaN or
    infinite: in its bit pattern the eight bits of the exponent are all
    set.  What is stated of a call that goes past [cacheKey] to a failing
    read of the cache or to a transport that refuses the stream is stated
    for the other requests. *)
Definition float32_isFinite (f : float32) : bool :=
  negb (Z.land (Z.shiftr f 23) 255 =? 255).

Definition encodable (request : ChatCompletionRequest.t) : Prop :=
  ∀ temperature,
    ChatCompletionRequest.Temperature request = Some temperature →
    float32_isFinite temperature = true.

(** A compiled message with the user role in place of its own. *)
Definition asUser (chatMessage : ChatCompletionMessage.t) : ChatCompletionMessage.t :=
  ChatCompletionMessage.mk CompletionMessageRoleTypeUser
    (ChatCompletionMessage.Content chatMessage)
    (ChatCompletionMessage.MultiContent chatMessage)
    (ChatCompletionMessage.Name chatMessage)
    (ChatCompletionMessage.ToolCalls chatMessage)
    (ChatCompletionMessage.ToolCallID chatMessage).

End Vocabulary.

(** ** Sample inputs *)

Definition gap_content : list ContentPart.t :=
  [ ContentPart.mk ""
      (Some (CompletionToolCall.mk (Some 0) "call_a"
               (CompletionFunctionCall.mk "ls" "{}")));
    ContentPart.mk "listing" None ].

Definition gap_fragment : ToolCall.t :=
  ToolCall.mk (Some 3) "call_d" ToolTypeFunction (FunctionCall.mk "cat" "{").

Definition textChunk (role text : string) : ChatCompletionStreamResponse.t :=
  ChatCompletionStreamResponse.mk
    [ChatCompletionStreamChoice.mk (ChatCompletionStreamChoiceDelta.mk text role [])].

Definition toolChunk (tools : list ToolCall.t) : ChatCompletionStreamResponse.t :=
  ChatCompletionStreamResponse.mk
    [ChatCompletionStreamChoice.mk (ChatCompletionStreamChoiceDelta.mk "" "" tools)].

Definition lsFragment : ToolCall.t :=
  ToolCall.mk (Some 0) "call_a" ToolTypeFunction (FunctionCall.mk "ls" "{}").

(** Collaborators to run the client on: a short system prompt, no default
    prompt recognised, and toy hashes that read the parts a real hash
    would mix. *)
Definition sampleCollaborators : Collaborators := {|
  system_InternalSystemPrompt := "You are task oriented system.";
  system_IsDefaultPrompt := λ _, ("", false);
  hash_Encode := λ input,
    base input +:+ "/" +:+ ChatCompletionRequest.Model (request input) +:+ "/"
    +:+ String.concat ","
          (ChatCompletionMessage.ToolCallID
             <$> ChatCompletionRequest.Messages (request input));
  hash_Seed := λ request,
    Z.of_nat (length (ChatCompletionRequest.Messages request));
  hash_ID := λ parts, String.concat "-" parts +:+ "00000000";
  gzipJSON := λ responses, inr (repeat Byte.x1f (length responses));
  gunzipJSON := λ data, Decoded (repeat (textChunk "" "4") (length data)) None
|}.

Definition userMessage (text : string) : CompletionMessage.t :=
  CompletionMessage.mk CompletionMessageRoleTypeUser (Text text) None.

Definition systemMessage (text : string) : CompletionMessage.t :=
  CompletionMessage.mk CompletionMessageRoleTypeSystem (Text text) None.

Definition requestOf (messages : list CompletionMessage.t) : CompletionRequest.t :=
  CompletionRequest.mk "" None [] messages 0 None false None.

(** A system message without any content part, followed by a user message. *)
Definition emptySystemRequest : CompletionRequest.t :=
  requestOf [CompletionMessage.mk CompletionMessageRoleTypeSystem [] None;
             userMessage "hi"].

(** The request [[user:"hi", system:"be terse"]]. *)
Definition trailingSystemRequest : CompletionRequest.t :=
  requestOf [userMessage "hi"; systemMessage "be terse"].

Definition sampleClient : Client.t :=
  Client.mk "gpt-4-turbo-preview" "3b1f" false false "".

(** A wire request with an assistant message that calls a tool and the
    tool's answer, the call carrying [id], the answer [answerID]. *)
Definition toolRound (id answerID : string) : ChatCompletionRequest.t :=
  ChatCompletionRequest.mk "gpt-4-turbo-preview"
    [ ChatCompletionMessage.mk "user" "list the files" [] "" [] "";
      ChatCompletionMessage.mk "assistant" "" [] ""
        [ToolCall.mk (Some 0) id ToolTypeFunction (FunctionCall.mk "ls" "{}")] "";
      ChatCompletionMessage.mk "tool" "a.txt" [] "ls" [] answerID ]
    0 (Some float32_zero) None None [] "" false.

(** An empty cache store that accepts every write, and a transport that
    answers with [stream]. *)
Definition envWith (stream : Stream) : Env :=
  mkEnv (λ _, ([], false, None)) (λ _ _, None) (λ _, inr stream).

(** A cache store whose [Get] fails. *)
Definition envBrokenCache (stream : Stream) : Env :=
  mkEnv (λ _, ([], false, Some "cache: read failed")) (λ _ _, None) (λ _, inr stream).

(** A cache store that holds two chunks under every key. *)
Definition envCached (stream : Stream) : Env :=
  mkEnv (λ _, ([Byte.x1f; Byte.x1f], true, None)) (λ _ _, None) (λ _, inr stream).

(** The request [[system:"be terse", user:"2+2?"]], with the cache flag
    [cache]. *)
Definition sumRequest (cache : option bool) : CompletionRequest.t :=
  CompletionRequest.mk "" None []
    [systemMessage "be terse"; userMessage "2+2?"] 0 None false cache.

(** The answer ["4"] in one chunk, then a tool call without an id. *)
Definition sumChunks : list ChatCompletionStreamResponse.t :=
  [ textChunk "assistant" "4";
    toolChunk [ToolCall.mk (Some 1) "" ToolTypeFunction (FunctionCall.mk "check" "{}")] ].

(** What [sumRequest] compiles to for [sampleClient], and what the client
    assembles from [sumChunks]. *)
Definition sumWireRequest : ChatCompletionRequest.t :=
  ChatCompletionRequest.mk "gpt-4-turbo-preview"
    [ ChatCompletionMessage.mk "system"
        ("You are task oriented system." +:+ newline +:+ "be terse") [] "" [] "";
      ChatCompletionMessage.mk "user" "2+2?" [] "" [] "" ]
    0 (Some float32_zero) None None [] "" false.

Definition sumKey : string := "3b1f/gpt-4-turbo-preview/,".

Definition sumPartial1 : CompletionMessage.t :=
  CompletionMessage.mk "assistant" [ContentPart.mk "4" None] None.

Definition sumPartial2 : CompletionMessage.t :=
  CompletionMessage.mk "assistant"
    [ ContentPart.mk "4" None;
      ContentPart.mk ""
        (Some (CompletionToolCall.mk (Some 1) ""
                 (CompletionFunctionCall.mk "check" "{}"))) ]
    None.

Definition sumResult : CompletionMessage.t :=
  CompletionMessage.mk "assistant"
    [ ContentPart.mk "4" None;
      ContentPart.mk ""
        (Some (CompletionToolCall.mk (Some 1) "call_check-{}"
                 (CompletionFunctionCall.mk "check" "{}"))) ]
    None.

(** The events of the call of [sampleClient] with [sumRequest] on an empty
    cache store and a stream that gives [sumChunks]. *)
Definition sumEvents : list Event :=
  [ Send (@Submitted "1" sumWireRequest);
    CacheGet sumKey;
    Send (@Partial "1" waiting);
    CreateChatCompletionStream (withStream sumWireRequest);
    Send (@Partial "1" sumPartial1);
    Send (@Partial "1" sumPartial2);
    CacheStore sumKey [Byte.x1f; Byte.x1f];
    Send (@Final "1" sumChunks sumResult false) ].

(** A system message with two text parts, followed by a user message. *)
Definition twoPartSystemRequest : CompletionRequest.t :=
  requestOf
    [CompletionMessage.mk CompletionMessageRoleTypeSystem
       [ContentPart.mk "be terse" None; ContentPart.mk "be kind" None] None;
     userMessage "hi"].

(** A message with two texts around a tool call, and what it compiles to. *)
Definition mixedMessage : CompletionMessage.t :=
  CompletionMessage.mk "assistant"
    [ ContentPart.mk "first" None;
      ContentPart.mk ""
        (Some (CompletionToolCall.mk (Some 0) "call_a"
                 (CompletionFunctionCall.mk "ls" "{}")));
      ContentPart.mk "second" None ]
    None.

Definition mixedChatMessage : ChatCompletionMessage.t :=
  ChatCompletionMessage.mk "assistant" ""
    [ ChatMessagePart.mk "text" "first"; ChatMessagePart.mk "text" "second" ]
    ""
    [ ToolCall.mk (Some 0) "call_a" "function" (FunctionCall.mk "ls" "{}") ]
    "".


(** Collaborators whose codec fails: nothing can be packed or unpacked. *)
Definition faultyCollaborators : Collaborators := {|
  system_InternalSystemPrompt := "You are task oriented system.";
  system_IsDefaultPrompt := λ _, ("", false);
  hash_Encode := λ input,
    base input +:+ "/" +:+ ChatCompletionRequest.Model (request input) +:+ "/"
    +:+ String.concat ","
          (ChatCompletionMessage.ToolCallID
             <$> ChatCompletionRequest.Messages (request input));
  hash_Seed := λ request,
    Z.of_nat (length (ChatCompletionRequest.Messages request));
  hash_ID := λ parts, String.concat "-" parts +:+ "00000000";
  gzipJSON := λ _, inl "json: unsupported value";
  gunzipJSON := λ _, BadHeader "gzip: invalid header"
|}.

(** An empty cache store and a transport that refuses the request. *)
Definition envUnreachable : Env :=
  mkEnv (λ _, ([], false, None)) (λ _ _, None) (λ _, inl "connection refused").

(** An empty cache store that refuses every write. *)
Definition envFullDisk (stream : Stream) : Env :=
  mkEnv (λ _, ([], false, None)) (λ _ _, Some "cache: disk full") (λ _, inr stream).

(** The answer ["44"] in two chunks, and the message it assembles to. *)
Definition fourChunks : list ChatCompletionStreamResponse.t :=
  [textChunk "" "4"; textChunk "" "4"].

Definition fourResult : CompletionMessage.t :=
  CompletionMessage.mk "" [ContentPart.mk "44" None] None.

(** Three models, as the transport lists them. *)
Definition sampleModels : ModelsList.t :=
  ModelsList.mk [Model.mk "gpt-4"; Model.mk "babbage-002"; Model.mk "gpt-3.5-turbo"].

(** A client built without a key and without a base URL. *)
Definition keylessClient : Client.t :=
  Client.mk "gpt-4-turbo-preview" "3b1f" true false "".

(** A request with the internal system prompt switched off. *)
Definition quietRequestOf (messages : list CompletionMessage.t) : CompletionRequest.t :=
  CompletionRequest.mk "" (Some false) [] messages 0 None false None.

(** The request [[user:"2+2?", user:"{}", user:"hi"]]. *)
Definition sentinelRequest : CompletionRequest.t :=
  requestOf [userMessage "2+2?"; userMessage "{}"; userMessage "hi"].
(** * Properties *)

(** ** Properties of the stream assembler *)

Section StreamAssembler.

Implicit Types (content : list ContentPart.t) (tool : ToolCall.t).

Lemma placeholders_S from n :
  placeholders from (S n) = placeholder from :: placeholders (S from) n.
Proof. reflexivity. Qed.

Lemma length_placeholders from n : length (placeholders from n) = n.
Proof. unfold placeholders. by rewrite length_fmap, length_seq. Qed.

Lemma growContent_enough fuel content idx :
  (idx + 1 - Z.of_nat (length content) ≤ Z.of_nat fuel) →
  growContent fuel content idx =
    content ++ placeholders (length content)
                 (Z.to_nat (idx + 1 - Z.of_nat (length content))).
Proof.
  revert content. induction fuel as [|fuel IH]; intros content Hfuel; simpl.
  - case_decide; [lia|].
    replace (Z.to_nat _) with 0%nat by lia. by rewrite app_nil_r.
  - case_decide as Hlt.
    + rewrite IH by (rewrite length_app; simpl; lia).
      rewrite length_app; simpl.
      replace (Z.to_nat (idx + 1 - Z.of_nat (length content)))
        with (S (Z.to_nat (idx + 1 - Z.of_nat (length content + 1)))) by lia.
      rewrite placeholders_S, <- app_assoc. simpl.
      by replace (length content + 1)%nat with (S (length content)) by lia.
    + replace (Z.to_nat _) with 0%nat by lia. by rewrite app_nil_r.
Qed.

(** After the growth loop of [appendToolCall] the content list is the old
    one followed by the placeholders up to and including [idx]. *)
Lemma growContent_appendToolCall content idx :
  growContent (Z.to_nat (idx + 1)) content idx =
    content ++ placeholders (length content)
                 (Z.to_nat (idx + 1 - Z.of_nat (length content))).
Proof. apply growContent_enough. lia. Qed.

Lemma appendToolCall_eq content tool :
  appendToolCall content tool =
    let grown := content ++ placeholders (length content)
                   (Z.to_nat (targetIndex tool + 1 - Z.of_nat (length content))) in
    part ← index grown (targetIndex tool);
    Some (<[Z.to_nat (targetIndex tool) := populate part tool]> grown).
Proof.
  unfold appendToolCall, targetIndex.
  by rewrite growContent_appendToolCall.
Qed.

Lemma index_Some {A} (s : list A) i x :
  index s i = Some x ↔ 0 ≤ i ∧ s !! Z.to_nat i = Some x.
Proof.
  unfold index. case_decide as Hi; split.
  - discriminate.
  - intros [Hge _]. lia.
  - intros Hx. split; [lia|done].
  - by intros [_ Hx].
Qed.

Lemma index_None {A} (s : list A) i :
  index s i = None ↔ i < 0 ∨ Z.of_nat (length s) ≤ i.
Proof.
  unfold index. case_decide; [split; [auto|done]|].
  rewrite lookup_ge_None. lia.
Qed.

Lemma placeholders_snoc from n :
  placeholders from (S n) = placeholders from n ++ [placeholder (from + n)].
Proof. unfold placeholders. by rewrite seq_S, fmap_app. Qed.

(** A fragment for a position that exists. *)
Lemma appendToolCall_existing content tool (i : nat) part :
  targetIndex tool = Z.of_nat i →
  content !! i = Some part →
  appendToolCall content tool = Some (<[i := populate part tool]> content).
Proof.
  intros Htarget Hpart. rewrite appendToolCall_eq; simpl.
  assert (Hlen : (i < length content)%nat) by (by eapply lookup_lt_Some).
  replace (Z.to_nat (targetIndex tool + 1 - Z.of_nat (length content)))
    with 0%nat by lia.
  unfold placeholders; simpl. rewrite app_nil_r.
  assert (Hidx : index content (targetIndex tool) = Some part).
  { apply index_Some. split; [lia|]. by rewrite Htarget, Nat2Z.id. }
  rewrite Hidx; simpl. by rewrite Htarget, Nat2Z.id.
Qed.

End StreamAssembler.

(** ** Gap filling *)

Section GapFilling.

Implicit Types (content : list ContentPart.t) (tool : ToolCall.t).

(** A fragment that lands on a placeholder leaves its own id, name and
    arguments there. *)
Lemma populate_placeholder position tool :
  populate (placeholder position) tool =
    ContentPart.mk ""
      (Some (CompletionToolCall.mk
         (Some (default (Z.of_nat position) (ToolCall.Index tool)))
         (ToolCall.ID tool)
         (CompletionFunctionCall.mk
            (FunctionCall.Name (ToolCall.Function tool))
            (FunctionCall.Arguments (ToolCall.Function tool))))).
Proof.
  unfold populate, placeholder, override; simpl.
  destruct (ToolCall.Index tool); simpl; case_decide as Hid; by rewrite ?Hid.
Qed.

(** C3.  When the target index of a tool-call fragment (its index, or 0) is
    not yet a position of the content list, the growth loop appends one part
    for every missing position, in order and up to the target itself.  Each
    part appended is an empty tool-call placeholder: it has no text, and its
    tool call has the position as index and an empty id, name and
    arguments.  Only then is the target slot populated: the old parts are
    kept, the positions in between stay such placeholders, and the last slot
    holds the index, the id, the name and the arguments of the fragment; so
    does [appendMessage] for a delta that carries this fragment.  With two
    parts present and a fragment for index 3, the loop leaves placeholders
    at 2 and 3 and the fragment lands on 3. *)
Theorem gap_filling content tool :
  Z.of_nat (length content) ≤ targetIndex tool →
  let idx := Z.to_nat (targetIndex tool) in
  let empty (position : nat) :=
    ContentPart.mk ""
      (Some (CompletionToolCall.mk (Some (Z.of_nat position)) ""
               (CompletionFunctionCall.mk "" ""))) in
  let populated :=
    ContentPart.mk ""
      (Some (CompletionToolCall.mk (Some (targetIndex tool)) (ToolCall.ID tool)
               (CompletionFunctionCall.mk
                  (FunctionCall.Name (ToolCall.Function tool))
                  (FunctionCall.Arguments (ToolCall.Function tool))))) in
  growContent (Z.to_nat (targetIndex tool + 1)) content (targetIndex tool)
    = content ++ (empty <$> seq (length content) (idx - length content))
              ++ [empty idx]
  ∧ appendToolCall content tool
    = Some (content ++ (empty <$> seq (length content) (idx - length content))
              ++ [populated])
  ∧ (∀ msg response choice others,
       CompletionMessage.Content msg = content →
       ChatCompletionStreamResponse.Choices response = choice :: others →
       ChatCompletionStreamChoiceDelta.ToolCalls (ChatCompletionStreamChoice.Delta choice)
         = [tool] →
       ChatCompletionStreamChoiceDelta.Content (ChatCompletionStreamChoice.Delta choice)
         = "" →
       appendMessage msg response
       = Some (CompletionMessage.mk
                 (override (CompletionMessage.Role msg)
                    (ChatCompletionStreamChoiceDelta.Role
                       (ChatCompletionStreamChoice.Delta choice)))
                 (content ++ (empty <$> seq (length content) (idx - length content))
                    ++ [populated])
                 (CompletionMessage.ToolCall msg)))
  ∧ (length content = 2%nat → targetIndex tool = 3 →
     growContent (Z.to_nat (targetIndex tool + 1)) content (targetIndex tool)
       = content ++ [empty 2%nat; empty 3%nat]
     ∧ appendToolCall content tool
       = Some (content ++ [empty 2%nat; populated])).
Proof.
  intros Hlen idx empty populated.
  assert (Hempty : ∀ from n, empty <$> seq from n = placeholders from n) by done.
  assert (Hpopulated : populated = populate (placeholder idx) tool).
  { rewrite populate_placeholder. unfold populated, targetIndex, idx.
    destruct (ToolCall.Index tool) as [i|] eqn:Hindex; simpl; [done|].
    unfold targetIndex. by rewrite Hindex. }
  rewrite !Hempty, Hpopulated. change (empty idx) with (placeholder idx).
  assert (Hgrown :
    content ++ placeholders (length content)
                 (Z.to_nat (targetIndex tool + 1 - Z.of_nat (length content)))
    = content ++ placeholders (length content) (idx - length content)
              ++ [placeholder idx]).
  { replace (Z.to_nat (targetIndex tool + 1 - Z.of_nat (length content)))
      with (S (idx - length content)) by lia.
    rewrite placeholders_snoc.
    by replace (length content + (idx - length content))%nat with idx by lia. }
  assert (Hgrow :
    growContent (Z.to_nat (targetIndex tool + 1)) content (targetIndex tool)
    = content ++ placeholders (length content) (idx - length content)
              ++ [placeholder idx]).
  { by rewrite growContent_appendToolCall. }
  assert (Happ :
    appendToolCall content tool
    = Some (content ++ placeholders (length content) (idx - length content)
              ++ [populate (placeholder idx) tool])).
  { rewrite appendToolCall_eq; simpl. rewrite Hgrown, !app_assoc.
    set (kept := content ++ placeholders (length content) (idx - length content)).
    assert (Hpos : length kept = idx).
    { unfold kept. rewrite length_app, length_placeholders. lia. }
    assert (Hidx : index (kept ++ [placeholder idx]) (targetIndex tool)
                   = Some (placeholder idx)).
    { apply index_Some. split; [lia|]. fold idx.
      rewrite lookup_app_r by lia. rewrite Hpos.
      by replace (idx - idx)%nat with 0%nat by lia. }
    rewrite Hidx; simpl. f_equal. fold idx.
    replace idx with (length kept + 0)%nat at 1 by lia.
    by rewrite insert_app_r. }
  split; [done|]. split; [done|]. split.
  - intros msg response choice others Hcontent Hchoices Htools Htext.
    unfold appendMessage. rewrite Hchoices, Htools, Hcontent, Htext. simpl.
    by rewrite Happ.
  - intros H2 H3. rewrite Hgrow, Happ. subst idx. rewrite H2, H3. by simpl.
Qed.

(** Gap filling at a two-part list and a fragment for index 3, spelled
    out: the part made for index 2 is a tool call with that index, without
    id, name or arguments, and the fragment lands on the part made for
    index 3. *)
Lemma gap_filling_witness :
  Z.of_nat (length gap_content) ≤ targetIndex gap_fragment
  ∧ growContent 4 gap_content 3
    = gap_content ++
        [ ContentPart.mk ""
            (Some (CompletionToolCall.mk (Some 2) ""
                     (CompletionFunctionCall.mk "" "")));
          ContentPart.mk ""
            (Some (CompletionToolCall.mk (Some 3) ""
                     (CompletionFunctionCall.mk "" ""))) ]
  ∧ appendToolCall gap_content gap_fragment
    = Some (gap_content ++
        [ ContentPart.mk ""
            (Some (CompletionToolCall.mk (Some 2) ""
                     (CompletionFunctionCall.mk "" "")));
          ContentPart.mk ""
            (Some (CompletionToolCall.mk (Some 3) "call_d"
                     (CompletionFunctionCall.mk "cat" "{"))) ]).
Proof.
  split; [by vm_compute|].
  pose proof (gap_filling gap_content gap_fragment) as H.
  destruct H as (_ & _ & _ & H); [by vm_compute|].
  destruct H as [Hgrow Happ]; [reflexivity|reflexivity|].
  split; [exact Hgrow|exact Happ].
Defined.

End GapFilling.

(** ** What a content part carries *)

Section Exclusivity.

Implicit Types (content : list ContentPart.t) (tool : ToolCall.t)
  (part : ContentPart.t) (msg : CompletionMessage.t)
  (response : ChatCompletionStreamResponse.t).

Lemma exclusive_alt part :
  exclusive part ↔ ContentPart.Text part = "" ∨ ContentPart.ToolCall part = None.
Proof.
  unfold exclusive, carriesText, carriesToolCall. split.
  - intros Hex. destruct (decide (ContentPart.Text part = "")) as [|Hne]; [by left|].
    right. destruct (ContentPart.ToolCall part) eqn:Htc; [|done].
    destruct Hex. split; [done|]. by eexists.
  - intros [Ht|Hc] [Hne Hsome]; [done|].
    rewrite Hc in Hsome. by destruct Hsome.
Qed.

Lemma placeholder_carries position : carriesToolCall (placeholder position).
Proof. by eexists. Qed.

Lemma placeholder_exclusive position : exclusive (placeholder position).
Proof. apply exclusive_alt. by left. Qed.

Lemma populate_carries part tool : carriesToolCall (populate part tool).
Proof. by eexists. Qed.

Lemma Forall_placeholders (P : ContentPart.t → Prop) from n :
  (∀ position, P (placeholder position)) → Forall P (placeholders from n).
Proof. intros HP. unfold placeholders. apply Forall_fmap, Forall_forall. intros; apply HP. Qed.

(** Every slot after a fragment is a tool call or the part that was there. *)
Lemma appendToolCall_slots content tool content' (j : nat) part' :
  appendToolCall content tool = Some content' →
  content' !! j = Some part' →
  carriesToolCall part' ∨ content !! j = Some part'.
Proof.
  rewrite appendToolCall_eq; simpl.
  destruct (index _ _) as [part|] eqn:Hidx; simpl; [|done].
  intros [= <-] Hj.
  destruct (decide (j = Z.to_nat (targetIndex tool))) as [->|Hne].
  - left. apply list_lookup_insert_Some in Hj as [(_ & <- & _)|[? _]]; [|done].
    apply populate_carries.
  - rewrite list_lookup_insert_ne in Hj by done.
    apply lookup_app_Some in Hj as [Hj|[_ Hj]]; [by right|].
    left. unfold placeholders in Hj. apply list_lookup_fmap_Some in Hj as (? & -> & _).
    apply placeholder_carries.
Qed.

Lemma appendToolCall_carries content tool content' :
  Forall carriesSomething content →
  appendToolCall content tool = Some content' →
  Forall carriesSomething content'.
Proof.
  intros Hall Happ. apply Forall_lookup. intros j part' Hj.
  destruct (appendToolCall_slots _ _ _ _ _ Happ Hj) as [Htc|Hold]; [by right|].
  exact (Forall_lookup_1 _ _ _ _ Hall Hold).
Qed.

Lemma appendToolCall_exclusive content tool content' :
  Forall exclusive content →
  targetsToolSlots content [tool] = true →
  appendToolCall content tool = Some content' →
  Forall exclusive content'.
Proof.
  intros Hall Htarget. rewrite appendToolCall_eq; simpl.
  destruct (index _ _) as [part|] eqn:Hidx; simpl; [|done].
  intros [= <-].
  assert (Hgrown : Forall exclusive
            (content ++ placeholders (length content)
               (Z.to_nat (targetIndex tool + 1 - Z.of_nat (length content))))).
  { apply Forall_app; split; [done|].
    apply Forall_placeholders, placeholder_exclusive. }
  apply Forall_insert; [done|].
  apply exclusive_alt. left. simpl.
  apply index_Some in Hidx as [Hge Hidx].
  apply lookup_app_Some in Hidx as [Hold|[_ Hnew]].
  - simpl in Htarget. rewrite andb_true_r in Htarget.
    assert (Hi : index content (targetIndex tool) = Some part) by (by apply index_Some).
    rewrite Hi in Htarget. apply bool_decide_eq_true in Htarget.
    assert (Hex : exclusive part) by exact (Forall_lookup_1 _ _ _ _ Hall Hold).
    apply exclusive_alt in Hex as [?|Hnone]; [done|].
    unfold carriesToolCall in Htarget. rewrite Hnone in Htarget. by destruct Htarget.
  - unfold placeholders in Hnew. by apply list_lookup_fmap_Some in Hnew as (? & -> & _).
Qed.

Lemma targetsToolSlots_cons content tool tools :
  targetsToolSlots content (tool :: tools)
  = targetsToolSlots content [tool] && targetsToolSlots content tools.
Proof. simpl. by rewrite andb_true_r. Qed.

(** Fragments that avoided the text slots before a step avoid them after. *)
Lemma targetsToolSlots_step content tool content' tools :
  appendToolCall content tool = Some content' →
  targetsToolSlots content tools = true →
  targetsToolSlots content' tools = true.
Proof.
  intros Happ. unfold targetsToolSlots. rewrite !forallb_forall.
  intros Hall other Hin. specialize (Hall other Hin).
  destruct (index content' (targetIndex other)) as [part'|] eqn:Hnew; [|done].
  apply index_Some in Hnew as [Hge Hnew].
  destruct (appendToolCall_slots _ _ _ _ _ Happ Hnew) as [Htc|Hold].
  - by apply bool_decide_eq_true.
  - assert (Hi : index content (targetIndex other) = Some part') by (by apply index_Some).
    by rewrite Hi in Hall.
Qed.

Lemma appendToolCalls_carries tools : ∀ content content',
  Forall carriesSomething content →
  appendToolCalls content tools = Some content' →
  Forall carriesSomething content'.
Proof.
  induction tools as [|tool tools IH]; simpl; intros content content' Hall Happ.
  - by injection Happ as <-.
  - destruct (appendToolCall content tool) as [content1|] eqn:Hone; simpl in Happ; [|done].
    eapply IH; [|done]. by eapply appendToolCall_carries.
Qed.

Lemma appendToolCalls_exclusive tools : ∀ content content',
  Forall exclusive content →
  targetsToolSlots content tools = true →
  appendToolCalls content tools = Some content' →
  Forall exclusive content'.
Proof.
  induction tools as [|tool tools IH]; intros content content' Hall Htarget Happ.
  - simpl in Happ. by injection Happ as <-.
  - simpl in Happ.
    destruct (appendToolCall content tool) as [content1|] eqn:Hone; simpl in Happ; [|done].
    rewrite targetsToolSlots_cons in Htarget. apply andb_true_iff in Htarget as [Hfirst Hrest].
    eapply IH; [| |done].
    + by eapply appendToolCall_exclusive.
    + by eapply targetsToolSlots_step.
Qed.

Lemma append_not_empty (s text : string) : text ≠ "" → s +:+ text ≠ "".
Proof. intros Hne. destruct s; [done|]. simpl. discriminate. Qed.

Lemma appendText_carries content text :
  text ≠ "" → Forall carriesSomething content →
  Forall carriesSomething (appendText content text).
Proof.
  intros Hne. induction 1 as [|part rest Hpart Hrest IH]; simpl.
  - constructor; [|constructor]. by left.
  - destruct (ContentPart.ToolCall part) eqn:Htc.
    + by constructor.
    + constructor; [|done]. left. by apply append_not_empty.
Qed.

Lemma appendText_exclusive content text :
  Forall exclusive content → Forall exclusive (appendText content text).
Proof.
  induction 1 as [|part rest Hpart Hrest IH]; simpl.
  - constructor; [|constructor]. apply exclusive_alt. by right.
  - destruct (ContentPart.ToolCall part) eqn:Htc.
    + by constructor.
    + constructor; [|done]. apply exclusive_alt. by right.
Qed.

Lemma appendMessage_carries msg response msg' :
  Forall carriesSomething (CompletionMessage.Content msg) →
  appendMessage msg response = Some msg' →
  Forall carriesSomething (CompletionMessage.Content msg').
Proof.
  intros Hall. unfold appendMessage.
  destruct (ChatCompletionStreamResponse.Choices response) as [|choice ?].
  { by intros [= <-]. }
  destruct (appendToolCalls _ _) as [content|] eqn:Htools; simpl; [|done].
  intros [= <-]; simpl.
  assert (Forall carriesSomething content) by (by eapply appendToolCalls_carries).
  case_decide; [done|]. by apply appendText_carries.
Qed.

Lemma appendMessage_exclusive msg response msg' :
  Forall exclusive (CompletionMessage.Content msg) →
  targetsToolSlots (CompletionMessage.Content msg) (fragments response) = true →
  appendMessage msg response = Some msg' →
  Forall exclusive (CompletionMessage.Content msg').
Proof.
  intros Hall. unfold appendMessage, fragments.
  destruct (ChatCompletionStreamResponse.Choices response) as [|choice ?].
  { by intros _ [= <-]. }
  intros Htarget.
  destruct (appendToolCalls _ _) as [content|] eqn:Htools; simpl; [|done].
  intros [= <-]; simpl.
  assert (Forall exclusive content) by (by eapply appendToolCalls_exclusive).
  case_decide; [done|]. by apply appendText_exclusive.
Qed.

End Exclusivity.

Section Folding.

Implicit Types (content : list ContentPart.t) (tool : ToolCall.t)
  (msg : CompletionMessage.t) (response : ChatCompletionStreamResponse.t)
  (responses : list ChatCompletionStreamResponse.t).

(** A fragment panics exactly when its target index is negative. *)
Lemma appendToolCall_None content tool :
  appendToolCall content tool = None ↔ targetIndex tool < 0.
Proof.
  rewrite appendToolCall_eq; simpl.
  destruct (index _ _) as [part|] eqn:Hidx; simpl.
  - apply index_Some in Hidx as [Hge _]. split; [done|lia].
  - apply index_None in Hidx as [Hneg|Hlen]; [done|].
    rewrite length_app, length_placeholders in Hlen. lia.
Qed.

Lemma appendToolCalls_total tools : ∀ content,
  nonNegative tools = true → is_Some (appendToolCalls content tools).
Proof.
  induction tools as [|tool tools IH]; intros content Hnn; simpl; [by eexists|].
  simpl in Hnn. apply andb_true_iff in Hnn as [Hfirst Hrest].
  apply bool_decide_eq_true in Hfirst.
  destruct (appendToolCall content tool) as [content1|] eqn:Hone; simpl.
  - by apply IH.
  - apply appendToolCall_None in Hone. lia.
Qed.

Lemma appendMessage_total msg response :
  nonNegative (fragments response) = true → is_Some (appendMessage msg response).
Proof.
  unfold appendMessage, fragments.
  destruct (ChatCompletionStreamResponse.Choices response) as [|choice ?]; [by eexists|].
  intros Hnn.
  destruct (appendToolCalls_total _ (CompletionMessage.Content msg) Hnn) as [content ->].
  by eexists.
Qed.

Lemma appendMessages_total responses : ∀ msg,
  forallb (λ response, nonNegative (fragments response)) responses = true →
  is_Some (appendMessages msg responses).
Proof.
  induction responses as [|response responses IH]; intros msg Hnn; simpl; [by eexists|].
  simpl in Hnn. apply andb_true_iff in Hnn as [Hfirst Hrest].
  destruct (appendMessage_total msg response Hfirst) as [msg' ->]; simpl.
  by apply IH.
Qed.

Lemma appendMessages_carries responses : ∀ msg msg',
  Forall carriesSomething (CompletionMessage.Content msg) →
  appendMessages msg responses = Some msg' →
  Forall carriesSomething (CompletionMessage.Content msg').
Proof.
  induction responses as [|response responses IH]; simpl; intros msg msg' Hall Hfold.
  - by injection Hfold as <-.
  - destruct (appendMessage msg response) as [msg1|] eqn:Hstep; simpl in Hfold; [|done].
    eapply IH; [|done]. by eapply appendMessage_carries.
Qed.

Lemma appendMessages_exclusive responses : ∀ msg msg',
  Forall exclusive (CompletionMessage.Content msg) →
  wellTargeted msg responses = true →
  appendMessages msg responses = Some msg' →
  Forall exclusive (CompletionMessage.Content msg').
Proof.
  induction responses as [|response responses IH]; simpl; intros msg msg' Hall Hwell Hfold.
  - by injection Hfold as <-.
  - destruct (appendMessage msg response) as [msg1|] eqn:Hstep; simpl in Hfold; [|done].
    apply andb_true_iff in Hwell as [Hnow Hlater].
    eapply IH; [|done|done]. by eapply appendMessage_exclusive.
Qed.

Lemma populate_plain part tool :
  ContentPart.ToolCall part = None →
  populate part tool
  = ContentPart.mk (ContentPart.Text part)
      (Some (CompletionToolCall.mk (ToolCall.Index tool) (ToolCall.ID tool)
               (CompletionFunctionCall.mk
                  (FunctionCall.Name (ToolCall.Function tool))
                  (FunctionCall.Arguments (ToolCall.Function tool))))).
Proof.
  intros Hplain. unfold populate, override. rewrite Hplain. simpl.
  destruct (ToolCall.Index tool); case_decide as Hid; by rewrite ?Hid.
Qed.

Lemma appendText_keeps_tool_call content (text : string) (i : nat) part :
  content !! i = Some part →
  is_Some (ContentPart.ToolCall part) →
  appendText content text !! i = Some part.
Proof.
  revert i. induction content as [|head content IH]; intros i; [done|].
  intros Hpart Hcall. cbn [appendText].
  destruct i as [|i]; simpl in Hpart.
  - injection Hpart as ->. destruct Hcall as [call Hcall]. by rewrite Hcall.
  - destruct (ContentPart.ToolCall head); simpl; [by apply IH|done].
Qed.

(** C2, as the assembler has it.  Every part of a folded message carries
    text or a tool call, and possibly both: a fragment aimed at a position
    that holds a part without a tool call attaches a tool call to that part,
    with the index, the id, the name and the arguments of the fragment, and
    keeps the text of the part; the step of the fold that brings such a
    fragment leaves that part at its position, text and tool call together,
    whatever text the same delta carries.  A fold step keeps parts exclusive
    when none of its fragments is aimed at a position holding a part without
    a tool call, and so does a whole fold of such steps.  A step whose
    fragments have no negative target index always yields a message. *)
Theorem content_part_exclusivity :
  (∀ responses msg,
     appendMessages CompletionMessage.zero responses = Some msg →
     Forall carriesSomething (CompletionMessage.Content msg))
  ∧ (∀ msg response msg',
       Forall exclusive (CompletionMessage.Content msg) →
       targetsToolSlots (CompletionMessage.Content msg) (fragments response) = true →
       appendMessage msg response = Some msg' →
       Forall exclusive (CompletionMessage.Content msg'))
  ∧ (∀ responses msg,
       wellTargeted CompletionMessage.zero responses = true →
       appendMessages CompletionMessage.zero responses = Some msg →
       Forall exclusive (CompletionMessage.Content msg))
  ∧ (∀ msg response,
       nonNegative (fragments response) = true →
       is_Some (appendMessage msg response))
  ∧ (∀ content tool (i : nat) part,
       targetIndex tool = Z.of_nat i →
       content !! i = Some part →
       ContentPart.ToolCall part = None →
       appendToolCall content tool
       = Some (<[i := ContentPart.mk (ContentPart.Text part)
                        (Some (CompletionToolCall.mk
                                 (ToolCall.Index tool) (ToolCall.ID tool)
                                 (CompletionFunctionCall.mk
                                    (FunctionCall.Name (ToolCall.Function tool))
                                    (FunctionCall.Arguments (ToolCall.Function tool)))))]>
                 content))
  ∧ (∀ msg response choice others tool (i : nat) part,
       ChatCompletionStreamResponse.Choices response = choice :: others →
       ChatCompletionStreamChoiceDelta.ToolCalls (ChatCompletionStreamChoice.Delta choice)
         = [tool] →
       targetIndex tool = Z.of_nat i →
       CompletionMessage.Content msg !! i = Some part →
       ContentPart.ToolCall part = None →
       let both :=
         ContentPart.mk (ContentPart.Text part)
           (Some (CompletionToolCall.mk
                    (ToolCall.Index tool) (ToolCall.ID tool)
                    (CompletionFunctionCall.mk
                       (FunctionCall.Name (ToolCall.Function tool))
                       (FunctionCall.Arguments (ToolCall.Function tool))))) in
       ∃ msg',
         appendMessage msg response = Some msg'
         ∧ CompletionMessage.Content msg' !! i = Some both
         ∧ (ContentPart.Text part ≠ "" → ¬ exclusive both)).
Proof.
  split; [|split; [|split; [|split; [|split]]]].
  - intros responses msg. apply appendMessages_carries. constructor.
  - apply appendMessage_exclusive.
  - intros responses msg. apply appendMessages_exclusive. constructor.
  - apply appendMessage_total.
  - intros content tool i part Htarget Hpart Hplain.
    by rewrite (appendToolCall_existing _ _ _ _ Htarget Hpart), (populate_plain _ _ Hplain).
  - intros msg response choice others tool i part Hchoices Htools Htarget Hpart Hplain both.
    unfold appendMessage. rewrite Hchoices, Htools. cbn [appendToolCalls].
    rewrite (appendToolCall_existing _ _ _ _ Htarget Hpart), (populate_plain _ _ Hplain).
    fold both. simpl.
    assert (Hthere : <[i := both]> (CompletionMessage.Content msg) !! i = Some both).
    { apply list_lookup_insert_eq. by eapply lookup_lt_Some. }
    eexists. split; [done|]. simpl. split.
    + case_decide; [done|]. apply appendText_keeps_tool_call; [done|by eexists].
    + intros Htext Hexclusive. apply Hexclusive. split; [done|by eexists].
Qed.

(** A text delta followed by a fragment for index 0: the assembled message
    has one part, and it carries both the text and the tool call. *)
Lemma content_part_both :
  appendMessages CompletionMessage.zero
    [textChunk "assistant" "Let me look."; toolChunk [lsFragment]]
  = Some (CompletionMessage.mk "assistant"
      [ContentPart.mk "Let me look."
         (Some (CompletionToolCall.mk (Some 0) "call_a"
                  (CompletionFunctionCall.mk "ls" "{}")))]
      None)
  ∧ ¬ (∀ responses msg,
         appendMessages CompletionMessage.zero responses = Some msg →
         Forall exclusive (CompletionMessage.Content msg)).
Proof.
  assert (Hrun : appendMessages CompletionMessage.zero
    [textChunk "assistant" "Let me look."; toolChunk [lsFragment]]
    = Some (CompletionMessage.mk "assistant"
        [ContentPart.mk "Let me look."
           (Some (CompletionToolCall.mk (Some 0) "call_a"
                    (CompletionFunctionCall.mk "ls" "{}")))]
        None)) by reflexivity.
  split; [exact Hrun|].
  intros Hall. specialize (Hall _ _ Hrun). simpl in Hall.
  apply Forall_cons_1 in Hall as [Hex _]. apply Hex. split.
  - unfold carriesText; simpl. discriminate.
  - by eexists.
Qed.

(** The fragment first and the text after it: two parts, each exclusive.
    The text first and the fragment after it, for index 0: one part, with
    the text and the tool call. *)
Lemma content_part_exclusivity_witness :
  wellTargeted CompletionMessage.zero
    [toolChunk [lsFragment]; textChunk "assistant" "Done."] = true
  ∧ (∃ msg,
       appendMessages CompletionMessage.zero
         [toolChunk [lsFragment]; textChunk "assistant" "Done."] = Some msg
       ∧ Forall exclusive (CompletionMessage.Content msg)
       ∧ Forall carriesSomething (CompletionMessage.Content msg))
  ∧ appendToolCall [ContentPart.mk "Let me look." None] lsFragment
    = Some [ContentPart.mk "Let me look."
              (Some (CompletionToolCall.mk (Some 0) "call_a"
                       (CompletionFunctionCall.mk "ls" "{}")))].
Proof.
  split; [reflexivity|]. split.
  - eexists. split; [reflexivity|]. split.
    + apply (proj1 (proj2 (proj2 content_part_exclusivity))
               [toolChunk [lsFragment]; textChunk "assistant" "Done."]);
        reflexivity.
    + apply (proj1 content_part_exclusivity
               [toolChunk [lsFragment]; textChunk "assistant" "Done."]);
        reflexivity.
  - exact (proj1 (proj2 (proj2 (proj2 (proj2 content_part_exclusivity))))
             [ContentPart.mk "Let me look." None] lsFragment 0%nat
             (ContentPart.mk "Let me look." None) eq_refl eq_refl eq_refl).
Defined.

End Folding.


(** ** Properties of the request compiler *)

Section SecondLoop.

Context `{Collaborators}.

Implicit Types (message : CompletionMessage.t) (chatMessage : ChatCompletionMessage.t)
  (content : list ContentPart.t).

Lemma chatLoop_omap (msgs : list CompletionMessage.t) : ∀ result,
  chatLoop msgs result = result ++ omap toChatMessage msgs.
Proof.
  induction msgs as [|message msgs IH]; intros result; simpl.
  - by rewrite app_nil_r.
  - destruct (toChatMessage message) as [chatMessage|]; rewrite IH; [|done].
    by rewrite <- app_assoc.
Qed.

End SecondLoop.


(** ** System prompts *)

Section SystemPrompts.

Context `{Collaborators}.

Implicit Types (message : CompletionMessage.t) (request : CompletionRequest.t)
  (messages rest : list CompletionMessage.t).

Lemma lastOrOrphan_here (visited : list CompletionMessage.t) message rest :
  lastOrOrphan (visited ++ message :: rest) (length visited)
  = Some (negb (followedBySystemOrUser rest)).
Proof.
  unfold lastOrOrphan. rewrite length_app.
  destruct rest as [|next rest]; cbn [length followedBySystemOrUser negb].
  - case_decide; [done|lia].
  - case_decide; [lia|].
    assert (Hnext : index (visited ++ message :: next :: rest)
                      (Z.of_nat (length visited) + 1) = Some next).
    { apply index_Some. split; [lia|].
      replace (Z.to_nat (Z.of_nat (length visited) + 1))
        with (length visited + 1)%nat by lia.
      rewrite lookup_app_r by lia.
      by replace (length visited + 1 - length visited)%nat with 1%nat by lia. }
    rewrite Hnext; simpl. f_equal.
    by repeat case_bool_decide.
Qed.

Lemma systemLoop_run rest : ∀ (visited : list CompletionMessage.t) systemPrompts msgs,
  mergeable rest = true →
  systemLoop (visited ++ rest) (length visited) rest systemPrompts msgs
  = Some (systemPrompts ++ mergedTexts rest, msgs ++ keptMessages rest).
Proof.
  induction rest as [|message rest IH]; intros visited systemPrompts msgs Hok; simpl.
  - by rewrite !app_nil_r.
  - simpl in Hok. apply andb_true_iff in Hok as [Hfirst Hrest].
    assert (Hnext : ∀ prompts' msgs',
      systemLoop (visited ++ message :: rest) (S (length visited)) rest prompts' msgs'
      = Some (prompts' ++ mergedTexts rest, msgs' ++ keptMessages rest)).
    { intros prompts' msgs'.
      replace (visited ++ message :: rest) with ((visited ++ [message]) ++ rest)
        by (by rewrite <- app_assoc).
      replace (S (length visited)) with (length (visited ++ [message]))
        by (rewrite length_app; simpl; lia).
      by apply IH. }
    unfold merged, isSystem in *.
    case_decide as Hrole.
    + rewrite lastOrOrphan_here; simpl.
      rewrite bool_decide_eq_true_2 in * by done. simpl in *.
      destruct (followedBySystemOrUser rest); simpl.
      * apply bool_decide_eq_true in Hfirst.
        destruct (CompletionMessage.Content message) as [|part parts] eqn:Hcontent;
          [done|].
        unfold firstText. rewrite Hcontent. unfold index; simpl.
        by rewrite Hnext, <- app_assoc.
      * by rewrite Hnext, <- app_assoc.
    + rewrite bool_decide_eq_false_2 by done. simpl.
      by rewrite Hnext, <- app_assoc.
Qed.

Lemma gatherSystemPrompts_run request :
  mergeable (CompletionRequest.Messages request) = true →
  gatherSystemPrompts request
  = Some (leadingSystemMessage
            (internalPrompt request ++ mergedTexts (CompletionRequest.Messages request))
          ++ keptMessages (CompletionRequest.Messages request)).
Proof.
  intros Hok. unfold gatherSystemPrompts.
  pose proof (systemLoop_run (CompletionRequest.Messages request) []
                (internalPrompt request) [] Hok) as Hrun.
  simpl in Hrun. unfold internalPrompt in *. rewrite Hrun; simpl.
  f_equal. unfold leadingSystemMessage.
  by destruct (_ ++ mergedTexts _) as [|prompt prompts].
Qed.

Lemma keptMessages_not_system messages :
  Forall (λ message, CompletionMessage.Role message ≠ CompletionMessageRoleTypeSystem)
    (keptMessages messages).
Proof.
  induction messages as [|message rest IH]; simpl; [constructor|].
  unfold merged, isSystem. case_bool_decide as Hrole; simpl.
  - destruct (followedBySystemOrUser rest); [done|]. by constructor.
  - by constructor.
Qed.

(** A run of system messages that ends at a user message is merged whole. *)
Lemma mergedTexts_leading_run (run : list CompletionMessage.t) next rest :
  Forall (λ message, isSystem message = true) run →
  CompletionMessage.Role next = CompletionMessageRoleTypeUser →
  mergedTexts (run ++ next :: rest) = (firstText <$> run) ++ mergedTexts (next :: rest)
  ∧ keptMessages (run ++ next :: rest) = keptMessages (next :: rest).
Proof.
  intros Hrun Hnext. induction Hrun as [|message run Hsys Htail [IHt IHk]]; [done|].
  cbn [app mergedTexts keptMessages fmap list_fmap].
  assert (Hfollow : followedBySystemOrUser (run ++ next :: rest) = true).
  { destruct run as [|other run]; simpl.
    - rewrite (bool_decide_eq_true_2 (_ = CompletionMessageRoleTypeUser)) by done.
      apply orb_true_r.
    - apply Forall_cons_1 in Htail as [Hother _]. unfold isSystem in Hother.
      by rewrite Hother. }
  unfold merged. rewrite Hsys, Hfollow; simpl.
  split; [by rewrite IHt|done].
Qed.

End SystemPrompts.

Section SystemPromptCoalescing.

Context `{Collaborators}.

Implicit Types (message : CompletionMessage.t) (request : CompletionRequest.t).

Lemma toChatMessage_text (role text : string) :
  text ≠ "" → text ≠ "." → text ≠ "{}" →
  toChatMessage (CompletionMessage.mk role (Text text) None)
  = Some (ChatCompletionMessage.mk role (scalarContent text) [] "" [] "").
Proof.
  intros Hne Hdot Hbraces. unfold toChatMessage; simpl.
  unfold contentStep; simpl. rewrite decide_True by done. simpl.
  rewrite decide_False by tauto.
  unfold scalarContent. by destruct (system_IsDefaultPrompt text) as [prompt []].
Qed.

End SystemPromptCoalescing.


(** ** Cache key and seed *)

Section KeyAndSeedProperties.

Context `{Collaborators}.

Lemma foldl_snoc_map {A B} (f : A → B) (l : list A) : ∀ acc,
  foldl (λ acc x, acc ++ [f x]) acc l = acc ++ (f <$> l).
Proof.
  induction l as [|x l IH]; intros acc; simpl.
  - by rewrite app_nil_r.
  - by rewrite IH, <- app_assoc.
Qed.

Lemma seedToolCalls_map (toolCalls : list ToolCall.t) :
  seedToolCalls toolCalls
  = (λ tool, ToolCall.mk (ToolCall.Index tool) "" (ToolCall.Type_ tool)
               (ToolCall.Function tool)) <$> toolCalls.
Proof. unfold seedToolCalls. by rewrite foldl_snoc_map. Qed.

Lemma seedToolCalls_same (a b : list ToolCall.t) :
  Forall2 sameToolCallButID a b → seedToolCalls a = seedToolCalls b.
Proof.
  rewrite !seedToolCalls_map.
  induction 1 as [|x y a b (Hindex & Htype & Hfunction) _ IH]; [done|].
  by rewrite !fmap_cons, Hindex, Htype, Hfunction, IH.
Qed.

Lemma seedMessages_same (a b : list ChatCompletionMessage.t) :
  Forall2 sameMessageButIDs a b → seedMessages a = seedMessages b.
Proof.
  unfold seedMessages. rewrite !foldl_snoc_map, !app_nil_l.
  induction 1 as [|x y a b (Hrole & Hcontent & Hmulti & Hname & Hcalls) _ IH];
    [done|].
  by rewrite !fmap_cons, Hrole, Hcontent, Hmulti, Hname,
    (seedToolCalls_same _ _ Hcalls), IH.
Qed.

(** C7.  Two wire requests that are the same but for the tool-call ids of
    their messages (the [ToolCallID] of a message and the [ID] of each of
    its tool calls) have the same seed, whatever [hash.Seed] computes.  The
    cache key is [hash.Encode] of the base and the request as it is, ids
    included: a [hash.Encode] without collisions gives two such requests
    that differ two different keys, and there are a [hash.Encode] and two
    such requests with equal seeds and different keys. *)
Theorem seed_ignores_tool_call_ids :
  (∀ c request1 request2,
     sameRequestButIDs request1 request2 → seed c request1 = seed c request2)
  ∧ (∀ c request1 request2,
       (∀ input1 input2, hash_Encode input1 = hash_Encode input2 → input1 = input2) →
       sameRequestButIDs request1 request2 →
       request1 ≠ request2 →
       cacheKey c request1 ≠ cacheKey c request2)
  ∧ (sameRequestButIDs (toolRound "call_1" "call_1") (toolRound "call_2" "call_2")
     ∧ @seed sampleCollaborators sampleClient (toolRound "call_1" "call_1")
       = @seed sampleCollaborators sampleClient (toolRound "call_2" "call_2")
     ∧ @cacheKey sampleCollaborators sampleClient (toolRound "call_1" "call_1")
       ≠ @cacheKey sampleCollaborators sampleClient (toolRound "call_2" "call_2")).
Proof.
  split; [|split].
  - intros c request1 request2
      (Hmodel & Hmax & Htemp & Hformat & Hseed & Htools & Huser & Hstream & Hmsgs).
    unfold seed.
    by rewrite Hmodel, Hmax, Htemp, Hformat, Hseed, Htools, Huser, Hstream,
      (seedMessages_same _ _ Hmsgs).
  - intros c request1 request2 Hinjective _ Hdiffer Hkeys.
    apply Hinjective in Hkeys. by injection Hkeys.
  - split; [|split; [reflexivity|by vm_compute]].
    repeat split; repeat constructor.
Qed.

End KeyAndSeedProperties.

(** Two requests whose tool-call ids differ have one seed. *)
Lemma seed_ignores_tool_call_ids_witness :
  sameRequestButIDs (toolRound "call_1" "call_1") (toolRound "call_2" "call_2")
  ∧ @seed sampleCollaborators sampleClient (toolRound "call_1" "call_1")
    = @seed sampleCollaborators sampleClient (toolRound "call_2" "call_2").
Proof.
  assert (Hsame : sameRequestButIDs (toolRound "call_1" "call_1")
                    (toolRound "call_2" "call_2"))
    by (repeat split; repeat constructor).
  split; [exact Hsame|].
  exact (proj1 (@seed_ignores_tool_call_ids sampleCollaborators) sampleClient _ _ Hsame).
Defined.

(** ** The course of a call *)

Section Course.

Context `{Collaborators}.

Implicit Types (c : Client.t) (ctx : Ctx) (env : Env)
  (messageRequest : CompletionRequest.t) (request : ChatCompletionRequest.t)
  (responses pending : list ChatCompletionStreamResponse.t)
  (msg partialMessage : CompletionMessage.t) (completionID : Z).

Lemma fromCache_run c ctx env messageRequest request completionID :
  fromCache c ctx env messageRequest request completionID
  = if lookupSkipped ctx messageRequest
    then (Return ([], false, None), completionID, [])
    else (Return (lookupResult env (cacheKey c request)), completionID,
          [CacheGet (cacheKey c request)]).
Proof.
  unfold fromCache, lookupSkipped, lookupResult.
  destruct (IsNoCache ctx); [done|]. simpl.
  destruct (CompletionRequest.Cache messageRequest) as [[]|]; simpl;
    try done;
    unfold mbind, Run_bind, emit; simpl;
    destruct (cache_Get env (cacheKey c request)) as [[cache []] [err|]];
    try done;
    by destruct (gunzipJSON cache).
Qed.

Lemma store_run c ctx env (key : string) responses completionID :
  store c ctx env key responses completionID
  = (match storeError ctx env key responses with
     | Some err => Fail err
     | None => Return tt
     end, completionID, storeEvents ctx key responses).
Proof.
  unfold store, storeError, storeEvents.
  destruct (IsNoCache ctx); [done|].
  destruct (gzipJSON responses) as [err|buf]; [done|].
  unfold mbind, Run_bind, emit; simpl.
  by destruct (cache_Store env key buf).
Qed.

Lemma recvLoop_run c ctx env (key id : string) pending (closing : option error) :
  ∀ responses partialMessage completionID,
  recvLoop c ctx env key id pending closing responses partialMessage completionID
  = let sends := Send ∘ Partial id <$> (partialMessages partialMessage pending).1 in
    if (partialMessages partialMessage pending).2 then
      match closing with
      | Some err => (Fail err, completionID, sends)
      | None =>
          (match storeError ctx env key (responses ++ pending) with
           | Some err => Fail err
           | None => Return (responses ++ pending)
           end, completionID,
           sends ++ storeEvents ctx key (responses ++ pending))
      end
    else (Panic, completionID, sends).
Proof.
  induction pending as [|response pending IH]; intros responses partialMessage completionID.
  - simpl. destruct closing as [err|]; [done|].
    unfold mbind, Run_bind. rewrite store_run, app_nil_r.
    destruct (storeError _ _ _ _); [done|].
    unfold mret, Run_ret. by rewrite app_nil_r.
  - simpl. unfold mbind at 1, Run_bind at 1, orPanic.
    destruct (appendMessage partialMessage response) as [msg'|]; [|done].
    unfold mbind, Run_bind, emit. rewrite IH. simpl.
    destruct (partialMessages msg' pending) as [partials complete]; simpl.
    rewrite <- app_assoc; simpl.
    destruct complete; [|done].
    destruct closing as [err|]; [done|].
    by destruct (storeError _ _ _ _).
Qed.

Lemma call_run c ctx env request (id : string) completionID :
  call c ctx env request id completionID
  = let opening := [Send (Partial id waiting);
                    CreateChatCompletionStream (withStream request)] in
    match openai_CreateChatCompletionStream env (withStream request) with
    | inl err => (Fail err, completionID, opening)
    | inr stream =>
        let sends :=
          Send ∘ Partial id <$> (partialMessages CompletionMessage.zero (received stream)).1 in
        if (partialMessages CompletionMessage.zero (received stream)).2 then
          match closing stream with
          | Some err => (Fail err, completionID, opening ++ sends)
          | None =>
              (match storeError ctx env (cacheKey c request) (received stream) with
               | Some err => Fail err
               | None => Return (received stream)
               end, completionID,
               opening ++ sends
                 ++ storeEvents ctx (cacheKey c request) (received stream))
          end
        else (Panic, completionID, opening ++ sends)
    end.
Proof.
  unfold call, mbind, Run_bind, emit; simpl.
  destruct (openai_CreateChatCompletionStream env (withStream request))
    as [err|stream]; [done|].
  rewrite recvLoop_run; simpl.
  destruct (partialMessages CompletionMessage.zero (received stream))
    as [partials complete]; simpl.
  destruct complete; [|done].
  destruct (closing stream) as [err|]; [done|].
  by destruct (storeError _ _ _ _).
Qed.

End Course.

Section CallRun.

Context `{Collaborators}.

Implicit Types (c : Client.t) (ctx : Ctx) (env : Env)
  (messageRequest : CompletionRequest.t) (request : ChatCompletionRequest.t)
  (completionID : Z).

Lemma withDefaultModel_Cache c messageRequest :
  CompletionRequest.Cache (withDefaultModel c messageRequest)
  = CompletionRequest.Cache messageRequest.
Proof. unfold withDefaultModel. by case_decide. Qed.

Lemma lookupSkipped_withDefaultModel c ctx messageRequest :
  lookupSkipped ctx (withDefaultModel c messageRequest) = lookupSkipped ctx messageRequest.
Proof. unfold lookupSkipped. by rewrite withDefaultModel_Cache. Qed.

Lemma call_completionID c ctx env request (id : string) completionID :
  (call c ctx env request id completionID).1.2 = completionID.
Proof.
  rewrite call_run; simpl.
  destruct (openai_CreateChatCompletionStream env (withStream request))
    as [err|stream]; [done|].
  destruct ((partialMessages CompletionMessage.zero (received stream)).2); [|done].
  by destruct (closing stream).
Qed.

(** [Call] step by step: the guard, the compilation, the check for an empty
    list; the rest is [submit]. *)
Lemma Call_run c ctx env messageRequest completionID :
  Call c ctx env messageRequest completionID
  = match ValidAuth c with
    | Some err => (Fail err, completionID, [])
    | None =>
        match toMessages (withDefaultModel c messageRequest) with
        | None => (Panic, completionID, [])
        | Some msgs =>
            if decide (length msgs = 0%nat) then
              (Fail "invalid request, no messages to send to OpenAI", completionID, [])
            else submit c ctx env messageRequest msgs completionID
        end
    end.
Proof.
  unfold Call. destruct (ValidAuth c) as [err|]; [done|].
  fold (withDefaultModel c messageRequest).
  unfold mbind at 1, Run_bind at 1, orPanic.
  destruct (toMessages (withDefaultModel c messageRequest)) as [msgs|]; [|done].
  case_decide; [done|].
  fold (seeded c (wireRequest c (withDefaultModel c messageRequest) msgs)).
  unfold submit, live, conclude.
  set (request := seeded c (wireRequest c (withDefaultModel c messageRequest) msgs)).
  set (id := Sprint (int64 (completionID + 1))).
  pose proof (call_completionID c ctx env request id (int64 (completionID + 1))) as Hid.
  unfold mbind, Run_bind, mret, Run_ret, orPanic, emit, fail, nextCompletionID.
  cbv beta. rewrite fromCache_run, lookupSkipped_withDefaultModel. fold id.
  destruct (lookupSkipped ctx messageRequest).
  - destruct (call c ctx env request id (int64 (completionID + 1)))
      as [[[response|err|] completionID'] events];
      simpl in Hid; subst completionID'; simpl; rewrite ?app_nil_r; try done.
    destruct (appendMessages CompletionMessage.zero response) as [assembled|];
      simpl; rewrite ?app_nil_r; [|done].
    destruct (backfillIDs assembled) as [result|]; simpl; by rewrite ?app_nil_r.
  - fold request.
    destruct (lookupResult env (cacheKey c request)) as [[response ok] [err|]];
      simpl; [by destruct ok|].
    destruct ok.
    + destruct (appendMessages CompletionMessage.zero response) as [assembled|];
        simpl; [|done].
      by destruct (backfillIDs assembled) as [result|].
    + destruct (call c ctx env request id (int64 (completionID + 1)))
        as [[[response'|err|] completionID'] events];
        simpl in Hid; subst completionID'; simpl; rewrite ?app_nil_r; try done.
      destruct (appendMessages CompletionMessage.zero response') as [assembled|];
        simpl; rewrite ?app_nil_r; [|done].
      destruct (backfillIDs assembled) as [result|]; simpl; by rewrite ?app_nil_r.
Qed.

End CallRun.

(** ** Errors of the cache store and of the stream *)

Section Errors.

Context `{Collaborators}.

Implicit Types (c : Client.t) (ctx : Ctx) (env : Env)
  (messageRequest : CompletionRequest.t) (request : ChatCompletionRequest.t)
  (msgs : list ChatCompletionMessage.t)
  (chunks : list ChatCompletionStreamResponse.t)
  (completionID : Z) (events : list Event).

Lemma filter_sends (P : Event → bool) (id : string)
    (partials : list CompletionMessage.t) :
  (∀ status, P (Send status) = false) →
  filter (λ event, P event = true) (Send ∘ Partial id <$> partials) = [].
Proof.
  intros Hsend. induction partials as [|partial partials IH]; [done|].
  rewrite fmap_cons, filter_cons_False; [done|].
  simpl. by rewrite Hsend.
Qed.

Lemma filter_only_sends (P : Event → bool) (events : list Event) :
  (∀ status, P (Send status) = false) →
  Forall (λ event, isSend event = true) events →
  filter (λ event, P event = true) events = [].
Proof.
  intros Hsend. induction 1 as [|event events Hevent _ IH]; [done|].
  rewrite filter_cons_False; [done|].
  destruct event; try done. by rewrite Hsend.
Qed.

Lemma not_elem_of_sends (event : Event) (id : string)
    (partials : list CompletionMessage.t) :
  isSend event = false → event ∉ (Send ∘ Partial id <$> partials).
Proof.
  intros Hevent Hin. apply list_elem_of_fmap in Hin as (partial & -> & _). done.
Qed.

(** A temperature that is NaN (here the quiet NaN [0x7FC00000]) or infinite
    makes a request that cannot be encoded. *)
Lemma NaN_temperature_not_encodable request :
  ChatCompletionRequest.Temperature request = Some 2143289344 →
  ¬ encodable request.
Proof. intros Htemperature Hencodable. by specialize (Hencodable _ Htemperature). Qed.

(** C6.  When the cache is read (the lookup is not skipped and the request
    can be encoded, so that its key is computed and [Get] is called) and
    [Get] returns an error, [Call] returns that error right after the read:
    the events are the first status and the read, no stream is opened and
    no other status is sent. *)
Theorem cache_read_error_surfaces c ctx env messageRequest completionID msgs
    (data : bytes) (found : bool) (err : error) :
  ValidAuth c = None →
  toMessages (withDefaultModel c messageRequest) = Some msgs →
  length msgs ≠ 0%nat →
  lookupSkipped ctx messageRequest = false →
  let request := wireRequest c (withDefaultModel c messageRequest) msgs in
  let key := cacheKey c (seeded c request) in
  let id := Sprint (int64 (completionID + 1)) in
  encodable (seeded c request) →
  cache_Get env key = (data, found, Some err) →
  Call c ctx env messageRequest completionID
  = (Fail err, int64 (completionID + 1),
     [Send (Submitted id request); CacheGet key])
  ∧ filter (λ event, isCreateChatCompletionStream event = true)
      [Send (Submitted id request); CacheGet key] = [].
Proof.
  intros Hauth Hmsgs Hlen Hlookup request key id _ Hget.
  split; [|done].
  rewrite Call_run, Hauth, Hmsgs. rewrite decide_False by done.
  unfold submit. rewrite Hlookup. fold request key id.
  unfold lookupResult. rewrite Hget. by destruct found.
Qed.

End Errors.

(** A call on a store whose read fails while the
    transport would have answered. *)
Lemma cache_read_error_surfaces_witness :
  @Call sampleCollaborators sampleClient (mkCtx false)
    (envBrokenCache (mkStream sumChunks None)) (sumRequest None) 0
  = (Fail "cache: read failed", 1,
     [Send (Submitted "1" sumWireRequest); CacheGet sumKey]).
Proof.
  exact (proj1 (@cache_read_error_surfaces sampleCollaborators sampleClient
                  (mkCtx false) (envBrokenCache (mkStream sumChunks None))
                  (sumRequest None) 0 [_; _] [] false "cache: read failed"
                  eq_refl eq_refl ltac:(by vm_compute) eq_refl
                  ltac:(by intros temperature [= <-]) eq_refl)).
Defined.

Section StreamErrors.

Context `{Collaborators}.

Implicit Types (c : Client.t) (ctx : Ctx) (env : Env)
  (messageRequest : CompletionRequest.t) (request : ChatCompletionRequest.t)
  (msgs : list ChatCompletionMessage.t)
  (chunks : list ChatCompletionStreamResponse.t)
  (completionID : Z) (events : list Event).

(** The events of [conclude] are those before it and, at most, one status. *)
Lemma conclude_events (id : string) chunks (cached : bool) completionID events
    (outcome : Outcome CompletionMessage.t) completionID' events' :
  conclude id chunks cached completionID events = (outcome, completionID', events') →
  completionID' = completionID
  ∧ ∃ tail, events' = events ++ tail ∧ Forall (λ event, isSend event = true) tail.
Proof.
  unfold conclude.
  destruct (appendMessages CompletionMessage.zero chunks) as [assembled|].
  - destruct (backfillIDs assembled) as [result|]; intros [= <- <- <-]; split; try done.
    + eexists. split; [done|]. by repeat constructor.
    + exists []. by rewrite app_nil_r.
  - intros [= <- <- <-]. split; [done|]. exists []. by rewrite app_nil_r.
Qed.

(** A write to the cache store happens in a live call only, after the
    stream has ended with [io.EOF] and every chunk has been assembled, and
    it writes the chunks received. *)
Lemma live_CacheStore c ctx env request (id : string) completionID events
    (outcome : Outcome CompletionMessage.t) completionID' events'
    (key : string) (data : bytes) :
  live c ctx env request id completionID events = (outcome, completionID', events') →
  CacheStore key data ∈ events' →
  CacheStore key data ∈ events
  ∨ ∃ stream,
      openai_CreateChatCompletionStream env (withStream request) = inr stream
      ∧ closing stream = None
      ∧ (partialMessages CompletionMessage.zero (received stream)).2 = true
      ∧ IsNoCache ctx = false
      ∧ gzipJSON (received stream) = inr data
      ∧ key = cacheKey c request.
Proof.
  unfold live. rewrite call_run; simpl.
  destruct (openai_CreateChatCompletionStream env (withStream request))
    as [err|stream] eqn:Hopen.
  { intros [= <- <- <-] Hin. left.
    apply elem_of_app in Hin as [Hin|Hin]; [done|].
    repeat (apply elem_of_cons in Hin as [Hin|Hin]; [done|]).
    by apply elem_of_nil in Hin. }
  destruct (partialMessages CompletionMessage.zero (received stream))
    as [partials complete] eqn:Hpartials; simpl.
  assert (Hopening : ∀ sends : list Event,
    CacheStore key data ∈
      events ++ Send (Partial id waiting)
        :: CreateChatCompletionStream (withStream request)
        :: (Send ∘ Partial id <$> partials) ++ sends →
    CacheStore key data ∈ events ∨ CacheStore key data ∈ sends).
  { intros sends Hin. apply elem_of_app in Hin as [Hin|Hin]; [by left|].
    apply elem_of_cons in Hin as [Hin|Hin]; [done|].
    apply elem_of_cons in Hin as [Hin|Hin]; [done|].
    apply elem_of_app in Hin as [Hin|Hin]; [|by right].
    by apply not_elem_of_sends in Hin. }
  destruct complete.
  2:{ intros [= <- <- <-] Hin.
      rewrite <- (app_nil_r (_ <$> _)) in Hin.
      apply Hopening in Hin as [Hin|Hin]; [by left|by apply elem_of_nil in Hin]. }
  destruct (closing stream) as [err|] eqn:Hclosing.
  { intros [= <- <- <-] Hin.
    rewrite <- (app_nil_r (_ <$> _)) in Hin.
    apply Hopening in Hin as [Hin|Hin]; [by left|by apply elem_of_nil in Hin]. }
  assert (Hstore : ∀ sends : list Event,
    Forall (λ event, isSend event = true) sends →
    CacheStore key data ∈
      storeEvents ctx (cacheKey c request) (received stream) ++ sends →
    IsNoCache ctx = false
    ∧ gzipJSON (received stream) = inr data ∧ key = cacheKey c request).
  { intros sends Hsends Hin. unfold storeEvents in Hin.
    apply elem_of_app in Hin as [Hin|Hin].
    - destruct (IsNoCache ctx); [by apply elem_of_nil in Hin|].
      destruct (gzipJSON (received stream)) as [err|buf];
        [by apply elem_of_nil in Hin|].
      apply list_elem_of_singleton in Hin. by injection Hin as -> ->.
    - rewrite Forall_forall in Hsends. by apply Hsends in Hin. }
  destruct (storeError ctx env (cacheKey c request) (received stream)) as [err|].
  { intros [= <- <- <-] Hin.
    apply Hopening in Hin as [Hin|Hin]; [by left|]. right.
    rewrite <- (app_nil_r (storeEvents _ _ _)) in Hin.
    apply Hstore in Hin as (? & ? & ?); [|constructor].
    exists stream. by rewrite Hpartials. }
  intros Hconclude Hin.
  apply conclude_events in Hconclude as (_ & tail & -> & Htail).
  rewrite <- !app_assoc in Hin. simpl in Hin. rewrite <- app_assoc in Hin.
  apply Hopening in Hin as [Hin|Hin]; [by left|]. right.
  apply Hstore in Hin as (? & ? & ?); [|done].
  exists stream. by rewrite Hpartials.
Qed.

End StreamErrors.

Section StreamErrorClaim.

Context `{Collaborators}.

Implicit Types (c : Client.t) (ctx : Ctx) (env : Env)
  (messageRequest : CompletionRequest.t) (request : ChatCompletionRequest.t)
  (msgs : list ChatCompletionMessage.t)
  (chunks : list ChatCompletionStreamResponse.t)
  (completionID : Z) (events : list Event).

(** [live] when the stream ends with an error after [chunks]. *)
Lemma live_stream_error c ctx env request (id : string) completionID events chunks
    (err : error) :
  openai_CreateChatCompletionStream env (withStream request)
    = inr (mkStream chunks (Some err)) →
  (partialMessages CompletionMessage.zero chunks).2 = true →
  live c ctx env request id completionID events
  = (Fail err, completionID,
     events ++ [Send (Partial id waiting);
                CreateChatCompletionStream (withStream request)]
       ++ (Send ∘ Partial id <$> (partialMessages CompletionMessage.zero chunks).1)).
Proof.
  intros Hopen Hcomplete. unfold live. rewrite call_run, Hopen; simpl.
  by rewrite Hcomplete.
Qed.

(** C5.  When the live call is reached (the lookup is skipped or finds
    nothing) and the stream ends with an error other than [io.EOF] after
    some chunks, [Call] returns that error; its events are the first status,
    the lookup if any, the waiting status, the one opening of the stream and
    one status per chunk: the cache store is not written and the stream is
    not opened again.  Conversely, whatever [Call] returns, a write to the
    cache store among its events means that the stream has ended with
    [io.EOF], and what is written are the chunks received, under the key of
    the request sent. *)
Theorem stream_error_fails_call :
  (∀ c ctx env messageRequest completionID msgs chunks (err : error),
     ValidAuth c = None →
     toMessages (withDefaultModel c messageRequest) = Some msgs →
     length msgs ≠ 0%nat →
     let request := wireRequest c (withDefaultModel c messageRequest) msgs in
     let key := cacheKey c (seeded c request) in
     let id := Sprint (int64 (completionID + 1)) in
     (lookupSkipped ctx messageRequest = true
      ∨ lookupResult env key = ([], false, None)) →
     openai_CreateChatCompletionStream env (withStream (seeded c request))
       = inr (mkStream chunks (Some err)) →
     (partialMessages CompletionMessage.zero chunks).2 = true →
     ∃ events,
       Call c ctx env messageRequest completionID
         = (Fail err, int64 (completionID + 1), events)
       ∧ events
         = [Send (Submitted id request)]
           ++ (if lookupSkipped ctx messageRequest then [] else [CacheGet key])
           ++ [Send (Partial id waiting);
               CreateChatCompletionStream (withStream (seeded c request))]
           ++ (Send ∘ Partial id <$> (partialMessages CompletionMessage.zero chunks).1)
       ∧ filter (λ event, isCacheStore event = true) events = []
       ∧ filter (λ event, isCreateChatCompletionStream event = true) events
         = [CreateChatCompletionStream (withStream (seeded c request))])
  ∧ (∀ c ctx env messageRequest completionID
       (outcome : Outcome CompletionMessage.t) completionID' events
       (key : string) (data : bytes),
       Call c ctx env messageRequest completionID = (outcome, completionID', events) →
       CacheStore key data ∈ events →
       ∃ msgs stream,
         toMessages (withDefaultModel c messageRequest) = Some msgs
         ∧ let sent := seeded c (wireRequest c (withDefaultModel c messageRequest) msgs) in
           openai_CreateChatCompletionStream env (withStream sent) = inr stream
           ∧ closing stream = None
           ∧ gzipJSON (received stream) = inr data
           ∧ key = cacheKey c sent).
Proof.
  split.
  - intros c ctx env messageRequest completionID msgs chunks err
      Hauth Hmsgs Hlen request key id Hmiss Hopen Hcomplete.
    eexists. split; [|split; [reflexivity|]].
    + rewrite Call_run, Hauth, Hmsgs. rewrite decide_False by done.
      unfold submit. fold request key id.
      destruct (lookupSkipped ctx messageRequest) eqn:Hskipped.
      * by rewrite (live_stream_error _ _ _ _ _ _ _ chunks err).
      * destruct Hmiss as [|Hmiss]; [done|]. rewrite Hmiss.
        by rewrite (live_stream_error _ _ _ _ _ _ _ chunks err).
    + destruct (lookupSkipped ctx messageRequest); simpl;
        rewrite ?filter_cons_False, ?filter_cons_True by (simpl; done);
        rewrite !filter_sends by done; done.
  - intros c ctx env messageRequest completionID outcome completionID' events
      key data. rewrite Call_run.
    destruct (ValidAuth c) as [err|].
    { intros [= <- <- <-] Hin. by apply elem_of_nil in Hin. }
    destruct (toMessages (withDefaultModel c messageRequest)) as [msgs|].
    2:{ intros [= <- <- <-] Hin. by apply elem_of_nil in Hin. }
    case_decide.
    { intros [= <- <- <-] Hin. by apply elem_of_nil in Hin. }
    unfold submit.
    set (sent := seeded c (wireRequest c (withDefaultModel c messageRequest) msgs)).
    assert (Hlive : ∀ before,
      CacheStore key data ∉ before →
      live c ctx env sent (Sprint (int64 (completionID + 1)))
        (int64 (completionID + 1)) before = (outcome, completionID', events) →
      CacheStore key data ∈ events →
      ∃ msgs0 stream,
        Some msgs = Some msgs0
        ∧ (let sent0 :=
             seeded c (wireRequest c (withDefaultModel c messageRequest) msgs0) in
           openai_CreateChatCompletionStream env (withStream sent0) = inr stream
           ∧ closing stream = None
           ∧ gzipJSON (received stream) = inr data
           ∧ key = cacheKey c sent0)).
    { intros before Hbefore Hrun Hin.
      destruct (live_CacheStore _ _ _ _ _ _ _ _ _ _ _ _ Hrun Hin)
        as [Hold|(stream & Hopen & Hclosing & _ & _ & Hgzip & Hkey)]; [done|].
      by exists msgs, stream. }
    assert (Hsubmitted : ∀ status, CacheStore key data ∉ [Send status]).
    { intros status Hin. apply list_elem_of_singleton in Hin. done. }
    assert (Hread : ∀ status other,
              CacheStore key data ∉ [Send status; CacheGet other]).
    { intros status other Hin.
      repeat (apply elem_of_cons in Hin as [Hin|Hin]; [done|]).
      by apply elem_of_nil in Hin. }
    destruct (lookupSkipped ctx messageRequest); [by apply Hlive|].
    destruct (lookupResult env (cacheKey c sent)) as [[response ok] [err|]].
    { destruct ok; intros [= <- <- <-] Hin; by apply Hread in Hin. }
    destruct ok; [|by apply Hlive].
    intros Hconclude Hin.
    apply conclude_events in Hconclude as (_ & tail & -> & Htail).
    apply elem_of_app in Hin as [Hin|Hin]; [by apply Hread in Hin|].
    rewrite Forall_forall in Htail. by apply Htail in Hin.
Qed.

End StreamErrorClaim.

(** A call on a stream that breaks after two chunks. *)
Lemma stream_error_fails_call_witness :
  @Call sampleCollaborators sampleClient (mkCtx false)
    (envWith (mkStream sumChunks (Some "unexpected EOF"))) (sumRequest None) 0
  = (Fail "unexpected EOF", 1,
     [Send (Submitted "1" sumWireRequest);
      CacheGet sumKey;
      Send (Partial "1" waiting);
      CreateChatCompletionStream (withStream sumWireRequest);
      Send (Partial "1" sumPartial1);
      Send (Partial "1" sumPartial2)]).
Proof.
  destruct (proj1 (@stream_error_fails_call sampleCollaborators) sampleClient
              (mkCtx false) (envWith (mkStream sumChunks (Some "unexpected EOF")))
              (sumRequest None) 0 [_; _] sumChunks "unexpected EOF"
              eq_refl eq_refl ltac:(by vm_compute) (or_intror eq_refl)
              eq_refl eq_refl)
    as (events & Hcall & Hevents & _).
  rewrite Hcall, Hevents. reflexivity.
Defined.

(** ** Successful calls *)

Section SuccessfulCalls.

Context `{Collaborators}.

Implicit Types (c : Client.t) (ctx : Ctx) (env : Env)
  (messageRequest : CompletionRequest.t) (request : ChatCompletionRequest.t)
  (msgs : list ChatCompletionMessage.t)
  (chunks : list ChatCompletionStreamResponse.t)
  (msg assembled result : CompletionMessage.t)
  (completionID : Z) (events : list Event).

Lemma conclude_Return (id : string) chunks (cached : bool) completionID events
    result completionID' events' :
  conclude id chunks cached completionID events = (Return result, completionID', events') →
  completionID' = completionID
  ∧ events' = events ++ [Send (Final id chunks result cached)]
  ∧ ∃ assembled,
      appendMessages CompletionMessage.zero chunks = Some assembled
      ∧ backfillIDs assembled = Some result.
Proof.
  unfold conclude.
  destruct (appendMessages CompletionMessage.zero chunks) as [assembled|]; [|done].
  destruct (backfillIDs assembled) as [result'|] eqn:Hids; [|done].
  intros [= <- <- <-]. repeat split. by exists assembled.
Qed.

Lemma live_Return c ctx env request (id : string) completionID events
    result completionID' events' :
  live c ctx env request id completionID events = (Return result, completionID', events') →
  ∃ chunks assembled,
    openai_CreateChatCompletionStream env (withStream request)
      = inr (mkStream chunks None)
    ∧ (partialMessages CompletionMessage.zero chunks).2 = true
    ∧ storeError ctx env (cacheKey c request) chunks = None
    ∧ appendMessages CompletionMessage.zero chunks = Some assembled
    ∧ backfillIDs assembled = Some result
    ∧ completionID' = completionID
    ∧ events'
      = events
        ++ [Send (Partial id waiting); CreateChatCompletionStream (withStream request)]
        ++ (Send ∘ Partial id <$> (partialMessages CompletionMessage.zero chunks).1)
        ++ storeEvents ctx (cacheKey c request) chunks
        ++ [Send (Final id chunks result false)].
Proof.
  unfold live. rewrite call_run; simpl.
  destruct (openai_CreateChatCompletionStream env (withStream request))
    as [err|[chunks closing]]; [done|]. simpl.
  destruct ((partialMessages CompletionMessage.zero chunks).2) eqn:Hcomplete; [|done].
  destruct closing as [err|]; [done|].
  destruct (storeError ctx env (cacheKey c request) chunks) as [err|] eqn:Hstore; [done|].
  intros Hconclude.
  apply conclude_Return in Hconclude as (-> & -> & assembled & Hassembled & Hids).
  exists chunks, assembled. repeat split; try done.
  rewrite <- app_assoc. simpl. by rewrite <- app_assoc.
Qed.

Lemma lookupResult_miss env (key : string) chunks :
  lookupResult env key = (chunks, false, None) → chunks = [].
Proof.
  unfold lookupResult.
  destruct (cache_Get env key) as [[cache []] [err|]]; try done.
  - by destruct (gunzipJSON cache).
  - by intros [= <-].
Qed.

(** A call that returns a message, taken apart. *)
Lemma Call_Return c ctx env messageRequest completionID result completionID' events :
  Call c ctx env messageRequest completionID = (Return result, completionID', events) →
  ∃ msgs chunks assembled (cached : bool),
    ValidAuth c = None
    ∧ toMessages (withDefaultModel c messageRequest) = Some msgs
    ∧ length msgs ≠ 0%nat
    ∧ completionID' = int64 (completionID + 1)
    ∧ appendMessages CompletionMessage.zero chunks = Some assembled
    ∧ backfillIDs assembled = Some result
    ∧ let request := wireRequest c (withDefaultModel c messageRequest) msgs in
      let key := cacheKey c (seeded c request) in
      let id := Sprint (int64 (completionID + 1)) in
      if cached then
        lookupSkipped ctx messageRequest = false
        ∧ lookupResult env key = (chunks, true, None)
        ∧ events = [Send (Submitted id request); CacheGet key;
                    Send (Final id chunks result true)]
      else
        (lookupSkipped ctx messageRequest = true
         ∨ lookupResult env key = ([], false, None))
        ∧ openai_CreateChatCompletionStream env (withStream (seeded c request))
          = inr (mkStream chunks None)
        ∧ (partialMessages CompletionMessage.zero chunks).2 = true
        ∧ storeError ctx env key chunks = None
        ∧ events
          = [Send (Submitted id request)]
            ++ (if lookupSkipped ctx messageRequest then [] else [CacheGet key])
            ++ [Send (Partial id waiting);
                CreateChatCompletionStream (withStream (seeded c request))]
            ++ (Send ∘ Partial id <$> (partialMessages CompletionMessage.zero chunks).1)
            ++ storeEvents ctx key chunks
            ++ [Send (Final id chunks result false)].
Proof.
  rewrite Call_run.
  destruct (ValidAuth c) as [err|] eqn:Hauth; [done|].
  destruct (toMessages (withDefaultModel c messageRequest)) as [msgs|] eqn:Hmsgs; [|done].
  case_decide as Hlen; [done|].
  unfold submit.
  destruct (lookupSkipped ctx messageRequest) eqn:Hskipped.
  - intros Hlive.
    apply live_Return in Hlive
      as (chunks & assembled & Hopen & Hcomplete & Hstore & Hassembled & Hids & -> & ->).
    exists msgs, chunks, assembled, false. repeat split; try done.
    by left.
  - destruct (lookupResult env _) as [[response ok] [err|]] eqn:Hlookup;
      [by destruct ok|].
    destruct ok.
    + intros Hconclude.
      apply conclude_Return in Hconclude as (-> & -> & assembled & Hassembled & Hids).
      exists msgs, response, assembled, true. by repeat split.
    + intros Hlive.
      apply live_Return in Hlive
        as (chunks & assembled & Hopen & Hcomplete & Hstore & Hassembled & Hids & -> & ->).
      exists msgs, chunks, assembled, false. repeat split; try done.
      right. by rewrite (lookupResult_miss _ _ _ Hlookup) in Hlookup.
Qed.

End SuccessfulCalls.

Section StatusProtocol.

Context `{Collaborators}.

Implicit Types (c : Client.t) (ctx : Ctx) (env : Env)
  (messageRequest : CompletionRequest.t) (request : ChatCompletionRequest.t)
  (msgs : list ChatCompletionMessage.t)
  (chunks responses : list ChatCompletionStreamResponse.t)
  (msg assembled result : CompletionMessage.t)
  (completionID : Z) (events : list Event).

(** The [i]-th partial message is the message assembled from the first
    [i+1] chunks. *)
Lemma partialMessages_lookup responses : ∀ msg (i : nat) (partial : CompletionMessage.t),
  (partialMessages msg responses).1 !! i = Some partial →
  appendMessages msg (take (S i) responses) = Some partial.
Proof.
  induction responses as [|response responses IH]; intros msg i partial; simpl; [done|].
  destruct (appendMessage msg response) as [msg'|] eqn:Hstep; simpl; [|done].
  specialize (IH msg').
  destruct (partialMessages msg' responses) as [partials complete]; simpl in *.
  destruct i as [|i]; simpl.
  - by intros [= <-].
  - apply IH.
Qed.

Lemma partialMessages_length responses : ∀ msg,
  (partialMessages msg responses).2 = true →
  length (partialMessages msg responses).1 = length responses.
Proof.
  induction responses as [|response responses IH]; intros msg; simpl; [done|].
  destruct (appendMessage msg response) as [msg'|]; simpl; [|done].
  specialize (IH msg').
  destruct (partialMessages msg' responses) as [partials complete]; simpl in *.
  intros Hcomplete. by rewrite IH.
Qed.

Lemma storeError_None ctx env (key : string) chunks :
  storeError ctx env key chunks = None →
  (IsNoCache ctx = true ∧ storeEvents ctx key chunks = [])
  ∨ (IsNoCache ctx = false
     ∧ ∃ buf, gzipJSON chunks = inr buf
              ∧ cache_Store env key buf = None
              ∧ storeEvents ctx key chunks = [CacheStore key buf]).
Proof.
  unfold storeError, storeEvents.
  destruct (IsNoCache ctx); [by left|].
  destruct (gzipJSON chunks) as [err|buf]; [done|].
  intros Hstore. right. split; [done|]. by exists buf.
Qed.

(** C4, as the orchestrator has it.  The events of a call that returns a
    message start with one Submitted status carrying the compiled request,
    before any read of the cache.  On a hit the read and one Final status
    with [Cached] set follow, and nothing else.  Otherwise follow the read
    (unless the lookup is skipped), the waiting status, the opening of the
    stream, one Partial status per chunk received, the [i]-th carrying the
    message assembled from the first [i] chunks, then the write of all the
    chunks received to the cache store under the key of the request, unless
    caching is disabled for the context, in which case nothing is written,
    and last one Final status with [Cached] unset.  The Final status
    carries the chunks and the message returned. *)
Theorem status_protocol c ctx env messageRequest completionID result completionID' events :
  Call c ctx env messageRequest completionID = (Return result, completionID', events) →
  ∃ msgs chunks (cached : bool),
    toMessages (withDefaultModel c messageRequest) = Some msgs
    ∧ let request := wireRequest c (withDefaultModel c messageRequest) msgs in
      let sent := seeded c request in
      let key := cacheKey c sent in
      let id := Sprint (int64 (completionID + 1)) in
      if cached then
        lookupResult env key = (chunks, true, None)
        ∧ events = [Send (Submitted id request); CacheGet key;
                    Send (Final id chunks result true)]
      else
        ∃ (partials : list CompletionMessage.t) (writes : list Event),
          openai_CreateChatCompletionStream env (withStream sent)
            = inr (mkStream chunks None)
          ∧ length partials = length chunks
          ∧ (∀ (i : nat) partial,
               partials !! i = Some partial →
               appendMessages CompletionMessage.zero (take (S i) chunks) = Some partial)
          ∧ ((IsNoCache ctx = true ∧ writes = [])
             ∨ (IsNoCache ctx = false
                ∧ ∃ buf, gzipJSON chunks = inr buf
                         ∧ cache_Store env key buf = None
                         ∧ writes = [CacheStore key buf]))
          ∧ events
            = [Send (Submitted id request)]
              ++ (if lookupSkipped ctx messageRequest then [] else [CacheGet key])
              ++ [Send (Partial id waiting); CreateChatCompletionStream (withStream sent)]
              ++ (Send ∘ Partial id <$> partials)
              ++ writes
              ++ [Send (Final id chunks result false)].
Proof.
  intros Hcall.
  apply Call_Return in Hcall
    as (msgs & chunks & assembled & cached & _ & Hmsgs & _ & _ & _ & _ & Hcourse).
  exists msgs, chunks, cached. split; [done|].
  destruct cached.
  - by destruct Hcourse as (_ & Hlookup & Hevents).
  - destruct Hcourse as (_ & Hopen & Hcomplete & Hstore & Hevents).
    exists (partialMessages CompletionMessage.zero chunks).1,
           (storeEvents ctx
              (cacheKey c (seeded c (wireRequest c (withDefaultModel c messageRequest) msgs)))
              chunks).
    split; [done|]. split; [by apply partialMessages_length|].
    split; [apply partialMessages_lookup|]. split; [|done].
    apply storeError_None in Hstore as [[Hoff ->]|(Hon & buf & Hgzip & Hwrite & ->)].
    + by left.
    + right. split; [done|]. by exists buf.
Qed.

End StatusProtocol.

(** A call that returns a message in a context for which caching is
    disabled: the lookup is skipped, the stream is read to its end, the
    Final status is sent with [Cached] unset, and the cache store is not
    written. *)
Lemma status_protocol_no_write :
  let events :=
    [Send (Submitted "1" sumWireRequest);
     Send (Partial "1" waiting);
     CreateChatCompletionStream (withStream sumWireRequest);
     Send (Partial "1" sumPartial1);
     Send (Partial "1" sumPartial2);
     Send (Final "1" sumChunks sumResult false)] in
  @Call sampleCollaborators sampleClient (mkCtx true)
    (envWith (mkStream sumChunks None)) (sumRequest None) 0
  = (Return sumResult, 1, events)
  ∧ ∀ (key : string) (data : bytes), CacheStore key data ∉ events.
Proof.
  split; [by vm_compute|].
  intros key data Hin.
  repeat (apply elem_of_cons in Hin as [Hin|Hin]; [done|]).
  by apply elem_of_nil in Hin.
Qed.

(** A call that misses the cache and reads two chunks. *)
Lemma status_protocol_witness :
  @Call sampleCollaborators sampleClient (mkCtx false)
    (envWith (mkStream sumChunks None)) (sumRequest None) 0
  = (Return sumResult, 1, sumEvents)
  ∧ ∃ msgs,
      @toMessages sampleCollaborators (withDefaultModel sampleClient (sumRequest None))
      = Some msgs.
Proof.
  assert (Hcall :
    @Call sampleCollaborators sampleClient (mkCtx false)
      (envWith (mkStream sumChunks None)) (sumRequest None) 0
    = (Return sumResult, 1, sumEvents)) by (by vm_compute).
  split; [exact Hcall|].
  destruct (@status_protocol sampleCollaborators _ _ _ _ _ _ _ _ Hcall)
    as (msgs & _ & _ & Hmsgs & _).
  by exists msgs.
Defined.

(** ** Ids for the tool calls that have none *)

Section Backfill.

Context `{Collaborators}.

Implicit Types (c : Client.t) (ctx : Ctx) (env : Env)
  (messageRequest : CompletionRequest.t)
  (part : ContentPart.t) (toolCall : CompletionToolCall.t)
  (chunks : list ChatCompletionStreamResponse.t)
  (assembled result : CompletionMessage.t)
  (completionID : Z) (events : list Event).

Lemma slice8_Some (s prefix : string) :
  slice8 s = Some prefix ↔ (8 ≤ String.length s)%nat ∧ prefix = String.substring 0 8 s.
Proof.
  unfold slice8. case_decide; split.
  - by intros [= <-].
  - by intros [_ ->].
  - done.
  - intros [Hlen _]. lia.
Qed.

Lemma backfillID_Some part part' :
  backfillID part = Some part' → part' = backfilled part.
Proof.
  unfold backfillID, backfilled.
  destruct (ContentPart.ToolCall part) as [toolCall|]; [|by intros [= <-]].
  case_decide; [|by intros [= <-]].
  destruct (slice8 _) as [prefix|] eqn:Hslice; simpl; [|done].
  apply slice8_Some in Hslice as [_ ->]. by intros [= <-].
Qed.

Lemma backfillIDs_Some assembled result :
  backfillIDs assembled = Some result →
  result = CompletionMessage.mk (CompletionMessage.Role assembled)
             (backfilled <$> CompletionMessage.Content assembled)
             (CompletionMessage.ToolCall assembled).
Proof.
  unfold backfillIDs.
  destruct (mapM backfillID (CompletionMessage.Content assembled)) as [content|] eqn:Hmap;
    simpl; [|done].
  intros [= <-]. f_equal.
  apply mapM_Some in Hmap.
  induction Hmap as [|part part' content content' Hpart _ IH]; [done|].
  by rewrite fmap_cons, <- IH, (backfillID_Some _ _ Hpart).
Qed.

Lemma backfillIDs_long assembled result :
  backfillIDs assembled = Some result →
  Forall (λ part, ∀ toolCall,
            ContentPart.ToolCall part = Some toolCall →
            CompletionToolCall.ID toolCall = "" →
            (8 ≤ String.length
                   (hash_ID
                      [CompletionFunctionCall.Name (CompletionToolCall.Function toolCall);
                       CompletionFunctionCall.Arguments
                         (CompletionToolCall.Function toolCall)]))%nat)
    (CompletionMessage.Content assembled).
Proof.
  unfold backfillIDs.
  destruct (mapM backfillID (CompletionMessage.Content assembled)) as [content|] eqn:Hmap;
    simpl; [|done].
  intros _. apply mapM_Some in Hmap.
  induction Hmap as [|part part' content content' Hpart _ IH]; constructor; [|done].
  intros toolCall Hcall Hid. unfold backfillID in Hpart.
  rewrite Hcall in Hpart. rewrite decide_True in Hpart by done.
  destruct (slice8 _) as [prefix|] eqn:Hslice; [|done].
  by apply slice8_Some in Hslice as [Hlen _].
Qed.

Lemma backfilled_ID part toolCall :
  ContentPart.ToolCall (backfilled part) = Some toolCall →
  CompletionToolCall.ID toolCall ≠ "".
Proof.
  unfold backfilled.
  destruct (ContentPart.ToolCall part) as [old|] eqn:Hold; [|by rewrite Hold].
  case_decide as Hid; simpl.
  - by intros [= <-].
  - rewrite Hold. by intros [= <-].
Qed.

(** C8.  The message a call returns, after a hit or after a live call, is
    the message assembled from the chunks with every part [backfilled]: a
    tool call whose id is empty has the id ["call_"] followed by the first 8
    characters of [hash.ID] of its name and its arguments, and every other
    part is as assembled.  The last event of the call is the Final status,
    which carries that same message; so no tool call of the message returned
    or of the Final status has an empty id.  Every hash so used has at least
    8 characters. *)
Theorem backfill_tool_call_ids c ctx env messageRequest completionID result
    completionID' events :
  Call c ctx env messageRequest completionID = (Return result, completionID', events) →
  ∃ chunks assembled (cached : bool),
    appendMessages CompletionMessage.zero chunks = Some assembled
    ∧ result = CompletionMessage.mk (CompletionMessage.Role assembled)
                 (backfilled <$> CompletionMessage.Content assembled)
                 (CompletionMessage.ToolCall assembled)
    ∧ last events
      = Some (Send (Final (Sprint (int64 (completionID + 1))) chunks result cached))
    ∧ Forall (λ part, ∀ toolCall,
                ContentPart.ToolCall part = Some toolCall →
                CompletionToolCall.ID toolCall ≠ "")
        (CompletionMessage.Content result)
    ∧ Forall (λ part, ∀ toolCall,
                ContentPart.ToolCall part = Some toolCall →
                CompletionToolCall.ID toolCall = "" →
                (8 ≤ String.length
                       (hash_ID
                          [CompletionFunctionCall.Name
                             (CompletionToolCall.Function toolCall);
                           CompletionFunctionCall.Arguments
                             (CompletionToolCall.Function toolCall)]))%nat)
        (CompletionMessage.Content assembled)
    ∧ (if cached then
         ∃ msgs,
           toMessages (withDefaultModel c messageRequest) = Some msgs
           ∧ lookupResult env
               (cacheKey c (seeded c (wireRequest c (withDefaultModel c messageRequest) msgs)))
             = (chunks, true, None)
       else
         ∃ msgs,
           toMessages (withDefaultModel c messageRequest) = Some msgs
           ∧ openai_CreateChatCompletionStream env
               (withStream (seeded c (wireRequest c (withDefaultModel c messageRequest) msgs)))
             = inr (mkStream chunks None)).
Proof.
  intros Hcall.
  apply Call_Return in Hcall
    as (msgs & chunks & assembled & cached & _ & Hmsgs & _ & _ & Hassembled & Hids & Hcourse).
  exists chunks, assembled, cached.
  apply backfillIDs_Some in Hids as Hresult.
  split; [done|]. split; [done|]. split; [|split; [|split]].
  - destruct cached.
    + destruct Hcourse as (_ & _ & ->). done.
    + destruct Hcourse as (_ & _ & _ & _ & ->).
      by rewrite !app_assoc, last_snoc.
  - rewrite Hresult; simpl. apply Forall_fmap, Forall_forall.
    intros part _ toolCall. apply backfilled_ID.
  - by eapply backfillIDs_long.
  - destruct cached.
    + destruct Hcourse as (_ & Hlookup & _). by exists msgs.
    + destruct Hcourse as (_ & Hopen & _). by exists msgs.
Qed.

End Backfill.

(** A live call whose second chunk is a tool
    call without an id. *)
Lemma backfill_tool_call_ids_witness :
  @Call sampleCollaborators sampleClient (mkCtx false)
    (envWith (mkStream sumChunks None)) (sumRequest None) 0
  = (Return sumResult, 1, sumEvents)
  ∧ Forall (λ part, ∀ toolCall,
              ContentPart.ToolCall part = Some toolCall →
              CompletionToolCall.ID toolCall ≠ "")
      (CompletionMessage.Content sumResult).
Proof.
  assert (Hcall :
    @Call sampleCollaborators sampleClient (mkCtx false)
      (envWith (mkStream sumChunks None)) (sumRequest None) 0
    = (Return sumResult, 1, sumEvents)) by (by vm_compute).
  split; [exact Hcall|].
  destruct (@backfill_tool_call_ids sampleCollaborators _ _ _ _ _ _ _ _ Hcall)
    as (chunks & assembled & cached & _ & _ & _ & Hids & _ & _).
  exact Hids.
Defined.

(** The replay of two cached chunks ends with the Final status, [Cached]
    set. *)
Lemma replay_sample :
  ∃ request result,
    @Call sampleCollaborators sampleClient (mkCtx false)
      (envCached (mkStream sumChunks None)) (sumRequest None) 0
    = (Return result, 1,
       [Send (Submitted "1" request); CacheGet sumKey;
        Send (Final "1" [textChunk "" "4"; textChunk "" "4"] result true)]).
Proof. eexists _, _. by vm_compute. Qed.

(** ** Caching switched off for one request *)

Section RequestCacheFlag.

Context `{Collaborators}.

Implicit Types (c : Client.t) (ctx : Ctx) (env : Env)
  (messageRequest : CompletionRequest.t)
  (msgs : list ChatCompletionMessage.t)
  (chunks : list ChatCompletionStreamResponse.t)
  (completionID : Z) (events : list Event).

(** C10.  With the cache flag of the request set to false and caching not
    disabled for the context, [Call] does not read the cache store, and
    once the stream has ended it writes the chunks received to it, under
    the key of the request sent: [fromCache] looks at both flags, [store]
    at the one of the context only.  The events are the first status, the
    waiting status, the opening of the stream, one status per chunk, the
    write, and then at most the last status; when the write fails, [Call]
    returns its error. *)
Theorem request_cache_off_still_stores c ctx env messageRequest completionID msgs chunks
    (buf : bytes) :
  ValidAuth c = None →
  toMessages (withDefaultModel c messageRequest) = Some msgs →
  length msgs ≠ 0%nat →
  CompletionRequest.Cache messageRequest = Some false →
  IsNoCache ctx = false →
  let request := wireRequest c (withDefaultModel c messageRequest) msgs in
  let sent := seeded c request in
  let key := cacheKey c sent in
  let id := Sprint (int64 (completionID + 1)) in
  openai_CreateChatCompletionStream env (withStream sent) = inr (mkStream chunks None) →
  (partialMessages CompletionMessage.zero chunks).2 = true →
  gzipJSON chunks = inr buf →
  ∃ (outcome : Outcome CompletionMessage.t) events tail,
    Call c ctx env messageRequest completionID
      = (outcome, int64 (completionID + 1), events)
    ∧ events
      = [Send (Submitted id request);
         Send (Partial id waiting);
         CreateChatCompletionStream (withStream sent)]
        ++ (Send ∘ Partial id <$> (partialMessages CompletionMessage.zero chunks).1)
        ++ [CacheStore key buf]
        ++ tail
    ∧ Forall (λ event, isSend event = true) tail
    ∧ filter (λ event, isCacheGet event = true) events = []
    ∧ filter (λ event, isCacheStore event = true) events = [CacheStore key buf]
    ∧ (∀ err : error, cache_Store env key buf = Some err → outcome = Fail err).
Proof.
  intros Hauth Hmsgs Hlen Hflag Hctx request sent key id Hopen Hcomplete Hgzip.
  assert (Hskipped : lookupSkipped ctx messageRequest = true).
  { unfold lookupSkipped. rewrite Hflag. apply orb_true_r. }
  assert (Hwrites : storeEvents ctx key chunks = [CacheStore key buf]).
  { unfold storeEvents. by rewrite Hctx, Hgzip. }
  assert (Herror : storeError ctx env key chunks = cache_Store env key buf).
  { unfold storeError. by rewrite Hctx, Hgzip. }
  assert (Hfilters : ∀ tail,
    Forall (λ event, isSend event = true) tail →
    filter (λ event, isCacheGet event = true)
      ([Send (Submitted id request); Send (Partial id waiting);
        CreateChatCompletionStream (withStream sent)]
       ++ (Send ∘ Partial id <$> (partialMessages CompletionMessage.zero chunks).1)
       ++ [CacheStore key buf] ++ tail) = []
    ∧ filter (λ event, isCacheStore event = true)
        ([Send (Submitted id request); Send (Partial id waiting);
          CreateChatCompletionStream (withStream sent)]
         ++ (Send ∘ Partial id <$> (partialMessages CompletionMessage.zero chunks).1)
         ++ [CacheStore key buf] ++ tail) = [CacheStore key buf]).
  { intros tail Htail.
    assert (Hget : filter (λ event, isCacheGet event = true) tail = [])
      by (by apply filter_only_sends).
    assert (Hput : filter (λ event, isCacheStore event = true) tail = [])
      by (by apply filter_only_sends).
    simpl. rewrite !filter_cons_False by (simpl; done).
    rewrite !filter_app, !filter_sends by done. simpl.
    rewrite filter_cons_False by (simpl; done).
    rewrite filter_cons_True by done.
    by rewrite Hget, Hput. }
  assert (Hcall : Call c ctx env messageRequest completionID
    = match cache_Store env key buf with
      | Some err =>
          (Fail err, int64 (completionID + 1),
           [Send (Submitted id request)]
           ++ [Send (Partial id waiting); CreateChatCompletionStream (withStream sent)]
           ++ (Send ∘ Partial id <$> (partialMessages CompletionMessage.zero chunks).1)
           ++ [CacheStore key buf])
      | None =>
          conclude id chunks false (int64 (completionID + 1))
            ([Send (Submitted id request)]
             ++ [Send (Partial id waiting); CreateChatCompletionStream (withStream sent)]
             ++ (Send ∘ Partial id <$> (partialMessages CompletionMessage.zero chunks).1)
             ++ [CacheStore key buf])
      end).
  { rewrite Call_run, Hauth, Hmsgs. rewrite decide_False by done.
    unfold submit. rewrite Hskipped. fold request sent key id.
    unfold live. rewrite call_run. fold key. rewrite Hopen; simpl.
    rewrite Hcomplete, Herror, Hwrites.
    by destruct (cache_Store env key buf). }
  destruct (cache_Store env key buf) as [err|] eqn:Hwrite.
  - exists (Fail err). eexists. exists []. split; [exact Hcall|].
    split; [by rewrite app_nil_r|]. split; [constructor|].
    destruct (Hfilters [] ltac:(constructor)) as [Hget Hput].
    rewrite app_nil_r in Hget, Hput.
    split; [done|]. split; [done|]. by intros ? [= <-].
  - destruct (conclude id chunks false (int64 (completionID + 1)) _)
      as [[outcome completionID'] events] eqn:Hconclude.
    apply conclude_events in Hconclude as (-> & tail & -> & Htail).
    exists outcome. eexists. exists tail. split; [exact Hcall|].
    split; [by rewrite <- !app_assoc|]. split; [done|].
    destruct (Hfilters tail Htail) as [Hget Hput].
    rewrite <- !app_assoc. simpl in *.
    split; [done|]. split; [done|]. done.
Qed.

End RequestCacheFlag.

(** The call for [sumRequest] with its cache flag
    set to false. *)
Lemma request_cache_off_still_stores_witness :
  ∃ outcome events,
    @Call sampleCollaborators sampleClient (mkCtx false)
      (envWith (mkStream sumChunks None)) (sumRequest (Some false)) 0
    = (outcome, 1, events)
    ∧ filter (λ event, isCacheGet event = true) events = []
    ∧ filter (λ event, isCacheStore event = true) events
      = [CacheStore sumKey [Byte.x1f; Byte.x1f]].
Proof.
  destruct (@request_cache_off_still_stores sampleCollaborators sampleClient
              (mkCtx false) (envWith (mkStream sumChunks None))
              (sumRequest (Some false)) 0 _ sumChunks [Byte.x1f; Byte.x1f]
              eq_refl eq_refl ltac:(by vm_compute) eq_refl eq_refl
              eq_refl eq_refl eq_refl)
    as (outcome & events & tail & Hcall & _ & _ & Hget & Hput & _).
  exists outcome, events. split; [exact Hcall|]. split; [exact Hget|exact Hput].
Defined.


(** * Further properties *)

(** ** The assembler: panics, roles and text *)

Section AssemblerEdges.

Implicit Types (content : list ContentPart.t) (tool : ToolCall.t)
  (msg : CompletionMessage.t) (response : ChatCompletionStreamResponse.t)
  (responses : list ChatCompletionStreamResponse.t).

Lemma append_assoc (a b c : string) : (a +:+ b) +:+ c = a +:+ b +:+ c.
Proof.
  induction a as [|x a IH]; [done|].
  change (String x ((a +:+ b) +:+ c) = String x (a +:+ b +:+ c)). by rewrite IH.
Qed.

Lemma append_nil_r (a : string) : a +:+ "" = a.
Proof.
  induction a as [|x a IH]; [done|].
  change (String x (a +:+ "") = String x a). by rewrite IH.
Qed.

Lemma appendToolCalls_None content (tools : list ToolCall.t) :
  nonNegative tools = false → appendToolCalls content tools = None.
Proof.
  revert content. induction tools as [|tool tools IH]; intros content Hneg; [done|].
  simpl in *. apply andb_false_iff in Hneg as [Hfirst|Hrest].
  - apply bool_decide_eq_false in Hfirst.
    assert (Hpanic : appendToolCall content tool = None)
      by (apply appendToolCall_None; lia).
    by rewrite Hpanic.
  - destruct (appendToolCall content tool) as [content'|]; simpl; [|done].
    by apply IH.
Qed.

Lemma appendMessage_None msg response :
  appendMessage msg response = None ↔ nonNegative (fragments response) = false.
Proof.
  split.
  - intros Hpanic. destruct (nonNegative (fragments response)) eqn:Hnn; [|done].
    destruct (appendMessage_total msg response Hnn) as [msg' Hsome]. congruence.
  - unfold appendMessage, fragments.
    destruct (ChatCompletionStreamResponse.Choices response) as [|choice ?]; [done|].
    intros Hneg. by rewrite (appendToolCalls_None _ _ Hneg).
Qed.

(** X1.  Assembling a stream panics exactly when one of its chunks holds a
    fragment with a negative index, whatever the message assembled so far;
    chunks without choices, without fragments or with indices from 0 on
    always assemble to a message. *)
Theorem assembly_panics_iff responses : ∀ msg,
  appendMessages msg responses = None
  ↔ Exists (λ response, nonNegative (fragments response) = false) responses.
Proof.
  induction responses as [|response responses IH]; intros msg.
  - split; [done|]. by intros Hnone%Exists_nil.
  - rewrite Exists_cons. cbn [appendMessages].
    destruct (appendMessage msg response) as [msg'|] eqn:Hstep; simpl.
    + rewrite IH. split; [by right|]. intros [Hneg|Hrest]; [|done].
      apply (appendMessage_None msg) in Hneg. congruence.
    + split; [|done]. intros _. left. by apply (appendMessage_None msg).
Qed.

Lemma override_empty (left : string) : override left "" = left.
Proof. done. Qed.

Lemma appendMessage_Role msg response msg' :
  appendMessage msg response = Some msg' →
  CompletionMessage.Role msg' = override (CompletionMessage.Role msg) (deltaRole response).
Proof.
  unfold appendMessage, deltaRole.
  destruct (ChatCompletionStreamResponse.Choices response) as [|choice ?].
  { by intros [= <-]. }
  destruct (appendToolCalls _ _) as [content|]; simpl; [|done].
  by intros [= <-].
Qed.

Lemma lastNonEmpty_cons (fallback role : string) (roles : list string) :
  lastNonEmpty fallback (role :: roles) = lastNonEmpty (override fallback role) roles.
Proof.
  unfold lastNonEmpty, override. rewrite filter_cons.
  destruct (decide (role = "")) as [->|Hrole].
  - by rewrite decide_False by (intros Hne; by apply Hne).
  - rewrite (decide_True (P := role ≠ "")) by done.
    destruct (filter _ roles) as [|other others] eqn:Hfilter; [done|].
    rewrite last_cons_cons.
    destruct (proj2 (last_is_Some (other :: others))) as [final Hfinal]; [done|].
    by rewrite Hfinal.
Qed.

(** X2.  The role of an assembled message is the last role a chunk has named,
    and the role it started with when no chunk names one. *)
Theorem assembled_role responses : ∀ msg msg',
  appendMessages msg responses = Some msg' →
  CompletionMessage.Role msg'
  = lastNonEmpty (CompletionMessage.Role msg) (deltaRole <$> responses).
Proof.
  induction responses as [|response responses IH]; intros msg msg'.
  - by intros [= <-].
  - simpl. destruct (appendMessage msg response) as [msg1|] eqn:Hstep; simpl; [|done].
    intros Hfold. rewrite (IH _ _ Hfold), lastNonEmpty_cons.
    by rewrite (appendMessage_Role _ _ _ Hstep).
Qed.

Lemma appendText_textContent (text more : string) :
  more ≠ "" → appendText (textContent text) more = textContent (text +:+ more).
Proof.
  intros Hmore. unfold textContent.
  destruct (decide (text = "")) as [->|Htext]; simpl.
  - by rewrite decide_False.
  - by rewrite decide_False by (by apply append_not_empty).
Qed.

Lemma appendMessage_text (role text : string) (toolCall : option CompletionToolCall.t)
    response :
  fragments response = [] →
  appendMessage (CompletionMessage.mk role (textContent text) toolCall) response
  = Some (CompletionMessage.mk (override role (deltaRole response))
            (textContent (text +:+ deltaText response)) toolCall).
Proof.
  unfold appendMessage, fragments, deltaRole, deltaText.
  destruct (ChatCompletionStreamResponse.Choices response) as [|choice ?]; simpl.
  { intros _. by rewrite append_nil_r. }
  intros ->. simpl. case_decide as Hempty.
  - by rewrite Hempty, append_nil_r.
  - by rewrite appendText_textContent.
Qed.

(** X3.  A stream without tool-call fragments assembles to the concatenation of
    its texts, in one text part, or to no part at all when every text is
    empty; the role is the last one named. *)
Theorem text_stream_concatenates responses :
  Forall (λ response, fragments response = []) responses →
  appendMessages CompletionMessage.zero responses
  = Some (CompletionMessage.mk
            (lastNonEmpty "" (deltaRole <$> responses))
            (textContent (String.concat "" (deltaText <$> responses)))
            None).
Proof.
  intros Htexts.
  assert (Hgeneral : ∀ role text,
    appendMessages (CompletionMessage.mk role (textContent text) None) responses
    = Some (CompletionMessage.mk
              (lastNonEmpty role (deltaRole <$> responses))
              (textContent (text +:+ String.concat "" (deltaText <$> responses)))
              None)).
  { induction Htexts as [|response responses Hnone _ IH]; intros role text.
    - simpl. by rewrite append_nil_r.
    - cbn [appendMessages]. rewrite appendMessage_text by done.
      cbn [mbind option_bind].
      rewrite IH, !fmap_cons, lastNonEmpty_cons. do 3 f_equal.
      cbn [String.concat].
      destruct (deltaText <$> responses) as [|next texts] eqn:Hrest.
      + by rewrite append_nil_r.
      + by rewrite append_assoc. }
  exact (Hgeneral "" "").
Qed.

End AssemblerEdges.

(** A stream of three text chunks, the second one empty. *)
Lemma text_stream_concatenates_witness :
  Forall (λ response, fragments response = [])
    [textChunk "assistant" "2+2"; textChunk "" ""; textChunk "" " is 4"]
  ∧ appendMessages CompletionMessage.zero
      [textChunk "assistant" "2+2"; textChunk "" ""; textChunk "" " is 4"]
    = Some (CompletionMessage.mk "assistant" [ContentPart.mk "2+2 is 4" None] None).
Proof.
  assert (Htexts : Forall (λ response, fragments response = [])
            [textChunk "assistant" "2+2"; textChunk "" ""; textChunk "" " is 4"])
    by (by repeat constructor).
  split; [exact Htexts|].
  exact (text_stream_concatenates _ Htexts).
Defined.

(** The role of a stream that names two roles. *)
Lemma assembled_role_witness :
  appendMessages CompletionMessage.zero
    [textChunk "assistant" "a"; textChunk "" "b"; textChunk "tool" ""]
  = Some (CompletionMessage.mk "tool" [ContentPart.mk "ab" None] None)
  ∧ CompletionMessage.Role (CompletionMessage.mk "tool" [ContentPart.mk "ab" None] None)
    = lastNonEmpty "" ["assistant"; ""; "tool"].
Proof.
  split; [reflexivity|].
  exact (assembled_role
           [textChunk "assistant" "a"; textChunk "" "b"; textChunk "tool" ""]
           CompletionMessage.zero _ eq_refl).
Defined.

(** ** The assembler: fragments of one tool call *)

Section Fragments.

Implicit Types (content : list ContentPart.t) (tool : ToolCall.t)
  (part : ContentPart.t) (call : CompletionToolCall.t)
  (msg : CompletionMessage.t) (response : ChatCompletionStreamResponse.t).

Lemma concat_empty_cons (s : string) (strings : list string) :
  String.concat "" (s :: strings) = s +:+ String.concat "" strings.
Proof. destruct strings as [|next strings]; [by rewrite append_nil_r|done]. Qed.

(** A fragment for a position past the end. *)
Lemma appendToolCall_fresh content tool :
  Z.of_nat (length content) ≤ targetIndex tool →
  appendToolCall content tool
  = Some (content
          ++ placeholders (length content) (Z.to_nat (targetIndex tool) - length content)
          ++ [populate (placeholder (Z.to_nat (targetIndex tool))) tool]).
Proof.
  intros Hlen. rewrite appendToolCall_eq; simpl.
  set (idx := Z.to_nat (targetIndex tool)).
  replace (Z.to_nat (targetIndex tool + 1 - Z.of_nat (length content)))
    with (S (idx - length content)) by lia.
  rewrite placeholders_snoc, !app_assoc.
  replace (length content + (idx - length content))%nat with idx by lia.
  set (kept := content ++ placeholders (length content) (idx - length content)).
  assert (Hpos : length kept = idx).
  { unfold kept. rewrite length_app, length_placeholders. lia. }
  assert (Hidx : index (kept ++ [placeholder idx]) (targetIndex tool)
                 = Some (placeholder idx)).
  { apply index_Some. split; [lia|]. fold idx.
    rewrite lookup_app_r by lia. rewrite Hpos.
    by replace (idx - idx)%nat with 0%nat by lia. }
  rewrite Hidx; simpl. f_equal. fold idx.
  replace idx with (length kept + 0)%nat at 1 by lia.
  by rewrite insert_app_r.
Qed.

Lemma populate_toolPart call tool (i : nat) :
  targetIndex tool = Z.of_nat i →
  CompletionToolCall.Index call = Some (Z.of_nat i) →
  populate (toolPart call) tool
  = toolPart
      (CompletionToolCall.mk (Some (Z.of_nat i))
         (override (CompletionToolCall.ID call) (ToolCall.ID tool))
         (CompletionFunctionCall.mk
            (CompletionFunctionCall.Name (CompletionToolCall.Function call)
               +:+ FunctionCall.Name (ToolCall.Function tool))
            (CompletionFunctionCall.Arguments (CompletionToolCall.Function call)
               +:+ FunctionCall.Arguments (ToolCall.Function tool)))).
Proof.
  intros Htarget Hindex. unfold populate, toolPart, targetIndex in *; simpl.
  destruct (ToolCall.Index tool) as [j|]; simpl in *; [by subst j|by rewrite Hindex].
Qed.

Lemma appendMessage_fragment (pre : list ContentPart.t) call tool :
  targetIndex tool = Z.of_nat (length pre) →
  CompletionToolCall.Index call = Some (Z.of_nat (length pre)) →
  appendMessage (CompletionMessage.mk "" (pre ++ [toolPart call]) None)
    (fragmentChunk tool)
  = Some (CompletionMessage.mk ""
            (pre ++ [populate (toolPart call) tool]) None).
Proof.
  intros Htarget Hindex. unfold appendMessage, fragmentChunk; simpl.
  rewrite (appendToolCall_existing _ _ (length pre) (toolPart call) Htarget)
    by (by rewrite lookup_app_r, Nat.sub_diag by lia).
  simpl. do 3 f_equal.
  replace (length pre) with (length pre + 0)%nat at 1 by lia.
  by rewrite insert_app_r.
Qed.

(** X4.  The fragments of one tool call, one per chunk and all for the same
    index: the assembled message holds, after a placeholder for every
    position before that index, one tool call whose name and arguments are
    the concatenations of those of the fragments, in their order, and whose
    id is the last id a fragment has supplied. *)
Theorem fragments_accumulate (i : nat) (first : ToolCall.t) (later : list ToolCall.t) :
  Forall (λ tool, targetIndex tool = Z.of_nat i) (first :: later) →
  appendMessages CompletionMessage.zero (fragmentChunk <$> first :: later)
  = Some (CompletionMessage.mk ""
            (placeholders 0 i
             ++ [toolPart
                   (CompletionToolCall.mk (Some (Z.of_nat i))
                      (lastNonEmpty "" (ToolCall.ID <$> first :: later))
                      (CompletionFunctionCall.mk
                         (String.concat ""
                            (FunctionCall.Name ∘ ToolCall.Function <$> first :: later))
                         (String.concat ""
                            (FunctionCall.Arguments ∘ ToolCall.Function
                               <$> first :: later))))])
            None).
Proof.
  intros Hall. apply Forall_cons_1 in Hall as [Hfirst Hlater].
  assert (Hrest : ∀ (pre : list ContentPart.t) call,
    length pre = i →
    CompletionToolCall.Index call = Some (Z.of_nat i) →
    appendMessages (CompletionMessage.mk "" (pre ++ [toolPart call]) None)
      (fragmentChunk <$> later)
    = Some (CompletionMessage.mk ""
              (pre ++ [toolPart
                 (CompletionToolCall.mk (Some (Z.of_nat i))
                    (lastNonEmpty (CompletionToolCall.ID call) (ToolCall.ID <$> later))
                    (CompletionFunctionCall.mk
                       (CompletionFunctionCall.Name (CompletionToolCall.Function call)
                          +:+ String.concat ""
                                (FunctionCall.Name ∘ ToolCall.Function <$> later))
                       (CompletionFunctionCall.Arguments (CompletionToolCall.Function call)
                          +:+ String.concat ""
                                (FunctionCall.Arguments ∘ ToolCall.Function <$> later))))])
              None)).
  { clear Hfirst. induction Hlater as [|tool later Htool _ IH]; intros pre call Hpre Hindex.
    - simpl. rewrite !append_nil_r. unfold lastNonEmpty. simpl.
      destruct call as [? ? []]. simpl in *. by rewrite Hindex.
    - rewrite fmap_cons. cbn [appendMessages].
      rewrite appendMessage_fragment by (by rewrite Hpre).
      cbn [mbind option_bind].
      rewrite (populate_toolPart _ _ i) by done.
      rewrite IH by done.
      cbn [CompletionToolCall.ID CompletionToolCall.Function
           CompletionFunctionCall.Name CompletionFunctionCall.Arguments].
      rewrite !fmap_cons, lastNonEmpty_cons, !concat_empty_cons.
      cbn [compose]. by rewrite !append_assoc. }
  rewrite fmap_cons. cbn [appendMessages].
  assert (Hstart : appendMessage CompletionMessage.zero (fragmentChunk first)
    = Some (CompletionMessage.mk ""
              (placeholders 0 i ++ [populate (placeholder i) first]) None)).
  { unfold appendMessage, fragmentChunk; simpl.
    rewrite appendToolCall_fresh by (simpl; lia). simpl.
    by rewrite Hfirst, Nat2Z.id, Nat.sub_0_r. }
  rewrite Hstart. cbn [mbind option_bind].
  rewrite populate_placeholder.
  change (ContentPart.mk "" (Some ?call)) with (toolPart call).
  rewrite Hrest; [|by rewrite length_placeholders|].
  - cbn [CompletionToolCall.ID CompletionToolCall.Function
         CompletionFunctionCall.Name CompletionFunctionCall.Arguments].
    rewrite !fmap_cons, lastNonEmpty_cons, !concat_empty_cons.
    assert (Hid : override "" (ToolCall.ID first) = ToolCall.ID first).
    { unfold override. case_decide as Hempty; by rewrite ?Hempty. }
    by rewrite Hid.
  - simpl. unfold targetIndex in Hfirst. f_equal.
    destruct (ToolCall.Index first) as [j|]; simpl in *; [done|lia].
Qed.

End Fragments.

(** Three fragments of the tool call at index 1. *)
Lemma fragments_accumulate_witness :
  Forall (λ tool, targetIndex tool = Z.of_nat 1)
    [ ToolCall.mk (Some 1) "call_b" ToolTypeFunction (FunctionCall.mk "read" "");
      ToolCall.mk (Some 1) "" ToolTypeFunction (FunctionCall.mk "" "{f:");
      ToolCall.mk (Some 1) "" ToolTypeFunction (FunctionCall.mk "" "1}") ]
  ∧ appendMessages CompletionMessage.zero
      (fragmentChunk <$>
        [ ToolCall.mk (Some 1) "call_b" ToolTypeFunction (FunctionCall.mk "read" "");
          ToolCall.mk (Some 1) "" ToolTypeFunction (FunctionCall.mk "" "{f:");
          ToolCall.mk (Some 1) "" ToolTypeFunction (FunctionCall.mk "" "1}") ])
    = Some (CompletionMessage.mk ""
              [ placeholder 0;
                toolPart (CompletionToolCall.mk (Some 1) "call_b"
                            (CompletionFunctionCall.mk "read" "{f:1}")) ]
              None).
Proof.
  assert (Hall : Forall (λ tool, targetIndex tool = Z.of_nat 1)
    [ ToolCall.mk (Some 1) "call_b" ToolTypeFunction (FunctionCall.mk "read" "");
      ToolCall.mk (Some 1) "" ToolTypeFunction (FunctionCall.mk "" "{f:");
      ToolCall.mk (Some 1) "" ToolTypeFunction (FunctionCall.mk "" "1}") ])
    by (by repeat constructor).
  split; [exact Hall|].
  exact (fragments_accumulate 1 _ _ Hall).
Defined.

(** ** The assembler: nothing is lost *)

Section Continuation.

Implicit Types (content : list ContentPart.t) (tool : ToolCall.t)
  (part : ContentPart.t) (call : CompletionToolCall.t)
  (msg : CompletionMessage.t) (response : ChatCompletionStreamResponse.t)
  (responses : list ChatCompletionStreamResponse.t).

Lemma continues_refl part : continues part part.
Proof.
  split; [exists ""; by rewrite append_nil_r|].
  intros call Hcall. exists call, "", "". by rewrite !append_nil_r.
Qed.

Lemma continues_trans part1 part2 part3 :
  continues part1 part2 → continues part2 part3 → continues part1 part3.
Proof.
  intros [[more12 Htext12] Hcall12] [[more23 Htext23] Hcall23]. split.
  - exists (more12 +:+ more23). by rewrite Htext23, Htext12, append_assoc.
  - intros call1 Hcall1.
    destruct (Hcall12 call1 Hcall1) as (call2 & name12 & args12 & Hcall2 & Hname12 & Hargs12).
    destruct (Hcall23 call2 Hcall2) as (call3 & name23 & args23 & Hcall3 & Hname23 & Hargs23).
    exists call3, (name12 +:+ name23), (args12 +:+ args23).
    by rewrite Hname23, Hname12, Hargs23, Hargs12, !append_assoc.
Qed.

Lemma populate_continues part tool : continues part (populate part tool).
Proof.
  split; [exists ""; by rewrite append_nil_r|].
  intros call Hcall. unfold populate. rewrite Hcall; simpl. by eexists _, _, _.
Qed.

Lemma appendToolCall_continues content tool content' (i : nat) part :
  appendToolCall content tool = Some content' →
  content !! i = Some part →
  ∃ part', content' !! i = Some part' ∧ continues part part'.
Proof.
  rewrite appendToolCall_eq; simpl.
  destruct (index _ _) as [target|] eqn:Hidx; simpl; [|done].
  intros [= <-] Hpart.
  assert (Hlen : (i < length content)%nat) by (by eapply lookup_lt_Some).
  apply index_Some in Hidx as [Hge Hidx].
  destruct (decide (i = Z.to_nat (targetIndex tool))) as [->|Hne].
  - rewrite lookup_app_l in Hidx by done. rewrite Hpart in Hidx.
    injection Hidx as <-. exists (populate part tool). split.
    + apply list_lookup_insert_eq. rewrite length_app. lia.
    + apply populate_continues.
  - exists part. split; [|apply continues_refl].
    rewrite list_lookup_insert_ne by done. by rewrite lookup_app_l.
Qed.

Lemma appendToolCall_length content tool content' :
  appendToolCall content tool = Some content' → (length content ≤ length content')%nat.
Proof.
  rewrite appendToolCall_eq; simpl.
  destruct (index _ _) as [target|]; simpl; [|done].
  intros [= <-]. rewrite length_insert, length_app. lia.
Qed.

Lemma appendToolCalls_continues (tools : list ToolCall.t) : ∀ content content',
  appendToolCalls content tools = Some content' →
  (length content ≤ length content')%nat
  ∧ ∀ (i : nat) part, content !! i = Some part →
      ∃ part', content' !! i = Some part' ∧ continues part part'.
Proof.
  induction tools as [|tool tools IH]; intros content content'; simpl.
  - intros [= <-]. split; [done|]. intros i part Hpart. exists part.
    split; [done|apply continues_refl].
  - destruct (appendToolCall content tool) as [content1|] eqn:Hone; simpl; [|done].
    intros Hrest. destruct (IH _ _ Hrest) as [Hlen Hparts]. split.
    + apply appendToolCall_length in Hone. lia.
    + intros i part Hpart.
      destruct (appendToolCall_continues _ _ _ _ _ Hone Hpart) as (part1 & Hpart1 & H01).
      destruct (Hparts _ _ Hpart1) as (part' & Hpart' & H1).
      exists part'. split; [done|]. by eapply continues_trans.
Qed.

Lemma appendText_continues content (text : string) :
  (length content ≤ length (appendText content text))%nat
  ∧ ∀ (i : nat) part, content !! i = Some part →
      ∃ part', appendText content text !! i = Some part' ∧ continues part part'.
Proof.
  induction content as [|head content [IHlen IH]]; simpl.
  - split; [lia|]. by intros i part.
  - destruct (ContentPart.ToolCall head) as [call|] eqn:Hcall; simpl.
    + split; [lia|]. intros [|i] part; simpl.
      * intros [= <-]. exists head. split; [done|apply continues_refl].
      * apply IH.
    + split; [lia|]. intros [|i] part; simpl.
      * intros [= <-]. eexists. split; [done|]. split; [by eexists|].
        intros call. by rewrite Hcall.
      * intros Hpart. exists part. split; [done|apply continues_refl].
Qed.

Lemma appendMessage_continues msg response msg' :
  appendMessage msg response = Some msg' →
  (length (CompletionMessage.Content msg) ≤ length (CompletionMessage.Content msg'))%nat
  ∧ ∀ (i : nat) part, CompletionMessage.Content msg !! i = Some part →
      ∃ part', CompletionMessage.Content msg' !! i = Some part' ∧ continues part part'.
Proof.
  unfold appendMessage.
  destruct (ChatCompletionStreamResponse.Choices response) as [|choice ?].
  { intros [= <-]. split; [done|]. intros i part Hpart. exists part.
    split; [done|apply continues_refl]. }
  destruct (appendToolCalls _ _) as [content|] eqn:Htools; simpl; [|done].
  intros [= <-]; simpl.
  destruct (appendToolCalls_continues _ _ _ Htools) as [Hlen Hparts].
  case_decide; [done|].
  destruct (appendText_continues content
              (ChatCompletionStreamChoiceDelta.Content
                 (ChatCompletionStreamChoice.Delta choice))) as [Hlen' Hparts'].
  split; [lia|]. intros i part Hpart.
  destruct (Hparts _ _ Hpart) as (part1 & Hpart1 & H01).
  destruct (Hparts' _ _ Hpart1) as (part' & Hpart' & H1).
  exists part'. split; [done|]. by eapply continues_trans.
Qed.

(** X5.  Assembling never loses anything: after any chunks, every part of the
    message is still at its position, its text and, for a tool call, its
    name and its arguments begin with what they were, and the tool call
    is still a tool call. *)
Theorem assembling_continues responses : ∀ msg msg',
  appendMessages msg responses = Some msg' →
  (length (CompletionMessage.Content msg) ≤ length (CompletionMessage.Content msg'))%nat
  ∧ ∀ (i : nat) part, CompletionMessage.Content msg !! i = Some part →
      ∃ part', CompletionMessage.Content msg' !! i = Some part' ∧ continues part part'.
Proof.
  induction responses as [|response responses IH]; intros msg msg'; simpl.
  - intros [= <-]. split; [done|]. intros i part Hpart. exists part.
    split; [done|apply continues_refl].
  - destruct (appendMessage msg response) as [msg1|] eqn:Hstep; simpl; [|done].
    intros Hrest.
    destruct (appendMessage_continues _ _ _ Hstep) as [Hlen1 Hparts1].
    destruct (IH _ _ Hrest) as [Hlen Hparts]. split; [lia|].
    intros i part Hpart.
    destruct (Hparts1 _ _ Hpart) as (part1 & Hpart1 & H01).
    destruct (Hparts _ _ Hpart1) as (part' & Hpart' & H1).
    exists part'. split; [done|]. by eapply continues_trans.
Qed.

End Continuation.

(** The message assembled from the first of three chunks and the one
    assembled from all three. *)
Lemma assembling_continues_witness :
  appendMessages
    (CompletionMessage.mk "assistant" [ContentPart.mk "Let me look." None] None)
    [toolChunk [lsFragment]; textChunk "" " Done."]
  = Some (CompletionMessage.mk "assistant"
            [ContentPart.mk "Let me look."
               (Some (CompletionToolCall.mk (Some 0) "call_a"
                        (CompletionFunctionCall.mk "ls" "{}")));
             ContentPart.mk " Done." None]
            None)
  ∧ (length [ContentPart.mk "Let me look." None] ≤ 2)%nat.
Proof.
  assert (Hrun : appendMessages
    (CompletionMessage.mk "assistant" [ContentPart.mk "Let me look." None] None)
    [toolChunk [lsFragment]; textChunk "" " Done."]
    = Some (CompletionMessage.mk "assistant"
              [ContentPart.mk "Let me look."
                 (Some (CompletionToolCall.mk (Some 0) "call_a"
                          (CompletionFunctionCall.mk "ls" "{}")));
               ContentPart.mk " Done." None]
              None)) by reflexivity.
  split; [exact Hrun|].
  exact (proj1 (assembling_continues _ _ _ Hrun)).
Defined.

(** ** The compiler: one message *)

Section CompiledMessage.

Context `{Collaborators}.

Implicit Types (message : CompletionMessage.t) (chatMessage : ChatCompletionMessage.t)
  (content : list ContentPart.t) (call : CompletionToolCall.t).

Lemma foldl_contentStep content : ∀ chatMessage,
  foldl contentStep chatMessage content
  = ChatCompletionMessage.mk
      (ChatCompletionMessage.Role chatMessage)
      (ChatCompletionMessage.Content chatMessage)
      (ChatCompletionMessage.MultiContent chatMessage
       ++ (ChatMessagePart.mk ChatMessagePartTypeText
             <$> filter (λ text, text ≠ "") (ContentPart.Text <$> content)))
      (ChatCompletionMessage.Name chatMessage)
      (ChatCompletionMessage.ToolCalls chatMessage
       ++ (toToolCall <$> omap ContentPart.ToolCall content))
      (ChatCompletionMessage.ToolCallID chatMessage).
Proof.
  induction content as [|part content IH]; intros chatMessage.
  - simpl. rewrite !app_nil_r. by destruct chatMessage.
  - cbn [foldl]. rewrite IH. unfold contentStep at 1 2 3 4 5 6.
    cbn [ChatCompletionMessage.Role ChatCompletionMessage.Content
         ChatCompletionMessage.MultiContent ChatCompletionMessage.Name
         ChatCompletionMessage.ToolCalls ChatCompletionMessage.ToolCallID].
    rewrite fmap_cons, filter_cons. cbn [omap list_omap].
    destruct (ContentPart.ToolCall part) as [call|]; case_decide;
      by rewrite ?fmap_cons, <- ?app_assoc.
Qed.

(** [toChatMessage] without its loop. *)
Lemma toChatMessage_closed message :
  toChatMessage message
  = match textParts message with
    | [text] =>
        if decide (text = "." ∨ text = "{}") then None
        else Some (ChatCompletionMessage.mk (CompletionMessage.Role message)
                     (scalarContent text) [] (answeredName message)
                     (wireToolCalls message) (answeredID message))
    | texts =>
        Some (ChatCompletionMessage.mk (CompletionMessage.Role message) ""
                (ChatMessagePart.mk ChatMessagePartTypeText <$> texts)
                (answeredName message) (wireToolCalls message) (answeredID message))
    end.
Proof.
  unfold toChatMessage, textParts, wireToolCalls, answeredName, answeredID.
  rewrite foldl_contentStep.
  cbn [ChatCompletionMessage.MultiContent].
  assert (Hstart : ∀ l : list ChatMessagePart.t,
    ChatCompletionMessage.MultiContent
      match CompletionMessage.ToolCall message with
      | Some call =>
          ChatCompletionMessage.mk (CompletionMessage.Role message) "" []
            (CompletionFunctionCall.Name (CompletionToolCall.Function call)) []
            (CompletionToolCall.ID call)
      | None => ChatCompletionMessage.mk (CompletionMessage.Role message) "" [] "" [] ""
      end ++ l = l) by (intros l; by destruct (CompletionMessage.ToolCall message)).
  rewrite Hstart.
  destruct (filter _ _) as [|text [|second texts]]; simpl.
  - by destruct (CompletionMessage.ToolCall message).
  - case_decide; [done|]. unfold scalarContent.
    destruct (system_IsDefaultPrompt text) as [prompt []];
      by destruct (CompletionMessage.ToolCall message).
  - by destruct (CompletionMessage.ToolCall message).
Qed.

(** X6.  A message is left out of the compiled list only for a lone ["."] or
    ["{}"].  Every other message is compiled to one wire message with the
    same role, all the tool calls of its parts in their order and, when it
    answers a tool call, the id and the name of that call; when it has no
    text or several texts, its scalar content is empty and the texts are
    the multi-part array, in their order. *)
Theorem message_compiled message :
  (toChatMessage message = None
   ↔ textParts message = ["."] ∨ textParts message = ["{}"])
  ∧ (∀ chatMessage,
       toChatMessage message = Some chatMessage →
       ChatCompletionMessage.Role chatMessage = CompletionMessage.Role message
       ∧ ChatCompletionMessage.ToolCalls chatMessage = wireToolCalls message
       ∧ ChatCompletionMessage.Name chatMessage = answeredName message
       ∧ ChatCompletionMessage.ToolCallID chatMessage = answeredID message
       ∧ (length (textParts message) ≠ 1%nat →
          ChatCompletionMessage.Content chatMessage = ""
          ∧ ChatCompletionMessage.MultiContent chatMessage
            = ChatMessagePart.mk ChatMessagePartTypeText <$> textParts message)).
Proof.
  rewrite toChatMessage_closed.
  destruct (textParts message) as [|text [|second texts]]; simpl.
  - split; [split; [done|by intros [|]]|]. by intros chatMessage [= <-].
  - case_decide as Hsentinel.
    + split; [|done]. split; [|done]. intros _. by destruct Hsentinel as [->| ->]; [left|right].
    + split.
      * split; [done|]. intros [[= ->]|[= ->]]; destruct Hsentinel; [by left|by right].
      * by intros chatMessage [= <-].
  - split; [split; [done|by intros [|]]|]. by intros chatMessage [= <-].
Qed.

End CompiledMessage.

(** A message with two tool calls and two texts: nothing is left out. *)
Lemma message_compiled_witness :
  @toChatMessage sampleCollaborators mixedMessage = Some mixedChatMessage
  ∧ ChatCompletionMessage.ToolCalls mixedChatMessage = wireToolCalls mixedMessage.
Proof.
  assert (Hcompiled :
    @toChatMessage sampleCollaborators mixedMessage = Some mixedChatMessage)
    by reflexivity.
  split; [exact Hcompiled|].
  exact (proj1 (proj2 (proj2 (@message_compiled sampleCollaborators mixedMessage)
                         mixedChatMessage Hcompiled))).
Defined.

(** ** From a message to the wire and back *)

Section RoundTrip.

Context `{Collaborators}.

Implicit Types (content : list ContentPart.t) (call : CompletionToolCall.t)
  (calls : list CompletionToolCall.t).

Lemma populate_placeholder_toToolCall (position : nat) call :
  CompletionToolCall.Index call = Some (Z.of_nat position) →
  populate (placeholder position) (toToolCall call) = toolPart call.
Proof.
  intros Hindex. rewrite populate_placeholder. unfold toToolCall, toolPart; simpl.
  rewrite Hindex; simpl. destruct call as [? ? []]. simpl in *. by rewrite Hindex.
Qed.

(** The wire tool calls of a message, assembled again, are its tool calls. *)
Lemma appendToolCalls_toToolCall calls : ∀ content,
  indexedFrom (length content) calls = true →
  appendToolCalls content (toToolCall <$> calls) = Some (content ++ (toolPart <$> calls)).
Proof.
  induction calls as [|call calls IH]; intros content Hindexed.
  - simpl. by rewrite app_nil_r.
  - simpl in Hindexed. apply andb_true_iff in Hindexed as [Hcall Hcalls].
    apply bool_decide_eq_true in Hcall.
    rewrite fmap_cons. cbn [appendToolCalls].
    assert (Htarget : targetIndex (toToolCall call) = Z.of_nat (length content)).
    { unfold targetIndex, toToolCall; simpl. by rewrite Hcall. }
    rewrite appendToolCall_fresh by lia. rewrite Htarget, Nat2Z.id, Nat.sub_diag.
    unfold placeholders at 1; simpl.
    rewrite populate_placeholder_toToolCall by done.
    rewrite IH by (rewrite length_app; simpl;
                   by replace (length content + 1)%nat with (S (length content)) by lia).
    by rewrite <- app_assoc.
Qed.

Lemma appendText_toolParts calls (text : string) :
  appendText (toolPart <$> calls) text = (toolPart <$> calls) ++ [ContentPart.mk text None].
Proof.
  induction calls as [|call calls IH]; [done|].
  rewrite fmap_cons. change (appendText (toolPart call :: (toolPart <$> calls)) text)
    with (toolPart call :: appendText (toolPart <$> calls) text).
  by rewrite IH.
Qed.

Lemma textParts_toolParts (role : string) calls (text : string) :
  textParts (CompletionMessage.mk role ((toolPart <$> calls) ++ textContent text) None)
  = if decide (text = "") then [] else [text].
Proof.
  unfold textParts; simpl. rewrite fmap_app, filter_app.
  assert (Hcalls : filter (λ s : string, s ≠ "") (ContentPart.Text <$> (toolPart <$> calls))
                   = []).
  { induction calls as [|call calls IH]; [done|].
    rewrite !fmap_cons, filter_cons_False; [done|]. simpl. by intros Hne. }
  rewrite Hcalls. unfold textContent. case_decide; [done|].
  simpl. by rewrite filter_cons_True, filter_nil by done.
Qed.

Lemma wireToolCalls_toolParts (role : string) calls (text : string) :
  wireToolCalls (CompletionMessage.mk role ((toolPart <$> calls) ++ textContent text) None)
  = toToolCall <$> calls.
Proof.
  unfold wireToolCalls; simpl. rewrite omap_app.
  assert (Htext : omap ContentPart.ToolCall (textContent text) = []).
  { unfold textContent. by case_decide. }
  assert (Hcalls : omap ContentPart.ToolCall (toolPart <$> calls) = calls).
  { induction calls as [|call calls IH]; [done|].
    rewrite fmap_cons.
    change (omap ContentPart.ToolCall (toolPart call :: (toolPart <$> calls)))
      with (call :: omap ContentPart.ToolCall (toolPart <$> calls)).
    by rewrite IH. }
  by rewrite Htext, Hcalls, app_nil_r.
Qed.

(** X7.  A message that holds tool calls, numbered from 0 in their order, and
    after them at most one text that is neither ["."] nor ["{}"] nor a
    default prompt: compiled to the wire and assembled again from the chunk
    that carries the compiled message, it is the message it was. *)
Theorem wire_round_trip (role : string) calls (text : string) :
  indexedFrom 0 calls = true →
  text ≠ "." → text ≠ "{}" →
  (system_IsDefaultPrompt text).2 = false →
  ∃ chatMessage,
    toChatMessage
      (CompletionMessage.mk role ((toolPart <$> calls) ++ textContent text) None)
    = Some chatMessage
    ∧ appendMessage CompletionMessage.zero (wholeChunk chatMessage)
      = Some (CompletionMessage.mk role
                ((toolPart <$> calls) ++ textContent text) None).
Proof.
  intros Hindexed Hdot Hbraces Hprompt.
  rewrite toChatMessage_closed, textParts_toolParts, wireToolCalls_toolParts.
  assert (Hrole : override "" role = role).
  { unfold override. case_decide as Hempty; by rewrite ?Hempty. }
  destruct (decide (text = "")) as [->|Htext].
  - eexists. split; [done|].
    unfold appendMessage, wholeChunk; simpl.
    rewrite (appendToolCalls_toToolCall calls []) by done. simpl.
    by rewrite Hrole, app_nil_r.
  - rewrite decide_False by tauto.
    eexists. split; [done|].
    unfold appendMessage, wholeChunk; simpl.
    rewrite (appendToolCalls_toToolCall calls []) by done. simpl.
    unfold scalarContent. rewrite Hprompt.
    rewrite decide_False by done.
    rewrite appendText_toolParts, Hrole. unfold textContent.
    by rewrite decide_False by done.
Qed.

End RoundTrip.

(** An assistant message with two tool calls and a text. *)
Lemma wire_round_trip_witness :
  ∃ chatMessage,
    @toChatMessage sampleCollaborators
      (CompletionMessage.mk "assistant"
         ((toolPart <$>
             [ CompletionToolCall.mk (Some 0) "call_a" (CompletionFunctionCall.mk "ls" "{}");
               CompletionToolCall.mk (Some 1) "call_b" (CompletionFunctionCall.mk "cat" "{}") ])
          ++ textContent "Looking.") None)
    = Some chatMessage
    ∧ appendMessage CompletionMessage.zero (wholeChunk chatMessage)
      = Some (CompletionMessage.mk "assistant"
                [ toolPart (CompletionToolCall.mk (Some 0) "call_a"
                              (CompletionFunctionCall.mk "ls" "{}"));
                  toolPart (CompletionToolCall.mk (Some 1) "call_b"
                              (CompletionFunctionCall.mk "cat" "{}"));
                  ContentPart.mk "Looking." None ]
                None).
Proof.
  exact (@wire_round_trip sampleCollaborators "assistant"
           [ CompletionToolCall.mk (Some 0) "call_a" (CompletionFunctionCall.mk "ls" "{}");
             CompletionToolCall.mk (Some 1) "call_b" (CompletionFunctionCall.mk "cat" "{}") ]
           "Looking." eq_refl ltac:(done) ltac:(done) eq_refl).
Defined.

(** ** The compiler: panics and the shape of the compiled list *)

Section CompiledList.

Context `{Collaborators}.

Implicit Types (message : CompletionMessage.t) (request : CompletionRequest.t)
  (messages rest : list CompletionMessage.t).

Lemma systemLoop_panics rest : ∀ (visited : list CompletionMessage.t) systemPrompts msgs,
  mergeable rest = false →
  systemLoop (visited ++ rest) (length visited) rest systemPrompts msgs = None.
Proof.
  induction rest as [|message rest IH]; intros visited systemPrompts msgs Hbad; [done|].
  simpl in Hbad. cbn [systemLoop].
  assert (Hnext : mergeable rest = false → ∀ prompts' msgs',
    systemLoop (visited ++ message :: rest) (S (length visited)) rest prompts' msgs'
    = None).
  { intros Hrest prompts' msgs'.
    replace (visited ++ message :: rest) with ((visited ++ [message]) ++ rest)
      by (by rewrite <- app_assoc).
    replace (S (length visited)) with (length (visited ++ [message]))
      by (rewrite length_app; simpl; lia).
    by apply IH. }
  unfold merged, isSystem in Hbad.
  case_decide as Hrole.
  - rewrite lastOrOrphan_here. cbn [mbind option_bind].
    rewrite bool_decide_eq_true_2 in Hbad by done. cbn [andb] in Hbad.
    destruct (followedBySystemOrUser rest); cbn [negb].
    + apply andb_false_iff in Hbad as [Hcontent|Hrest].
      * apply bool_decide_eq_false in Hcontent.
        destruct (CompletionMessage.Content message) as [|part parts]; [done|].
        by destruct Hcontent.
      * destruct (index (CompletionMessage.Content message) 0); [|done].
        cbn [mbind option_bind]. by apply Hnext.
    + by apply Hnext.
  - rewrite bool_decide_eq_false_2 in Hbad by done. by apply Hnext.
Qed.

Lemma toMessages_panics request :
  mergeable (CompletionRequest.Messages request) = false → toMessages request = None.
Proof.
  intros Hbad. unfold toMessages, gatherSystemPrompts.
  pose proof (systemLoop_panics (CompletionRequest.Messages request) []
                (internalPrompt request) [] Hbad) as Hloop.
  simpl in Hloop. unfold internalPrompt in Hloop. by rewrite Hloop.
Qed.

(** X8.  The compiler panics exactly on a request that holds a system message
    without any content part whose successor is a system or a user
    message; on every other request it returns a list. *)
Theorem compile_panics_iff request :
  toMessages request = None ↔ mergeable (CompletionRequest.Messages request) = false.
Proof.
  split; [|apply toMessages_panics].
  intros Hpanic. unfold toMessages in Hpanic.
  destruct (mergeable (CompletionRequest.Messages request)) eqn:Hok; [|done].
  by rewrite (gatherSystemPrompts_run _ Hok) in Hpanic.
Qed.

Lemma toChatMessage_Role message (chatMessage : ChatCompletionMessage.t) :
  toChatMessage message = Some chatMessage →
  ChatCompletionMessage.Role chatMessage = CompletionMessage.Role message.
Proof.
  rewrite toChatMessage_closed.
  destruct (textParts message) as [|text [|second texts]]; try by intros [= <-].
  case_decide; [done|]. by intros [= <-].
Qed.

Lemma length_omap_le {A B} (f : A → option B) (l : list A) :
  (length (omap f l) ≤ length l)%nat.
Proof.
  induction l as [|x l IH]; [done|]. cbn [omap list_omap].
  destruct (f x); simpl; lia.
Qed.

Lemma length_keptMessages messages : (length (keptMessages messages) ≤ length messages)%nat.
Proof.
  induction messages as [|message rest IH]; [done|]. simpl.
  destruct (merged message rest); simpl; lia.
Qed.

Lemma omap_toChatMessage_roles (P : string → Prop) (messages : list CompletionMessage.t) :
  Forall (λ message, P (CompletionMessage.Role message)) messages →
  Forall (λ chatMessage, P (ChatCompletionMessage.Role chatMessage))
    (omap toChatMessage messages).
Proof.
  induction 1 as [|message messages Hrole _ IH]; [constructor|].
  cbn [omap list_omap].
  destruct (toChatMessage message) as [chatMessage|] eqn:Hcompiled; [|done].
  constructor; [|done]. by rewrite (toChatMessage_Role _ _ Hcompiled).
Qed.

(** X9.  Whenever the compiler returns a list, the list has at most one message
    more than the request, and a message with the system role can only be
    its first: the list is at most one message followed by messages whose
    role is not the system role. *)
Theorem compiled_list_shape request (result : list ChatCompletionMessage.t) :
  toMessages request = Some result →
  (length result ≤ S (length (CompletionRequest.Messages request)))%nat
  ∧ ∃ leading others,
      result = leading ++ others
      ∧ (length leading ≤ 1)%nat
      ∧ Forall (λ chatMessage,
                  ChatCompletionMessage.Role chatMessage ≠ CompletionMessageRoleTypeSystem)
          others.
Proof.
  intros Hresult.
  assert (Hok : mergeable (CompletionRequest.Messages request) = true).
  { destruct (mergeable (CompletionRequest.Messages request)) eqn:Hok; [done|].
    apply toMessages_panics in Hok. congruence. }
  unfold toMessages in Hresult. rewrite (gatherSystemPrompts_run _ Hok) in Hresult.
  simpl in Hresult. injection Hresult as <-.
  rewrite chatLoop_omap, app_nil_l, omap_app.
  set (leading := leadingSystemMessage _).
  assert (Hleading : (length leading ≤ 1)%nat).
  { unfold leading, leadingSystemMessage. destruct (_ ++ _); simpl; lia. }
  pose proof (length_omap_le toChatMessage leading) as Hone.
  pose proof (length_omap_le toChatMessage
                (keptMessages (CompletionRequest.Messages request))) as Hkept.
  pose proof (length_keptMessages (CompletionRequest.Messages request)) as Hmessages.
  split; [rewrite length_app; lia|].
  eexists _, _. split; [done|]. split; [lia|].
  apply (omap_toChatMessage_roles (λ role, role ≠ CompletionMessageRoleTypeSystem)).
  apply keptMessages_not_system.
Qed.

End CompiledList.

(** The compiled list of [[system:"be terse", user:"2+2?"]]. *)
Lemma compiled_list_shape_witness :
  @toMessages sampleCollaborators (sumRequest None)
  = Some (ChatCompletionRequest.Messages sumWireRequest)
  ∧ (length (ChatCompletionRequest.Messages sumWireRequest)
     ≤ S (length (CompletionRequest.Messages (sumRequest None))))%nat.
Proof.
  assert (Hcompiled : @toMessages sampleCollaborators (sumRequest None)
                      = Some (ChatCompletionRequest.Messages sumWireRequest))
    by reflexivity.
  split; [exact Hcompiled|].
  exact (proj1 (@compiled_list_shape sampleCollaborators _ _ Hcompiled)).
Defined.

(** ** A call, whatever its outcome *)

Section AnyOutcome.

Context `{Collaborators}.

Implicit Types (c : Client.t) (ctx : Ctx) (env : Env)
  (messageRequest : CompletionRequest.t) (request : ChatCompletionRequest.t)
  (chunks : list ChatCompletionStreamResponse.t)
  (completionID : Z) (events : list Event)
  (outcome : Outcome CompletionMessage.t).

Lemma conclude_trace (id : string) chunks (cached : bool) completionID events
    outcome completionID' events' :
  conclude id chunks cached completionID events = (outcome, completionID', events') →
  completionID' = completionID
  ∧ ∃ finals,
      events' = events ++ finals
      ∧ (finals = [] ∧ (∀ result, outcome ≠ Return result)
         ∨ ∃ result, finals = [Send (Final id chunks result cached)]
                     ∧ outcome = Return result).
Proof.
  unfold conclude.
  destruct (appendMessages CompletionMessage.zero chunks) as [assembled|].
  - destruct (backfillIDs assembled) as [result|]; intros [= <- <- <-]; split; try done.
    + eexists. split; [done|]. right. by exists result.
    + exists []. rewrite app_nil_r. split; [done|]. by left.
  - intros [= <- <- <-]. split; [done|]. exists []. rewrite app_nil_r.
    split; [done|]. by left.
Qed.

Lemma storeEvents_cases ctx (key : string) chunks :
  storeEvents ctx key chunks = []
  ∨ IsNoCache ctx = false ∧ ∃ buf, storeEvents ctx key chunks = [CacheStore key buf].
Proof.
  unfold storeEvents. destruct (IsNoCache ctx); [by left|].
  destruct (gzipJSON chunks) as [err|buf]; [by left|right]. split; [done|]. by exists buf.
Qed.

(** The events of the live part of a call: the waiting status, the opening
    of the stream, the partial statuses, at most one write, at most one
    Final status. *)
Lemma live_trace c ctx env request (id : string) completionID events
    outcome completionID' events' :
  live c ctx env request id completionID events = (outcome, completionID', events') →
  completionID' = completionID
  ∧ ∃ (partials : list CompletionMessage.t) (writes finals : list Event),
      events'
      = events
        ++ [Send (Partial id waiting); CreateChatCompletionStream (withStream request)]
        ++ (Send ∘ Partial id <$> partials) ++ writes ++ finals
      ∧ (writes = []
         ∨ IsNoCache ctx = false
           ∧ ∃ buf, writes = [CacheStore (cacheKey c request) buf])
      ∧ (finals = [] ∧ (∀ result, outcome ≠ Return result)
         ∨ ∃ chunks result, finals = [Send (Final id chunks result false)]
                            ∧ outcome = Return result).
Proof.
  unfold live. rewrite call_run; simpl.
  assert (Hstop : ∀ (partials : list CompletionMessage.t) (writes : list Event)
                    (outcome0 : Outcome CompletionMessage.t),
    (∀ result, outcome0 ≠ Return result) →
    (writes = []
     ∨ IsNoCache ctx = false ∧ ∃ buf, writes = [CacheStore (cacheKey c request) buf]) →
    (outcome0, completionID,
     events ++ [Send (Partial id waiting); CreateChatCompletionStream (withStream request)]
       ++ (Send ∘ Partial id <$> partials) ++ writes)
    = (outcome, completionID', events') →
    completionID' = completionID
    ∧ ∃ (partials : list CompletionMessage.t) (writes finals : list Event),
        events'
        = events
          ++ [Send (Partial id waiting); CreateChatCompletionStream (withStream request)]
          ++ (Send ∘ Partial id <$> partials) ++ writes ++ finals
        ∧ (writes = []
           ∨ IsNoCache ctx = false
             ∧ ∃ buf, writes = [CacheStore (cacheKey c request) buf])
        ∧ (finals = [] ∧ (∀ result, outcome ≠ Return result)
           ∨ ∃ chunks result, finals = [Send (Final id chunks result false)]
                              ∧ outcome = Return result)).
  { intros partials writes outcome0 Hnot Hwrites [= <- <- <-]. split; [done|].
    exists partials, writes, []. rewrite app_nil_r. split; [done|].
    split; [done|]. by left. }
  destruct (openai_CreateChatCompletionStream env (withStream request))
    as [err|stream].
  { intros Hrun. apply (Hstop [] [] (Fail err)); [done|by left|].
    by rewrite <- Hrun. }
  destruct (partialMessages CompletionMessage.zero (received stream))
    as [partials complete]; simpl.
  destruct complete.
  2: { intros Hrun. apply (Hstop partials [] Panic); [done|by left|].
       rewrite <- Hrun. simpl. by rewrite app_nil_r. }
  destruct (closing stream) as [err|].
  { intros Hrun. apply (Hstop partials [] (Fail err)); [done|by left|].
    rewrite <- Hrun. simpl. by rewrite app_nil_r. }
  pose proof (storeEvents_cases ctx (cacheKey c request) (received stream)) as Hwrites.
  destruct (storeError ctx env (cacheKey c request) (received stream)) as [err|].
  { intros Hrun.
    apply (Hstop partials (storeEvents ctx (cacheKey c request) (received stream))
             (Fail err)); [done|done|].
    by rewrite <- Hrun. }
  intros Hrun.
  apply conclude_trace in Hrun as (-> & finals & -> & Hfinals). split; [done|].
  exists partials, (storeEvents ctx (cacheKey c request) (received stream)), finals.
  split; [rewrite <- !app_assoc; simpl; by rewrite <- !app_assoc|]. split; [done|].
  destruct Hfinals as [Hnone|(result & -> & ->)]; [by left|right]. by eexists _, _.
Qed.

(** The events of a call, whatever it returns: none, or the Submitted
    status, at most one read of the cache, at most one opening of the
    stream with the statuses of the chunks, at most one write, at most one
    Final status. *)
Lemma Call_trace c ctx env messageRequest completionID outcome completionID' events :
  Call c ctx env messageRequest completionID = (outcome, completionID', events) →
  (events = [] ∧ completionID' = completionID ∧ (∀ result, outcome ≠ Return result)
   ∧ (is_Some (ValidAuth c)
      ∨ toMessages (withDefaultModel c messageRequest) = None
      ∨ toMessages (withDefaultModel c messageRequest) = Some []))
  ∨ ∃ (msgs : list ChatCompletionMessage.t) (partials : list CompletionMessage.t)
      (opening writes finals : list Event),
      let request := wireRequest c (withDefaultModel c messageRequest) msgs in
      let key := cacheKey c (seeded c request) in
      let id := Sprint (int64 (completionID + 1)) in
      ValidAuth c = None
      ∧ toMessages (withDefaultModel c messageRequest) = Some msgs
      ∧ msgs ≠ []
      ∧ completionID' = int64 (completionID + 1)
      ∧ events
        = [Send (Submitted id request)]
          ++ (if lookupSkipped ctx messageRequest then [] else [CacheGet key])
          ++ opening ++ (Send ∘ Partial id <$> partials) ++ writes ++ finals
      ∧ (opening = [] ∧ partials = [] ∧ writes = []
         ∨ opening = [Send (Partial id waiting);
                      CreateChatCompletionStream (withStream (seeded c request))])
      ∧ (writes = [] ∨ IsNoCache ctx = false ∧ ∃ buf, writes = [CacheStore key buf])
      ∧ (finals = [] ∧ (∀ result, outcome ≠ Return result)
         ∨ ∃ chunks result (cached : bool),
             finals = [Send (Final id chunks result cached)] ∧ outcome = Return result).
Proof.
  rewrite Call_run.
  destruct (ValidAuth c) as [err|] eqn:Hauth.
  { intros [= <- <- <-]. left. repeat split; try done. left. by eexists. }
  destruct (toMessages (withDefaultModel c messageRequest)) as [msgs|] eqn:Hmsgs.
  2: { intros [= <- <- <-]. left. repeat split; try done. right. by left. }
  case_decide as Hlen.
  { intros [= <- <- <-]. left. repeat split; try done. right. right.
    by destruct msgs. }
  assert (Hsome : msgs ≠ []) by (by intros ->).
  unfold submit.
  set (request := wireRequest c (withDefaultModel c messageRequest) msgs).
  set (key := cacheKey c (seeded c request)).
  set (id := Sprint (int64 (completionID + 1))).
  assert (Hlive : ∀ before,
    before = [Send (Submitted id request)]
             ++ (if lookupSkipped ctx messageRequest then [] else [CacheGet key]) →
    live c ctx env (seeded c request) id (int64 (completionID + 1)) before
    = (outcome, completionID', events) →
    ∃ (partials : list CompletionMessage.t) (opening writes finals : list Event),
      completionID' = int64 (completionID + 1)
      ∧ events
        = [Send (Submitted id request)]
          ++ (if lookupSkipped ctx messageRequest then [] else [CacheGet key])
          ++ opening ++ (Send ∘ Partial id <$> partials) ++ writes ++ finals
      ∧ (opening = [] ∧ partials = [] ∧ writes = []
         ∨ opening = [Send (Partial id waiting);
                      CreateChatCompletionStream (withStream (seeded c request))])
      ∧ (writes = [] ∨ IsNoCache ctx = false ∧ ∃ buf, writes = [CacheStore key buf])
      ∧ (finals = [] ∧ (∀ result, outcome ≠ Return result)
         ∨ ∃ chunks result (cached : bool),
             finals = [Send (Final id chunks result cached)] ∧ outcome = Return result)).
  { intros before -> Hrun.
    apply live_trace in Hrun as (-> & partials & writes & finals & -> & Hwrites & Hfinals).
    exists partials,
      [Send (Partial id waiting);
       CreateChatCompletionStream (withStream (seeded c request))], writes, finals.
    split; [done|].
    split; [by rewrite <- !app_assoc|]. split; [by right|]. split; [done|].
    destruct Hfinals as [Hnone|(chunks & result & -> & ->)]; [by left|right].
    by eexists _, _, _. }
  intros Hrun. right.
  destruct (lookupSkipped ctx messageRequest) eqn:Hskipped.
  { apply Hlive in Hrun as (partials & opening & writes & finals & Hrun); [|done].
    by exists msgs, partials, opening, writes, finals. }
  destruct (lookupResult env key) as [[response found] [err|]] eqn:Hlookup.
  - assert (Hfail : (Fail err, int64 (completionID + 1),
                     [Send (Submitted id request); CacheGet key])
                    = (outcome, completionID', events)) by (by destruct found).
    injection Hfail as <- <- <-.
    exists msgs, [], [], [], []. repeat split; try done.
    + by left.
    + by left.
    + by left.
  - destruct found.
    + apply conclude_trace in Hrun as (-> & finals & -> & Hfinals).
      exists msgs, [], [], [], finals. repeat split; try done.
      * by left.
      * by left.
      * destruct Hfinals as [Hnone|(result & -> & ->)]; [by left|right].
        by eexists _, _, _.
    + apply Hlive in Hrun as (partials & opening & writes & finals & Hrun); [|done].
      by exists msgs, partials, opening, writes, finals.
Qed.

Lemma filter_partials (P : Event → bool) (id : string)
    (partials : list CompletionMessage.t) :
  (∀ partial, P (Send (Partial id partial)) = false) →
  filter (λ event, P event = true) (Send ∘ Partial id <$> partials) = [].
Proof.
  intros Hsend. induction partials as [|partial partials IH]; [done|].
  rewrite fmap_cons, filter_cons_False; [done|].
  simpl. by rewrite Hsend.
Qed.

Lemma last_filter_nil (P : Event → bool) events (event : Event) :
  filter (λ event, P event = true) events = [] →
  last events = Some event → P event = false.
Proof.
  intros Hnone Hlast. destruct (P event) eqn:Hevent; [|done].
  assert (Hin : event ∈ filter (λ event, P event = true) events).
  { apply list_elem_of_filter. split; [done|].
    apply last_Some in Hlast as [front ->]. apply elem_of_app. right.
    constructor. }
  rewrite Hnone in Hin. by apply elem_of_nil in Hin.
Qed.

(** X10.  Whatever a call returns, whether a message, an error or a panic: either
    the call is rejected before anything is sent (the key is missing, the
    compiler panics, or it compiles no message), and then it leaves no
    event and the counter as it was; or it advances the counter by one,
    its first event is the Submitted status, and every status it sends,
    Submitted, partial or Final, carries the new value of the counter,
    printed, as its completion id. *)
Theorem statuses_carry_call_id c ctx env messageRequest completionID
    outcome completionID' events :
  Call c ctx env messageRequest completionID = (outcome, completionID', events) →
  let rejected :=
    is_Some (ValidAuth c)
    ∨ toMessages (withDefaultModel c messageRequest) = None
    ∨ toMessages (withDefaultModel c messageRequest) = Some [] in
  (rejected ∧ events = [] ∧ completionID' = completionID
   ∧ ∀ result, outcome ≠ Return result)
  ∨ (¬ rejected
     ∧ completionID' = int64 (completionID + 1)
     ∧ (∃ request tail, events = Send (Submitted (Sprint completionID') request) :: tail)
     ∧ Forall (λ event, ∀ id, sentID event = Some id → id = Sprint completionID') events).
Proof.
  intros Hcall rejected.
  apply Call_trace in Hcall
    as [(-> & -> & Hnot & Hrejected)
       |(msgs & partials & opening & writes & finals & Hauth & Hmsgs & Hsome & ->
         & -> & Hopening & Hwrites & Hfinals)]; [by left|right].
  split.
  { intros [[err Herr]|[Hpanic|Hempty]]; congruence. }
  split; [done|]. split; [by eexists _, _|].
  apply Forall_app. split; [by repeat constructor; intros id [= <-]|].
  apply Forall_app. split.
  { destruct (lookupSkipped ctx messageRequest); by repeat constructor. }
  apply Forall_app. split.
  { destruct Hopening as [(-> & _ & _)| ->]; [constructor|].
    constructor; [by intros id [= <-]|]. by constructor. }
  apply Forall_app. split.
  { apply Forall_fmap, Forall_forall. by intros partial _ id [= <-]. }
  apply Forall_app. split.
  { destruct Hwrites as [->|(_ & buf & ->)]; by repeat constructor. }
  destruct Hfinals as [[-> _]|(chunks & result & cached & -> & _)]; [constructor|].
  constructor; [by intros id [= <-]|constructor].
Qed.

(** X11.  Whatever a call returns, it reads the cache at most once, opens at most
    one stream, writes the cache at most once and only after it has opened
    the stream, and sends at most one Final status; and it returns a
    message exactly when its last event is a Final status. *)
Theorem effects_at_most_once c ctx env messageRequest completionID
    outcome completionID' events :
  Call c ctx env messageRequest completionID = (outcome, completionID', events) →
  (length (filter (λ event, isCacheGet event = true) events) ≤ 1)%nat
  ∧ (length (filter (λ event, isCreateChatCompletionStream event = true) events) ≤ 1)%nat
  ∧ (length (filter (λ event, isCacheStore event = true) events) ≤ 1)%nat
  ∧ (length (filter (λ event, isFinal event = true) events) ≤ 1)%nat
  ∧ (filter (λ event, isCacheStore event = true) events ≠ [] →
     filter (λ event, isCreateChatCompletionStream event = true) events ≠ [])
  ∧ ((∃ result, outcome = Return result)
     ↔ ∃ event, last events = Some event ∧ isFinal event = true).
Proof.
  intros Hcall.
  apply Call_trace in Hcall
    as [(-> & -> & Hnot & Hrejected)
       |(msgs & partials & opening & writes & finals & Hauth & Hmsgs & Hsome & ->
         & -> & Hopening & Hwrites & Hfinals)].
  { simpl. repeat split; try lia; try done.
    - intros [result ->]. by destruct (Hnot result).
    - by intros (event & [=] & _). }
  set (id := Sprint (int64 (completionID + 1))) in *.
  rewrite !filter_app.
  rewrite !(filter_partials _ id partials) by done.
  assert (Hlast : (∃ result, outcome = Return result)
                  ↔ ∃ event, last finals = Some event ∧ isFinal event = true).
  { destruct Hfinals as [[-> Hnot]|(chunks & result & cached & -> & ->)].
    - split; [intros [result ->]; by destruct (Hnot result)|].
      by intros (event & [=] & _).
    - split; [by eexists|by eexists]. }
  assert (Hend : ∀ front : list Event,
    filter (λ event, isFinal event = true) front = [] →
    (∃ event, last (front ++ finals) = Some event ∧ isFinal event = true)
    ↔ ∃ event, last finals = Some event ∧ isFinal event = true).
  { intros front Hfront.
    destruct Hfinals as [[-> Hnot]|(chunks & result & cached & -> & ->)].
    - rewrite app_nil_r. split; [|by intros (event & [=] & _)].
      intros (event & Hevent & Hfinal).
      rewrite (last_filter_nil isFinal _ _ Hfront Hevent) in Hfinal. done.
    - rewrite last_snoc. done. }
  rewrite Hlast.
  rewrite !app_assoc. rewrite Hend.
  2: { rewrite !filter_app, (filter_partials _ id partials) by done.
       destruct (lookupSkipped ctx messageRequest);
         destruct Hopening as [(-> & _ & _)| ->];
         by destruct Hwrites as [->|(_ & buf & ->)]. }
  destruct (lookupSkipped ctx messageRequest);
    destruct Hopening as [(-> & -> & ->)| ->];
    destruct Hwrites as [Hnone|(_ & buf & Hone)]; try discriminate Hone;
    try subst writes;
    destruct Hfinals as [[-> _]|(chunks & result & cached & -> & _)];
    simpl; repeat split; try lia; done.
Qed.

(** X12.  In a context for which caching is disabled, a call neither reads nor
    writes the cache store, whatever the cache flag of the request and
    whatever the call returns. *)
Theorem no_cache_context_leaves_store_alone c ctx env messageRequest completionID
    outcome completionID' events :
  IsNoCache ctx = true →
  Call c ctx env messageRequest completionID = (outcome, completionID', events) →
  Forall (λ event, touchesCache event = false) events.
Proof.
  intros Hoff Hcall.
  apply Call_trace in Hcall
    as [(-> & -> & Hnot & Hrejected)
       |(msgs & partials & opening & writes & finals & Hauth & Hmsgs & Hsome & ->
         & -> & Hopening & Hwrites & Hfinals)]; [constructor|].
  unfold lookupSkipped. rewrite Hoff. simpl.
  constructor; [done|].
  apply Forall_app. split.
  { destruct Hopening as [(-> & _ & _)| ->]; by repeat constructor. }
  apply Forall_app. split.
  { apply Forall_fmap, Forall_forall. by intros partial _. }
  apply Forall_app. split.
  { destruct Hwrites as [->|(Hon & _)]; [constructor|congruence]. }
  destruct Hfinals as [[-> _]|(chunks & result & cached & -> & _)]; by repeat constructor.
Qed.

End AnyOutcome.

(** The call that answers [[system:"be terse", user:"2+2?"]] from a stream
    of two chunks: every status carries the id ["1"]. *)
Lemma statuses_carry_call_id_witness :
  @Call sampleCollaborators sampleClient (mkCtx false)
    (envWith (mkStream sumChunks None)) (sumRequest None) 0
  = (Return sumResult, 1, sumEvents)
  ∧ Forall (λ event, ∀ id, sentID event = Some id → id = "1") sumEvents.
Proof.
  assert (Hcall : @Call sampleCollaborators sampleClient (mkCtx false)
      (envWith (mkStream sumChunks None)) (sumRequest None) 0
    = (Return sumResult, 1, sumEvents)) by (by vm_compute).
  split; [exact Hcall|].
  destruct (@statuses_carry_call_id sampleCollaborators _ _ _ _ _ _ _ _ Hcall)
    as [(_ & Hnone & _)|(_ & _ & _ & Hall)]; [discriminate Hnone|exact Hall].
Defined.

(** The same call: one read, one stream, one write, one Final status. *)
Lemma effects_at_most_once_witness :
  @Call sampleCollaborators sampleClient (mkCtx false)
    (envWith (mkStream sumChunks None)) (sumRequest None) 0
  = (Return sumResult, 1, sumEvents)
  ∧ (length (filter (λ event, isCacheStore event = true) sumEvents) ≤ 1)%nat.
Proof.
  assert (Hcall : @Call sampleCollaborators sampleClient (mkCtx false)
      (envWith (mkStream sumChunks None)) (sumRequest None) 0
    = (Return sumResult, 1, sumEvents)) by (by vm_compute).
  split; [exact Hcall|].
  exact (proj1 (proj2 (proj2
    (@effects_at_most_once sampleCollaborators _ _ _ _ _ _ _ _ Hcall)))).
Defined.

(** The same request in a context for which caching is disabled, on a
    store that holds an answer: the store is left alone. *)
Lemma no_cache_context_leaves_store_alone_witness :
  ∃ events,
    @Call sampleCollaborators sampleClient (mkCtx true)
      (envCached (mkStream sumChunks None)) (sumRequest None) 0
    = (Return sumResult, 1, events)
    ∧ Forall (λ event, touchesCache event = false) events.
Proof.
  eexists. split; [by vm_compute|].
  apply (@no_cache_context_leaves_store_alone sampleCollaborators sampleClient
           (mkCtx true) (envCached (mkStream sumChunks None)) (sumRequest None) 0
           (Return sumResult) 1); [reflexivity|by vm_compute].
Defined.

(** ** Failures around the live call, and the replay of a stored answer *)

Section Failures.

Context `{Collaborators}.

Implicit Types (c : Client.t) (ctx : Ctx) (env : Env)
  (messageRequest : CompletionRequest.t) (request : ChatCompletionRequest.t)
  (msgs : list ChatCompletionMessage.t)
  (chunks : list ChatCompletionStreamResponse.t)
  (completionID : Z) (events : list Event).

(** A call whose lookup is skipped or finds nothing goes on with the live
    call. *)
Lemma Call_live c ctx env messageRequest completionID msgs :
  ValidAuth c = None →
  toMessages (withDefaultModel c messageRequest) = Some msgs →
  msgs ≠ [] →
  let request := wireRequest c (withDefaultModel c messageRequest) msgs in
  let key := cacheKey c (seeded c request) in
  let id := Sprint (int64 (completionID + 1)) in
  (lookupSkipped ctx messageRequest = true
   ∨ lookupResult env key = ([], false, None)) →
  Call c ctx env messageRequest completionID
  = live c ctx env (seeded c request) id (int64 (completionID + 1))
      ([Send (Submitted id request)]
       ++ (if lookupSkipped ctx messageRequest then [] else [CacheGet key])).
Proof.
  intros Hauth Hmsgs Hsome request key id Hmiss.
  rewrite Call_run, Hauth, Hmsgs.
  rewrite decide_False by (by destruct msgs).
  unfold submit. fold request key id.
  destruct (lookupSkipped ctx messageRequest); [done|].
  destruct Hmiss as [|Hmiss]; [done|]. by rewrite Hmiss.
Qed.

(** X13.  When the request can be encoded, so that its key is computed, and
    the cache holds an entry for it that cannot be unpacked (the gzip header
    is bad, or the decoding of the chunks fails), the call returns that
    error right after the read: it does not fall back on the model, no
    stream is opened and no other status is sent. *)
Theorem unreadable_cache_entry_fails_call c ctx env messageRequest completionID msgs
    (data : bytes) (err : error) :
  ValidAuth c = None →
  toMessages (withDefaultModel c messageRequest) = Some msgs →
  msgs ≠ [] →
  lookupSkipped ctx messageRequest = false →
  let request := wireRequest c (withDefaultModel c messageRequest) msgs in
  let key := cacheKey c (seeded c request) in
  let id := Sprint (int64 (completionID + 1)) in
  encodable (seeded c request) →
  cache_Get env key = (data, true, None) →
  (gunzipJSON data = BadHeader err
   ∨ ∃ decoded, gunzipJSON data = Decoded decoded (Some err)) →
  Call c ctx env messageRequest completionID
  = (Fail err, int64 (completionID + 1),
     [Send (Submitted id request); CacheGet key]).
Proof.
  intros Hauth Hmsgs Hsome Hlookup request key id _ Hget Hunpack.
  rewrite Call_run, Hauth, Hmsgs.
  rewrite decide_False by (by destruct msgs).
  unfold submit. rewrite Hlookup. fold request key id.
  unfold lookupResult. rewrite Hget.
  destruct Hunpack as [->|[decoded ->]]; [done|].
  by destruct decoded.
Qed.

(** X14.  When the request can be encoded, so that its key is computed, the
    live call is reached and the transport refuses to open the stream, the
    call returns the transport's error; it has sent the Submitted and the
    waiting status, and it neither writes the cache nor sends a Final
    status, nor tries again. *)
Theorem stream_open_error_fails_call c ctx env messageRequest completionID msgs
    (err : error) :
  ValidAuth c = None →
  toMessages (withDefaultModel c messageRequest) = Some msgs →
  msgs ≠ [] →
  let request := wireRequest c (withDefaultModel c messageRequest) msgs in
  let key := cacheKey c (seeded c request) in
  let id := Sprint (int64 (completionID + 1)) in
  encodable (seeded c request) →
  (lookupSkipped ctx messageRequest = true
   ∨ lookupResult env key = ([], false, None)) →
  openai_CreateChatCompletionStream env (withStream (seeded c request)) = inl err →
  Call c ctx env messageRequest completionID
  = (Fail err, int64 (completionID + 1),
     [Send (Submitted id request)]
     ++ (if lookupSkipped ctx messageRequest then [] else [CacheGet key])
     ++ [Send (Partial id waiting);
         CreateChatCompletionStream (withStream (seeded c request))]).
Proof.
  intros Hauth Hmsgs Hsome request key id _ Hmiss Hopen.
  rewrite (Call_live _ _ _ _ _ msgs) by done. fold request key id.
  unfold live. by rewrite call_run, Hopen.
Qed.

(** X15.  When caching is enabled for the context and the stream has ended with
    all its chunks assembled, a failure to pack the chunks or to write them
    to the cache store fails the call with that error, although the whole
    answer has been received: every partial status has been sent, and no
    Final status follows.  A failure to pack leaves no write among the
    events. *)
Theorem cache_write_error_fails_call c ctx env messageRequest completionID msgs chunks
    (writes : list Event) (err : error) :
  ValidAuth c = None →
  toMessages (withDefaultModel c messageRequest) = Some msgs →
  msgs ≠ [] →
  let request := wireRequest c (withDefaultModel c messageRequest) msgs in
  let key := cacheKey c (seeded c request) in
  let id := Sprint (int64 (completionID + 1)) in
  (lookupSkipped ctx messageRequest = true
   ∨ lookupResult env key = ([], false, None)) →
  openai_CreateChatCompletionStream env (withStream (seeded c request))
    = inr (mkStream chunks None) →
  (partialMessages CompletionMessage.zero chunks).2 = true →
  IsNoCache ctx = false →
  (gzipJSON chunks = inl err ∧ writes = []
   ∨ ∃ buf, gzipJSON chunks = inr buf
            ∧ cache_Store env key buf = Some err
            ∧ writes = [CacheStore key buf]) →
  Call c ctx env messageRequest completionID
  = (Fail err, int64 (completionID + 1),
     [Send (Submitted id request)]
     ++ (if lookupSkipped ctx messageRequest then [] else [CacheGet key])
     ++ [Send (Partial id waiting);
         CreateChatCompletionStream (withStream (seeded c request))]
     ++ (Send ∘ Partial id <$> (partialMessages CompletionMessage.zero chunks).1)
     ++ writes).
Proof.
  intros Hauth Hmsgs Hsome request key id Hmiss Hopen Hcomplete Hon Hwrite.
  rewrite (Call_live _ _ _ _ _ msgs) by done. fold request key id.
  unfold live. rewrite call_run, Hopen. simpl. rewrite Hcomplete.
  unfold storeError, storeEvents. rewrite Hon. fold key.
  by destruct Hwrite as [[-> ->]|(buf & -> & -> & ->)].
Qed.

(** X16.  What a call has written to the cache store, a later call for the same
    request replays: when the entry it finds under the key is the one
    written and unpacks to the chunks the first call has received (those
    of its Final status), it returns the same message, opens no stream,
    and its events are the Submitted status, the read and the Final status
    with [Cached] set, carrying the same chunks. *)
Theorem stored_answer_replays c ctx env messageRequest completionID result
    completionID' events (id key : string) chunks (buf : bytes) ctx' env' (later : Z) :
  Call c ctx env messageRequest completionID = (Return result, completionID', events) →
  CacheStore key buf ∈ events →
  last events = Some (Send (Final id chunks result false)) →
  gunzipJSON buf = Decoded chunks None →
  lookupSkipped ctx' messageRequest = false →
  cache_Get env' key = (buf, true, None) →
  ∃ request,
    Call c ctx' env' messageRequest later
    = (Return result, int64 (later + 1),
       [Send (Submitted (Sprint (int64 (later + 1))) request);
        CacheGet key;
        Send (Final (Sprint (int64 (later + 1))) chunks result true)]).
Proof.
  intros Hfirst Hin Hlast Hcodec Hskip Hget.
  apply Call_Return in Hfirst
    as (msgs & received & assembled & cached & Hauth & Hmsgs & Hlen & -> & Hassembled
        & Hids & Hshape).
  assert (Hwritten : received = chunks
                     ∧ key = cacheKey c (seeded c
                               (wireRequest c (withDefaultModel c messageRequest) msgs))).
  { destruct cached.
    - destruct Hshape as (_ & _ & ->).
      repeat (apply elem_of_cons in Hin as [Hin|Hin]; [discriminate Hin|]).
      by apply elem_of_nil in Hin.
    - destruct Hshape as (_ & _ & _ & _ & ->).
      rewrite !app_assoc, last_snoc in Hlast. injection Hlast as _ ->.
      split; [done|].
      apply elem_of_app in Hin as [Hin|Hin].
      { repeat (apply elem_of_cons in Hin as [Hin|Hin]; [discriminate Hin|]).
        by apply elem_of_nil in Hin. }
      apply elem_of_app in Hin as [Hin|Hin].
      { destruct (lookupSkipped ctx messageRequest);
          repeat (apply elem_of_cons in Hin as [Hin|Hin]; [discriminate Hin|]);
          by apply elem_of_nil in Hin. }
      apply elem_of_app in Hin as [Hin|Hin].
      { repeat (apply elem_of_cons in Hin as [Hin|Hin]; [discriminate Hin|]).
        by apply elem_of_nil in Hin. }
      apply elem_of_app in Hin as [Hin|Hin].
      { by apply not_elem_of_sends in Hin. }
      apply elem_of_app in Hin as [Hin|Hin].
      2: { repeat (apply elem_of_cons in Hin as [Hin|Hin]; [discriminate Hin|]).
           by apply elem_of_nil in Hin. }
      unfold storeEvents in Hin. destruct (IsNoCache ctx).
      { by apply elem_of_nil in Hin. }
      destruct (gzipJSON chunks) as [err|written].
      { by apply elem_of_nil in Hin. }
      apply elem_of_cons in Hin as [Hin|Hin]; [|by apply elem_of_nil in Hin].
      by injection Hin as -> ->. }
  destruct Hwritten as [-> ->].
  exists (wireRequest c (withDefaultModel c messageRequest) msgs).
  rewrite Call_run, Hauth, Hmsgs. rewrite decide_False by done.
  unfold submit. rewrite Hskip.
  unfold lookupResult. rewrite Hget, Hcodec.
  unfold conclude. by rewrite Hassembled, Hids.
Qed.

Lemma omap_sentPartial_sends (id : string) (partials : list CompletionMessage.t) :
  omap sentPartial (Send ∘ Partial id <$> partials) = partials.
Proof.
  induction partials as [|partial partials IH]; [done|].
  rewrite fmap_cons. cbn [omap list_omap]. simpl. by rewrite IH.
Qed.

Lemma partialMessages_last chunks msg (partial : CompletionMessage.t) :
  (partialMessages msg chunks).2 = true →
  last (partialMessages msg chunks).1 = Some partial →
  appendMessages msg chunks = Some partial.
Proof.
  intros Hcomplete Hlast.
  destruct chunks as [|chunk chunks]; [done|].
  pose proof (partialMessages_length (chunk :: chunks) msg Hcomplete) as Hlength.
  rewrite last_lookup, Hlength in Hlast.
  apply partialMessages_lookup in Hlast.
  by rewrite take_ge in Hlast by (simpl; lia).
Qed.

(** X17.  The message a call returns is the one its last partial status showed,
    with the ids of its tool calls filled in.  The one exception is a
    stream that ends without a chunk: then the waiting status is the only
    partial status, and the call returns the empty message. *)
Theorem result_completes_last_partial c ctx env messageRequest completionID result
    completionID' events (partial : CompletionMessage.t) :
  Call c ctx env messageRequest completionID = (Return result, completionID', events) →
  last (omap sentPartial events) = Some partial →
  backfillIDs partial = Some result
  ∨ (omap sentPartial events = [waiting]
     ∧ partial = waiting
     ∧ result = CompletionMessage.zero).
Proof.
  intros Hcall Hlast.
  apply Call_Return in Hcall
    as (msgs & chunks & assembled & cached & Hauth & Hmsgs & Hlen & -> & Hassembled
        & Hids & Hshape).
  destruct cached.
  { destruct Hshape as (_ & _ & ->). done. }
  destruct Hshape as (_ & _ & Hcomplete & _ & ->).
  assert (Hpartials :
    omap sentPartial
      ([Send (Submitted (Sprint (int64 (completionID + 1)))
                (wireRequest c (withDefaultModel c messageRequest) msgs))]
       ++ (if lookupSkipped ctx messageRequest then []
           else [CacheGet (cacheKey c (seeded c
                   (wireRequest c (withDefaultModel c messageRequest) msgs)))])
       ++ [Send (Partial (Sprint (int64 (completionID + 1))) waiting);
           CreateChatCompletionStream (withStream (seeded c
             (wireRequest c (withDefaultModel c messageRequest) msgs)))]
       ++ (Send ∘ Partial (Sprint (int64 (completionID + 1)))
             <$> (partialMessages CompletionMessage.zero chunks).1)
       ++ storeEvents ctx (cacheKey c (seeded c
            (wireRequest c (withDefaultModel c messageRequest) msgs))) chunks
       ++ [Send (Final (Sprint (int64 (completionID + 1))) chunks result false)])
    = waiting :: (partialMessages CompletionMessage.zero chunks).1).
  { rewrite !omap_app, omap_sentPartial_sends.
    assert (Hstore : omap sentPartial
              (storeEvents ctx (cacheKey c (seeded c
                 (wireRequest c (withDefaultModel c messageRequest) msgs))) chunks) = []).
    { unfold storeEvents. destruct (IsNoCache ctx); [done|].
      by destruct (gzipJSON chunks). }
    rewrite Hstore.
    destruct (lookupSkipped ctx messageRequest); simpl; by rewrite app_nil_r. }
  rewrite Hpartials in Hlast. rewrite Hpartials.
  destruct (partialMessages CompletionMessage.zero chunks).1
    as [|first partials] eqn:Hsent.
  - right. injection Hlast as <-.
    pose proof (partialMessages_length chunks CompletionMessage.zero Hcomplete)
      as Hlength.
    rewrite Hsent in Hlength. destruct chunks; [|done].
    injection Hassembled as <-. by injection Hids as <-.
  - left. rewrite last_cons_cons in Hlast. rewrite <- Hsent in Hlast.
    rewrite (partialMessages_last _ _ _ Hcomplete Hlast) in Hassembled.
    by injection Hassembled as <-.
Qed.

End Failures.

(** ** The ids given to tool calls *)

Section Backfill.

Context `{Collaborators}.

Implicit Types (part : ContentPart.t) (msg result : CompletionMessage.t).

Lemma backfillID_None part : backfillID part = None ↔ unhashable part.
Proof.
  unfold backfillID, unhashable. split.
  - destruct (ContentPart.ToolCall part) as [toolCall|]; [|done].
    case_decide as Hid; [|done].
    unfold slice8. case_decide as Hlen; [done|]. intros _.
    exists toolCall. repeat split; try done. lia.
  - intros (toolCall & -> & Hid & Hlen).
    rewrite decide_True by done. unfold slice8.
    by rewrite decide_False by lia.
Qed.

Lemma backfillID_settled part :
  (∀ toolCall, ContentPart.ToolCall part = Some toolCall →
               CompletionToolCall.ID toolCall ≠ "") →
  backfillID part = Some part.
Proof.
  intros Hid. unfold backfillID.
  destruct (ContentPart.ToolCall part) as [toolCall|]; [|done].
  by rewrite decide_False by (by apply Hid).
Qed.

Lemma mapM_backfillID_None (content : list ContentPart.t) :
  mapM backfillID content = None ↔ Exists unhashable content.
Proof.
  induction content as [|part content IH].
  - split; [done|]. by intros Hnone%Exists_nil.
  - rewrite Exists_cons, <- IH, <- backfillID_None. cbn [mapM].
    destruct (backfillID part) as [part'|]; simpl.
    + destruct (mapM backfillID content); simpl.
      * split; [done|]. by intros [|].
      * split; [by right|done].
    + split; [by left|done].
Qed.

Lemma mapM_backfillID_settled (content : list ContentPart.t) :
  mapM backfillID (backfilled <$> content) = Some (backfilled <$> content).
Proof.
  induction content as [|part content IH]; [done|].
  rewrite fmap_cons. cbn [mapM].
  rewrite backfillID_settled by apply backfilled_ID.
  simpl. by rewrite IH.
Qed.

(** X18.  The loop that gives ids to the tool calls panics exactly when some
    part holds a tool call without an id whose hash has fewer than 8
    characters.  When it returns a message, running it again on that
    message changes nothing: an id once given, or sent by the model, is
    kept. *)
Theorem backfill_panics_or_settles msg :
  (backfillIDs msg = None ↔ Exists unhashable (CompletionMessage.Content msg))
  ∧ ∀ result, backfillIDs msg = Some result → backfillIDs result = Some result.
Proof.
  split.
  - rewrite <- mapM_backfillID_None. unfold backfillIDs.
    by destruct (mapM backfillID (CompletionMessage.Content msg)).
  - intros result Hresult. apply backfillIDs_Some in Hresult as ->.
    unfold backfillIDs. simpl. by rewrite mapM_backfillID_settled.
Qed.

End Backfill.

(** A cached entry that cannot be unpacked. *)
Lemma unreadable_cache_entry_fails_call_witness :
  @Call faultyCollaborators sampleClient (mkCtx false)
    (envCached (mkStream sumChunks None)) (sumRequest None) 0
  = (Fail "gzip: invalid header", 1,
     [Send (Submitted "1" sumWireRequest); CacheGet sumKey]).
Proof.
  exact (@unreadable_cache_entry_fails_call faultyCollaborators sampleClient
           (mkCtx false) (envCached (mkStream sumChunks None)) (sumRequest None) 0
           (ChatCompletionRequest.Messages sumWireRequest) [Byte.x1f; Byte.x1f]
           "gzip: invalid header"
           eq_refl eq_refl ltac:(done) eq_refl
           ltac:(by intros temperature [= <-]) eq_refl (or_introl eq_refl)).
Defined.

(** A transport that refuses the request. *)
Lemma stream_open_error_fails_call_witness :
  @Call sampleCollaborators sampleClient (mkCtx false) envUnreachable (sumRequest None) 0
  = (Fail "connection refused", 1,
     [Send (Submitted "1" sumWireRequest); CacheGet sumKey;
      Send (Partial "1" waiting);
      CreateChatCompletionStream (withStream sumWireRequest)]).
Proof.
  exact (@stream_open_error_fails_call sampleCollaborators sampleClient
           (mkCtx false) envUnreachable (sumRequest None) 0
           (ChatCompletionRequest.Messages sumWireRequest) "connection refused"
           eq_refl eq_refl ltac:(done) ltac:(by intros temperature [= <-])
           (or_intror eq_refl) eq_refl).
Defined.

(** A cache store that refuses the write of the two chunks received. *)
Lemma cache_write_error_fails_call_witness :
  @Call sampleCollaborators sampleClient (mkCtx false)
    (envFullDisk (mkStream sumChunks None)) (sumRequest None) 0
  = (Fail "cache: disk full", 1,
     [Send (Submitted "1" sumWireRequest); CacheGet sumKey;
      Send (Partial "1" waiting);
      CreateChatCompletionStream (withStream sumWireRequest);
      Send (Partial "1" sumPartial1);
      Send (Partial "1" sumPartial2);
      CacheStore sumKey [Byte.x1f; Byte.x1f]]).
Proof.
  exact (@cache_write_error_fails_call sampleCollaborators sampleClient
           (mkCtx false) (envFullDisk (mkStream sumChunks None)) (sumRequest None) 0
           (ChatCompletionRequest.Messages sumWireRequest) sumChunks
           [CacheStore sumKey [Byte.x1f; Byte.x1f]] "cache: disk full"
           eq_refl eq_refl ltac:(done) (or_intror eq_refl) eq_refl eq_refl eq_refl
           (or_intror (ex_intro _ [Byte.x1f; Byte.x1f]
                         (conj eq_refl (conj eq_refl eq_refl))))).
Defined.

(** The answer ["44"], stored by a first call and replayed by a second on
    a store that holds the entry. *)
Lemma stored_answer_replays_witness :
  ∃ events request,
    @Call sampleCollaborators sampleClient (mkCtx false)
      (envWith (mkStream fourChunks None)) (sumRequest None) 0
    = (Return fourResult, 1, events)
    ∧ @Call sampleCollaborators sampleClient (mkCtx false)
        (envCached (mkStream [] None)) (sumRequest None) 1
      = (Return fourResult, 2,
         [Send (Submitted "2" request); CacheGet sumKey;
          Send (Final "2" fourChunks fourResult true)]).
Proof.
  assert (Hfirst : @Call sampleCollaborators sampleClient (mkCtx false)
      (envWith (mkStream fourChunks None)) (sumRequest None) 0
    = (Return fourResult, 1,
       [Send (Submitted "1" sumWireRequest); CacheGet sumKey;
        Send (Partial "1" waiting);
        CreateChatCompletionStream (withStream sumWireRequest);
        Send (Partial "1" (CompletionMessage.mk "" [ContentPart.mk "4" None] None));
        Send (Partial "1" fourResult);
        CacheStore sumKey [Byte.x1f; Byte.x1f];
        Send (Final "1" fourChunks fourResult false)])) by (by vm_compute).
  destruct (@stored_answer_replays sampleCollaborators _ _ _ _ _ _ _ _
              "1" sumKey fourChunks [Byte.x1f; Byte.x1f] (mkCtx false)
              (envCached (mkStream [] None)) 1 Hfirst)
    as [request Hsecond]; try reflexivity.
  { repeat constructor. }
  eexists _, request. split; [exact Hfirst|exact Hsecond].
Defined.

(** The sample call: the message returned is the second partial message
    with the id of its tool call filled in. *)
Lemma result_completes_last_partial_witness :
  @Call sampleCollaborators sampleClient (mkCtx false)
    (envWith (mkStream sumChunks None)) (sumRequest None) 0
  = (Return sumResult, 1, sumEvents)
  ∧ @backfillIDs sampleCollaborators sumPartial2 = Some sumResult.
Proof.
  assert (Hcall : @Call sampleCollaborators sampleClient (mkCtx false)
      (envWith (mkStream sumChunks None)) (sumRequest None) 0
    = (Return sumResult, 1, sumEvents)) by (by vm_compute).
  split; [exact Hcall|].
  destruct (@result_completes_last_partial sampleCollaborators _ _ _ _ _ _ _ _
              sumPartial2 Hcall eq_refl) as [Hlast|(Hone & _)];
    [exact Hlast|discriminate Hone].
Defined.

(** The ids of the sample answer, given once and kept. *)
Lemma backfill_panics_or_settles_witness :
  @backfillIDs sampleCollaborators sumPartial2 = Some sumResult
  ∧ @backfillIDs sampleCollaborators sumResult = Some sumResult.
Proof.
  assert (Hfirst : @backfillIDs sampleCollaborators sumPartial2 = Some sumResult)
    by reflexivity.
  split; [exact Hfirst|].
  exact (proj2 (@backfill_panics_or_settles sampleCollaborators sumPartial2)
           sumResult Hfirst).
Defined.

(** ** The models of the transport, and the Azure mapper *)

Section Models.

Implicit Types (c : Client.t) (answer : error + ModelsList.t)
  (providers : list string) (models : ModelsList.t).

Lemma foldl_ids (listed : list Model.t) : ∀ result : list string,
  foldl (λ result model, result ++ [Model.ID model]) result listed
  = result ++ (Model.ID <$> listed).
Proof.
  induction listed as [|model listed IH]; intros result; simpl.
  - by rewrite app_nil_r.
  - by rewrite IH, <- app_assoc.
Qed.

Lemma ListModels_served c answer providers :
  providers = [] ∨ "" ∈ providers →
  ListModels c answer providers
  = match ValidAuth c with
    | Some err => ([], Some err)
    | None =>
        match answer with
        | inl err => ([], Some err)
        | inr models => (sort_Strings (Model.ID <$> ModelsList.Models models), None)
        end
    end.
Proof.
  intros Hserved. unfold ListModels, slices_Contains.
  assert (Hfilter : bool_decide (length providers ≠ 0%nat)
                    && negb (bool_decide ("" ∈ providers)) = false).
  { destruct Hserved as [->|Hin]; [done|].
    rewrite (bool_decide_eq_true_2 _ Hin). apply andb_false_r. }
  rewrite Hfilter. destruct (ValidAuth c) as [err|]; [done|].
  destruct answer as [err|models]; [done|]. by rewrite foldl_ids.
Qed.

(** X19.  A listing asked for other providers only (some are named, none is the
    empty name) is empty and carries no error, even without a key and
    whatever the transport would answer.  Otherwise a missing key or the
    transport's error is returned with no model; and when the transport
    answers, the listing is the ids of its models in increasing order:
    sorted, with the same ids as many times, and the only such list. *)
Theorem model_listing c answer providers :
  (providers ≠ [] → "" ∉ providers → ListModels c answer providers = ([], None))
  ∧ (providers = [] ∨ "" ∈ providers →
     match ValidAuth c, answer with
     | Some err, _ => ListModels c answer providers = ([], Some err)
     | None, inl err => ListModels c answer providers = ([], Some err)
     | None, inr models =>
         ∃ result,
           ListModels c answer providers = (result, None)
           ∧ StronglySorted String.le result
           ∧ result ≡ₚ Model.ID <$> ModelsList.Models models
           ∧ ∀ other, StronglySorted String.le other →
                      other ≡ₚ Model.ID <$> ModelsList.Models models →
                      other = result
     end).
Proof.
  split.
  - intros Hsome Hnone. unfold ListModels, slices_Contains.
    rewrite bool_decide_eq_true_2 by (by destruct providers).
    by rewrite (bool_decide_eq_false_2 _ Hnone).
  - intros Hserved. rewrite (ListModels_served _ _ _ Hserved).
    destruct (ValidAuth c) as [err|]; [done|].
    destruct answer as [err|models]; [done|].
    eexists. split; [done|]. unfold sort_Strings.
    split; [apply (StronglySorted_merge_sort _)|].
    split; [apply merge_sort_Permutation|].
    intros other Hsorted Hsame.
    apply (StronglySorted_unique String.le); [done| |].
    + apply (StronglySorted_merge_sort _).
    + by rewrite merge_sort_Permutation.
Qed.

(** X20.  A model is supported exactly when the key is set, the transport
    answers, and the name is the id of one of its models; a missing key or
    the transport's error is returned with [false]. *)
Theorem supported_models c answer (modelName : string) :
  Supports c answer modelName
  = match ValidAuth c, answer with
    | Some err, _ => (false, Some err)
    | None, inl err => (false, Some err)
    | None, inr models =>
        (bool_decide (modelName ∈ Model.ID <$> ModelsList.Models models), None)
    end.
Proof.
  unfold Supports. rewrite ListModels_served by (by left).
  destruct (ValidAuth c) as [err|]; [done|].
  destruct answer as [err|models]; [done|].
  unfold slices_Contains, sort_Strings. f_equal.
  apply bool_decide_ext. by rewrite merge_sort_Permutation.
Qed.

(** X21.  Without a deployment the mapper leaves every model as it is.  With a
    deployment it gives the deployment for the default model and the empty
    string for every other model. *)
Theorem azure_mapper (defaultModel azureModel model : string) :
  GetAzureMapperFunction defaultModel azureModel model
  = if decide (azureModel = "") then model
    else if decide (model = defaultModel) then azureModel
    else "".
Proof.
  unfold GetAzureMapperFunction. case_decide as Hdeployment; [done|].
  case_decide as Hmodel.
  - subst model. by rewrite lookup_singleton_eq.
  - by rewrite lookup_singleton_ne.
Qed.

End Models.

(** ** The repositories of the credential helpers *)

Section CredentialRepos.

Variables (SqliteCredHelper PostgresCredHelper : string).
Variable VarOrDefault : string → string → string.

(** X22.  Every credential store has a repository whose git URL is known:
    looking up the URL of the repository name given for a store never
    fails, and the database helpers and the other helpers each have their
    own repository.  The lookup fails exactly on a name other than the two
    repository names, with an error that names it. *)
Theorem store_repository_has_url (store repoName : string) :
  (credentials.GitURLForRepoName VarOrDefault
     (credentials.RepoNameForCredentialStore SqliteCredHelper PostgresCredHelper store)
   = (if decide (store = SqliteCredHelper ∨ store = PostgresCredHelper)
      then VarOrDefault "GPTSCRIPT_CRED_SQLITE_ROOT"
             "https://github.com/gptscript-ai/gptscript-credential-database.git"
      else VarOrDefault "GPTSCRIPT_CRED_HELPERS_ROOT"
             "https://github.com/gptscript-ai/gptscript-credential-helpers.git",
      None))
  ∧ ((credentials.GitURLForRepoName VarOrDefault repoName).2 ≠ None
     ↔ repoName ≠ "gptscript-credential-database"
       ∧ repoName ≠ "gptscript-credential-helpers")
  ∧ ((credentials.GitURLForRepoName VarOrDefault repoName).2 ≠ None →
     credentials.GitURLForRepoName VarOrDefault repoName
     = ("", Some ("unknown repo name: " +:+ repoName))).
Proof.
  unfold credentials.GitURLForRepoName, credentials.RepoNameForCredentialStore.
  split.
  { by destruct (decide (store = SqliteCredHelper ∨ store = PostgresCredHelper)). }
  repeat case_decide; subst; simpl; split; try done; tauto.
Qed.

End CredentialRepos.

(** A listing for another provider on a client without a key, and the
    listing of three models for every provider. *)
Lemma model_listing_witness :
  ListModels keylessClient (inl "unreachable") ["anthropic"] = ([], None)
  ∧ ListModels sampleClient (inr sampleModels) []
    = (["babbage-002"; "gpt-3.5-turbo"; "gpt-4"], None)
  ∧ StronglySorted String.le ["babbage-002"; "gpt-3.5-turbo"; "gpt-4"].
Proof.
  split.
  - apply (proj1 (model_listing keylessClient (inl "unreachable") ["anthropic"]));
      [done|].
    apply (bool_decide_eq_false_1 ("" ∈ ["anthropic"])). reflexivity.
  - assert (Hlisted : ListModels sampleClient (inr sampleModels) []
                      = (["babbage-002"; "gpt-3.5-turbo"; "gpt-4"], None))
      by (by vm_compute).
    destruct (proj2 (model_listing sampleClient (inr sampleModels) [])
                (or_introl eq_refl)) as (result & Hlisting & Hsorted & _).
    rewrite Hlisted in Hlisting. injection Hlisting as <-.
    split; [exact Hlisted|exact Hsorted].
Defined.

(** The repository of the store named like the database helper. *)
Lemma store_repository_has_url_witness :
  credentials.GitURLForRepoName (λ _ fallback, fallback)
    (credentials.RepoNameForCredentialStore "sqlite" "postgres" "sqlite")
  = ("https://github.com/gptscript-ai/gptscript-credential-database.git", None)
  ∧ credentials.GitURLForRepoName (λ _ fallback, fallback) "gptscript"
    = ("", Some "unknown repo name: gptscript").
Proof.
  pose proof (store_repository_has_url "sqlite" "postgres" (λ _ fallback, fallback)
                "sqlite" "gptscript") as (Hstore & _ & Hunknown).
  split; [exact Hstore|].
  apply Hunknown. discriminate.
Defined.

(** ** Requests without a message to send, and the ids of successive calls *)

Section Submission.

Context `{Collaborators}.

Implicit Types (c : Client.t) (ctx : Ctx) (env : Env)
  (message : CompletionMessage.t)
  (messageRequest : CompletionRequest.t) (completionID : Z).

Lemma toChatMessage_None message : toChatMessage message = None ↔ leftOut message.
Proof.
  rewrite toChatMessage_closed. unfold leftOut.
  destruct (textParts message) as [|text [|second texts]]; simpl.
  - split; [done|by intros [|]].
  - case_decide as Hsentinel.
    + split; [|done]. intros _. by destruct Hsentinel as [->| ->]; [left|right].
    + split; [done|]. intros [[= ->]|[= ->]]; destruct Hsentinel; [by left|by right].
  - split; [done|by intros [|]].
Qed.

Lemma omap_toChatMessage_nil (messages : list CompletionMessage.t) :
  omap toChatMessage messages = [] ↔ Forall leftOut messages.
Proof.
  induction messages as [|message messages IH].
  - split; [constructor|done].
  - cbn [omap list_omap]. rewrite Forall_cons, <- IH, <- toChatMessage_None.
    destruct (toChatMessage message); [|tauto].
    split; [done|]. by intros [? _].
Qed.

Lemma toMessages_run (request : CompletionRequest.t) :
  mergeable (CompletionRequest.Messages request) = true →
  toMessages request
  = Some (omap toChatMessage
            (leadingSystemMessage
               (internalPrompt request
                ++ mergedTexts (CompletionRequest.Messages request))
             ++ keptMessages (CompletionRequest.Messages request))).
Proof.
  intros Hok. unfold toMessages. rewrite (gatherSystemPrompts_run _ Hok). simpl.
  by rewrite chatLoop_omap, app_nil_l.
Qed.

Lemma withDefaultModel_Messages c messageRequest :
  CompletionRequest.Messages (withDefaultModel c messageRequest)
  = CompletionRequest.Messages messageRequest.
Proof. unfold withDefaultModel. by case_decide. Qed.

Lemma internalPrompt_withDefaultModel c messageRequest :
  internalPrompt (withDefaultModel c messageRequest) = internalPrompt messageRequest.
Proof. unfold withDefaultModel, internalPrompt. by case_decide. Qed.

(** X23.  A call is refused with "no messages to send", before any status is
    sent and without taking an id, exactly when the key is set, the
    compiler returns, and every message it would send is left out: the
    leading system message, if there is one, and every message kept after
    the merge of the system prompts hold nothing but a lone ["."] or
    ["{}"].  A request without messages whose internal system prompt is
    switched off is the plain case. *)
Theorem no_messages_error_iff c ctx env messageRequest completionID :
  Call c ctx env messageRequest completionID
  = (Fail "invalid request, no messages to send to OpenAI", completionID, [])
  ↔ ValidAuth c = None
    ∧ mergeable (CompletionRequest.Messages messageRequest) = true
    ∧ Forall leftOut
        (leadingSystemMessage
           (internalPrompt messageRequest
            ++ mergedTexts (CompletionRequest.Messages messageRequest))
         ++ keptMessages (CompletionRequest.Messages messageRequest)).
Proof.
  split.
  - intros Hcall. pose proof Hcall as Hrun. rewrite Call_run in Hrun.
    destruct (ValidAuth c) as [err|] eqn:Hauth.
    { unfold ValidAuth in Hauth. destruct (Client.invalidAuth c); [|done].
      injection Hauth as <-. discriminate Hrun. }
    split; [done|].
    destruct (mergeable (CompletionRequest.Messages messageRequest)) eqn:Hok.
    2: { rewrite <- (withDefaultModel_Messages c) in Hok.
         by rewrite (toMessages_panics _ Hok) in Hrun. }
    split; [done|].
    assert (Hcompiled := Hok). rewrite <- (withDefaultModel_Messages c) in Hcompiled.
    apply toMessages_run in Hcompiled.
    rewrite internalPrompt_withDefaultModel, withDefaultModel_Messages in Hcompiled.
    rewrite Hcompiled in Hrun.
    case_decide as Hlen.
    { apply omap_toChatMessage_nil. by apply length_zero_iff_nil. }
    apply Call_trace in Hcall
      as [(_ & _ & _ & [[err Herr]|[Hpanic|Hempty]])
         |(msgs & partials & opening & writes & finals & _ & _ & _ & _ & Hevents & _)].
    + congruence.
    + congruence.
    + rewrite Hcompiled in Hempty. injection Hempty as Hempty.
      by rewrite Hempty in Hlen.
    + discriminate Hevents.
  - intros (Hauth & Hok & Hleft).
    rewrite Call_run, Hauth.
    assert (Hcompiled := Hok). rewrite <- (withDefaultModel_Messages c) in Hcompiled.
    apply toMessages_run in Hcompiled.
    rewrite internalPrompt_withDefaultModel, withDefaultModel_Messages in Hcompiled.
    rewrite Hcompiled.
    apply omap_toChatMessage_nil in Hleft. by rewrite Hleft.
Qed.

Lemma Sprint_inj (a b : Z) : Sprint a = Sprint b → a = b.
Proof.
  unfold Sprint. intros Hsame.
  assert (Hparse : ∀ z,
    NilZero.int_of_string (NilZero.string_of_int (Z.to_int z)) = Some (Z.to_int z)).
  { intros z. apply NilZero.isi; destruct z; simpl; try done;
      intros [= Hnil]; by apply DecimalPos.Unsigned.to_uint_nonnil in Hnil. }
  pose proof (Hparse a) as Ha. rewrite Hsame, Hparse in Ha.
  injection Ha as Ha.
  by rewrite <- (DecimalZ.of_to a), <- (DecimalZ.of_to b), Ha.
Qed.

Lemma int64_moves (z : Z) : int64 (int64 z + 1) ≠ int64 z.
Proof.
  unfold int64.
  change (2 ^ 63) with 9223372036854775808.
  change (2 ^ 64) with 18446744073709551616.
  Z.div_mod_to_equations. lia.
Qed.

(** X24.  Two calls in a row never share a completion id: when a call has sent
    its Submitted status and the next call, of any client and for any
    request, starts from the counter the first has left and sends its own,
    the two ids differ, also when the counter wraps around. *)
Theorem successive_ids_differ c ctx env messageRequest completionID
    (outcome : Outcome CompletionMessage.t) completionID' (id : string)
    (request : ChatCompletionRequest.t) (events : list Event)
    c' ctx' env' messageRequest'
    (outcome' : Outcome CompletionMessage.t) completionID'' (id' : string)
    (request' : ChatCompletionRequest.t) (events' : list Event) :
  Call c ctx env messageRequest completionID
  = (outcome, completionID', Send (Submitted id request) :: events) →
  Call c' ctx' env' messageRequest' completionID'
  = (outcome', completionID'', Send (Submitted id' request') :: events') →
  id ≠ id'.
Proof.
  intros Hfirst Hsecond.
  apply Call_trace in Hfirst
    as [([=] & _)
       |(msgs & partials & opening & writes & finals & _ & _ & _ & -> & Hevents & _)].
  apply Call_trace in Hsecond
    as [([=] & _)
       |(msgs' & partials' & opening' & writes' & finals' & _ & _ & _ & -> & Hevents'
         & _)].
  injection Hevents as -> _ _. injection Hevents' as -> _ _.
  intros Hsame%Sprint_inj. symmetry in Hsame. by apply int64_moves in Hsame.
Qed.

End Submission.

(** The request without messages, with the internal system prompt switched
    off. *)
Lemma no_messages_error_iff_witness :
  @Call sampleCollaborators sampleClient (mkCtx false)
    (envWith (mkStream sumChunks None))
    (CompletionRequest.mk "" (Some false) [] [] 0 None false None) 0
  = (Fail "invalid request, no messages to send to OpenAI", 0, []).
Proof.
  apply (proj2 (@no_messages_error_iff sampleCollaborators sampleClient (mkCtx false)
                  (envWith (mkStream sumChunks None))
                  (CompletionRequest.mk "" (Some false) [] [] 0 None false None) 0)).
  split; [reflexivity|]. split; [reflexivity|]. constructor.
Defined.

(** The sample call and the replay that follows it: the ids ["1"] and
    ["2"]. *)
Lemma successive_ids_differ_witness :
  ∃ (id id' : string) request request' events events',
    @Call sampleCollaborators sampleClient (mkCtx false)
      (envWith (mkStream sumChunks None)) (sumRequest None) 0
    = (Return sumResult, 1, Send (Submitted id request) :: events)
    ∧ @Call sampleCollaborators sampleClient (mkCtx false)
        (envCached (mkStream [] None)) (sumRequest None) 1
      = (Return fourResult, 2, Send (Submitted id' request') :: events')
    ∧ id ≠ id'.
Proof.
  eexists _, _, _, _, _, _.
  assert (Hfirst : @Call sampleCollaborators sampleClient (mkCtx false)
      (envWith (mkStream sumChunks None)) (sumRequest None) 0
    = (Return sumResult, 1,
       Send (Submitted "1" sumWireRequest) :: tail sumEvents)) by (by vm_compute).
  assert (Hsecond : @Call sampleCollaborators sampleClient (mkCtx false)
      (envCached (mkStream [] None)) (sumRequest None) 1
    = (Return fourResult, 2,
       Send (Submitted "2" sumWireRequest)
       :: [CacheGet sumKey; Send (Final "2" fourChunks fourResult true)]))
    by (by vm_compute).
  split; [exact Hfirst|]. split; [exact Hsecond|].
  exact (@successive_ids_differ sampleCollaborators _ _ _ _ _ _ _ _ _ _ _ _ _ _ _ _ _ _
           _ Hfirst Hsecond).
Defined.

(** ** The one text part of an assembled message *)

Section OneTextPart.

Implicit Types (content : list ContentPart.t) (part : ContentPart.t)
  (tool : ToolCall.t) (msg : CompletionMessage.t)
  (response : ChatCompletionStreamResponse.t).

Lemma plainParts_placeholders (from n : nat) : plainParts (placeholders from n) = [].
Proof.
  unfold plainParts, placeholders.
  induction (seq from n) as [|position positions IH]; [done|].
  rewrite fmap_cons, filter_cons_False; done.
Qed.

Lemma plainParts_insert content (i : nat) part :
  isPlain part = false →
  (length (plainParts (<[i := part]> content)) ≤ length (plainParts content))%nat.
Proof.
  intros Hcall. unfold plainParts.
  revert i. induction content as [|old content IH]; intros i; [done|].
  destruct i as [|i]; cbn [insert list_insert].
  - rewrite filter_cons_False by (by rewrite Hcall).
    rewrite filter_cons. case_decide; rewrite ?length_cons; [apply le_S|]; apply le_n.
  - rewrite !filter_cons. specialize (IH i).
    case_decide; rewrite ?length_cons; [apply le_n_S|]; exact IH.
Qed.

Lemma plainParts_appendToolCall content tool content' :
  appendToolCall content tool = Some content' →
  (length (plainParts content') ≤ length (plainParts content))%nat.
Proof.
  rewrite appendToolCall_eq; simpl.
  destruct (index _ _) as [target|]; simpl; [|done].
  intros [= <-].
  etrans; [by apply plainParts_insert|].
  unfold plainParts. rewrite filter_app.
  fold (plainParts (placeholders (length content)
          (Z.to_nat (targetIndex tool + 1 - Z.of_nat (length content))))).
  by rewrite plainParts_placeholders, app_nil_r.
Qed.

Lemma plainParts_appendToolCalls (tools : list ToolCall.t) : ∀ content content',
  appendToolCalls content tools = Some content' →
  (length (plainParts content') ≤ length (plainParts content))%nat.
Proof.
  induction tools as [|tool tools IH]; intros content content'; simpl.
  - by intros [= <-].
  - destruct (appendToolCall content tool) as [grown|] eqn:Hstep; simpl; [|done].
    intros Hrest. apply plainParts_appendToolCall in Hstep.
    apply IH in Hrest. lia.
Qed.

Lemma plainParts_appendText content (text : string) :
  length (plainParts (appendText content text))
  = Nat.max 1 (length (plainParts content)).
Proof.
  unfold plainParts. induction content as [|part content IH]; [done|].
  cbn [appendText]. unfold isPlain at 2.
  destruct (ContentPart.ToolCall part) as [call|] eqn:Hcall.
  - rewrite !filter_cons_False by (unfold isPlain; by rewrite Hcall). done.
  - rewrite !filter_cons_True by (unfold isPlain; by rewrite ?Hcall).
    rewrite !length_cons. by rewrite Nat.max_r by (apply le_n_S, Nat.le_0_l).
Qed.

Lemma plainParts_appendMessage msg response msg' :
  appendMessage msg response = Some msg' →
  (length (plainParts (CompletionMessage.Content msg')) 
   ≤ Nat.max 1 (length (plainParts (CompletionMessage.Content msg))))%nat.
Proof.
  unfold appendMessage.
  destruct (ChatCompletionStreamResponse.Choices response) as [|choice ?].
  { intros [= <-]. lia. }
  destruct (appendToolCalls _ _) as [content|] eqn:Htools; simpl; [|done].
  apply plainParts_appendToolCalls in Htools.
  intros [= <-]. simpl. case_decide; [lia|].
  rewrite plainParts_appendText. lia.
Qed.

(** X25.  An assembled message has at most one part that is not a tool call:
    the text of every chunk goes to the first such part, and a new one is
    made only when there is none.  So a message assembled from the empty
    message, or from any message with at most one such part, holds all its
    text parts in one. *)
Theorem one_text_part responses : ∀ msg msg',
  appendMessages msg responses = Some msg' →
  (length (plainParts (CompletionMessage.Content msg)) ≤ 1)%nat →
  (length (plainParts (CompletionMessage.Content msg')) ≤ 1)%nat.
Proof.
  induction responses as [|response responses IH]; intros msg msg'; simpl.
  - by intros [= <-].
  - destruct (appendMessage msg response) as [next|] eqn:Hstep; simpl; [|done].
    intros Hrest Hone. apply (IH next); [done|].
    apply plainParts_appendMessage in Hstep. lia.
Qed.

End OneTextPart.

(** The sample answer: a text and a tool call, one part that is not a
    tool call. *)
Lemma one_text_part_witness :
  appendMessages CompletionMessage.zero sumChunks = Some sumPartial2
  ∧ (length (plainParts (CompletionMessage.Content sumPartial2)) ≤ 1)%nat.
Proof.
  assert (Hassembled : appendMessages CompletionMessage.zero sumChunks = Some sumPartial2)
    by reflexivity.
  split; [exact Hassembled|].
  apply (one_text_part sumChunks CompletionMessage.zero sumPartial2 Hassembled).
  simpl. lia.
Defined.

(** ** The compiled list, from the request to what is sent *)

Section CompiledFromRequest.

Context `{Collaborators}.

Implicit Types (message : CompletionMessage.t) (request : CompletionRequest.t)
  (messages before after rest : list CompletionMessage.t).

Lemma chatLoop_nil messages : chatLoop messages [] = omap toChatMessage messages.
Proof. by rewrite chatLoop_omap. Qed.

(** What is kept of the messages before a message depends on that message
    only, not on what follows it. *)
Lemma keptMessages_before before message :
  ∃ kept, ∀ rest,
    keptMessages (before ++ message :: rest) = kept ++ keptMessages (message :: rest).
Proof.
  induction before as [|first before [kept IH]]; [by exists []|].
  assert (Hnext : ∀ rest,
    merged first (before ++ message :: rest) = merged first (before ++ [message])).
  { intros rest. unfold merged. by destruct before. }
  destruct (merged first (before ++ [message])) eqn:Hmerged.
  - exists kept. intros rest. cbn [app keptMessages].
    by rewrite Hnext, IH.
  - exists ((if isSystem first then demoted first else first) :: kept).
    intros rest. cbn [app keptMessages].
    by rewrite Hnext, IH.
Qed.

Lemma toChatMessage_demoted message :
  toChatMessage (demoted message) = asUser <$> toChatMessage message.
Proof.
  rewrite !toChatMessage_closed.
  change (textParts (demoted message)) with (textParts message).
  destruct (textParts message) as [|text [|second texts]]; simpl; try done.
  by case_decide.
Qed.

Lemma toChatMessage_single message (text : string) :
  textParts message = [text] →
  toChatMessage message
  = if decide (text = "." ∨ text = "{}") then None
    else Some (ChatCompletionMessage.mk (CompletionMessage.Role message)
                 (scalarContent text) [] (answeredName message)
                 (wireToolCalls message) (answeredID message)).
Proof. intros Htexts. by rewrite toChatMessage_closed, Htexts. Qed.

(** The second loop around one message of the list it visits. *)
Lemma toMessages_around request before message after :
  gatherSystemPrompts request = Some (before ++ message :: after) →
  toMessages request
  = Some (chatLoop before [] ++ option_list (toChatMessage message)
          ++ chatLoop after []).
Proof.
  intros Hgathered. unfold toMessages. rewrite Hgathered. simpl.
  rewrite !chatLoop_nil, omap_app. cbn [omap list_omap].
  by destruct (toChatMessage message).
Qed.

Lemma leadingSystemMessage_compiled (prompts : list string) :
  omap toChatMessage (leadingSystemMessage prompts)
  = if decide (prompts = []) then []
    else if decide (Join prompts newline = "." ∨ Join prompts newline = "{}") then []
    else [ChatCompletionMessage.mk CompletionMessageRoleTypeSystem
            (if decide (Join prompts newline = "") then ""
             else scalarContent (Join prompts newline)) [] "" [] ""].
Proof.
  destruct prompts as [|prompt prompts]; [done|].
  rewrite decide_False by done.
  change (leadingSystemMessage (prompt :: prompts))
    with [CompletionMessage.mk CompletionMessageRoleTypeSystem
            (Text (Join (prompt :: prompts) newline)) None].
  set (joined := Join (prompt :: prompts) newline).
  cbn [omap list_omap]. rewrite toChatMessage_closed.
  unfold textParts, Text. cbn [fmap list_fmap CompletionMessage.Content ContentPart.Text].
  destruct (decide (joined = "")) as [Hempty|Hsome].
  - rewrite Hempty. rewrite decide_False by (by intros [|]). done.
  - rewrite filter_cons_True by done. rewrite filter_nil.
    by case_decide.
Qed.

(** C1, as the compiler has it.  For a request in which every system
    message to merge has a first content part, the compiled list is one
    leading system message followed by the other messages, compiled in
    their order.  The leading message carries, joined by newlines, the
    internal system prompt (unless the request switches it off) and the
    text of the first content part of every system message whose successor
    is a system or a user message; a run of leading system messages that
    ends at a user message is merged whole.  The leading message is absent
    when there is no such text at all, and also when the joined text is
    ["."] or ["{}"], which the second loop leaves out.  A system message
    that is last, or whose successor is neither a system nor a user
    message, is compiled as it would be with the user role, between what
    the messages before it and the messages after it give, unless the
    second loop leaves it out; so no message after the leading one has the
    system role.  The request
    [[user:"hi", system:"be terse"]] compiles to the leading message, the
    user message ["hi"] and the message ["be terse"] with role user. *)
Theorem system_prompt_coalescing request :
  mergeable (CompletionRequest.Messages request) = true →
  let messages := CompletionRequest.Messages request in
  let prompts := internalPrompt request ++ mergedTexts messages in
  let joined := Join prompts newline in
  let leading :=
    if decide (prompts = []) then []
    else if decide (joined = "." ∨ joined = "{}") then []
    else [ChatCompletionMessage.mk CompletionMessageRoleTypeSystem
            (if decide (joined = "") then "" else scalarContent joined) [] "" [] ""] in
  let others := chatLoop (keptMessages messages) [] in
  toMessages request = Some (leading ++ others)
  ∧ Forall (λ chatMessage,
              ChatCompletionMessage.Role chatMessage ≠ CompletionMessageRoleTypeSystem)
      others
  ∧ (∀ run next rest,
       messages = run ++ next :: rest →
       Forall (λ message, isSystem message = true) run →
       CompletionMessage.Role next = CompletionMessageRoleTypeUser →
       prompts = internalPrompt request ++ (firstText <$> run)
                 ++ mergedTexts (next :: rest)
       ∧ others = chatLoop (keptMessages (next :: rest)) [])
  ∧ (∀ before message rest,
       messages = before ++ message :: rest →
       isSystem message = true →
       followedBySystemOrUser rest = false →
       ∃ keptBefore,
         keptMessages (before ++ [message]) = keptBefore ++ [demoted message]
         ∧ others = chatLoop keptBefore []
                    ++ option_list (asUser <$> toChatMessage message)
                    ++ chatLoop (keptMessages rest) [])
  ∧ (∀ message, toChatMessage message = None ↔ leftOut message)
  ∧ (messages = [userMessage "hi"; systemMessage "be terse"] →
     prompts = internalPrompt request
     ∧ others = [ChatCompletionMessage.mk CompletionMessageRoleTypeUser
                   (scalarContent "hi") [] "" [] "";
                 ChatCompletionMessage.mk CompletionMessageRoleTypeUser
                   (scalarContent "be terse") [] "" [] ""]).
Proof.
  intros Hok messages prompts joined leading others.
  split.
  { rewrite (toMessages_run _ Hok), omap_app. fold messages prompts.
    rewrite leadingSystemMessage_compiled. fold joined leading.
    unfold others. by rewrite chatLoop_nil. }
  split.
  { unfold others. rewrite chatLoop_nil.
    apply (omap_toChatMessage_roles (λ role, role ≠ CompletionMessageRoleTypeSystem)).
    apply keptMessages_not_system. }
  split.
  { intros run next rest Hmessages Hrun Hnext. unfold prompts, others.
    rewrite Hmessages.
    destruct (mergedTexts_leading_run run next rest Hrun Hnext) as [-> ->]. done. }
  split.
  { intros before message rest Hmessages Hsystem Horphan. unfold others.
    rewrite Hmessages.
    destruct (keptMessages_before before message) as [kept Hkept].
    exists kept. rewrite !Hkept. cbn [keptMessages].
    unfold merged. rewrite Hsystem, Horphan. cbn [andb followedBySystemOrUser].
    split; [done|].
    rewrite !chatLoop_nil, omap_app. cbn [omap list_omap].
    rewrite toChatMessage_demoted.
    by destruct (toChatMessage message). }
  split; [apply toChatMessage_None|].
  intros Hexample. unfold prompts, others. rewrite Hexample.
  assert (Hmerged : mergedTexts [userMessage "hi"; systemMessage "be terse"] = [])
    by reflexivity.
  assert (Hkept : keptMessages [userMessage "hi"; systemMessage "be terse"]
                  = [userMessage "hi"; userMessage "be terse"]) by reflexivity.
  rewrite Hmerged, Hkept, app_nil_r. split; [done|].
  rewrite chatLoop_nil. cbn [omap list_omap]. unfold userMessage.
  by rewrite !toChatMessage_text by done.
Qed.

(** C9.  A message whose parts leave exactly one text, wherever it stands
    in the list the second loop visits: when that text is ["."] or ["{}"]
    the message is left out, and the compiled list goes from the messages
    compiled before it straight to those compiled after it; otherwise the
    message is sent with an empty multi-part array and the text in its
    scalar content field (the text itself, or the prompt
    [system.IsDefaultPrompt] reads out of it).  So it is for a message of
    the request that is not a system message: what is compiled before it
    is the leading system message and what the messages before it give,
    what is compiled after it is what the messages after it give. *)
Theorem single_text_collapse request message (text : string) :
  textParts message = [text] →
  let sent :=
    ChatCompletionMessage.mk (CompletionMessage.Role message) (scalarContent text) []
      (answeredName message) (wireToolCalls message) (answeredID message) in
  (∀ before after,
     gatherSystemPrompts request = Some (before ++ message :: after) →
     (text = "." ∨ text = "{}" →
      toMessages request = Some (chatLoop before [] ++ chatLoop after []))
     ∧ (text ≠ "." → text ≠ "{}" →
        toMessages request = Some (chatLoop before [] ++ sent :: chatLoop after [])))
  ∧ (∀ before after,
       CompletionRequest.Messages request = before ++ message :: after →
       mergeable (CompletionRequest.Messages request) = true →
       isSystem message = false →
       ∃ keptBefore,
         keptMessages (before ++ [message]) = keptBefore ++ [message]
         ∧ let sentBefore :=
             chatLoop
               (leadingSystemMessage
                  (internalPrompt request
                   ++ mergedTexts (CompletionRequest.Messages request))
                ++ keptBefore) [] in
           (text = "." ∨ text = "{}" →
            toMessages request = Some (sentBefore ++ chatLoop (keptMessages after) []))
           ∧ (text ≠ "." → text ≠ "{}" →
              toMessages request
              = Some (sentBefore ++ sent :: chatLoop (keptMessages after) []))).
Proof.
  intros Htexts sent.
  assert (Haround : ∀ before after,
    gatherSystemPrompts request = Some (before ++ message :: after) →
    (text = "." ∨ text = "{}" →
     toMessages request = Some (chatLoop before [] ++ chatLoop after []))
    ∧ (text ≠ "." → text ≠ "{}" →
       toMessages request = Some (chatLoop before [] ++ sent :: chatLoop after []))).
  { intros before after Hgathered.
    rewrite (toMessages_around _ _ _ _ Hgathered), (toChatMessage_single _ _ Htexts).
    split.
    - intros Hsentinel. by rewrite decide_True by done.
    - intros Hdot Hbraces. by rewrite decide_False by tauto. }
  split; [exact Haround|].
  intros before after Hmessages Hok Hother.
  pose proof (gatherSystemPrompts_run _ Hok) as Hgathered.
  rewrite Hmessages in Hgathered at 2.
  destruct (keptMessages_before before message) as [kept Hkept].
  rewrite Hkept in Hgathered. cbn [keptMessages] in Hgathered.
  unfold merged in Hgathered. rewrite Hother in Hgathered. cbn [andb] in Hgathered.
  rewrite app_assoc in Hgathered.
  exists kept. split.
  { rewrite Hkept. cbn [keptMessages]. unfold merged. by rewrite Hother. }
  exact (Haround _ _ Hgathered).
Qed.

End CompiledFromRequest.

(** The first loop reads [message.Content[0].Text] of a system message it
    merges.  For a system message without content that a user message
    follows, it panics and nothing is compiled; of a system message with two
    text parts, the second is in no compiled message.  The second loop
    leaves out a lone ["."] or ["{}"] whatever its role: with the internal
    prompt switched off, [[system:".", user:"hi"]] compiles without any
    system message, and the trailing system message of
    [[user:"hi", system:"{}"]] is not sent as a user message but left
    out. *)
Lemma system_prompt_reads_first_part :
  (@gatherSystemPrompts sampleCollaborators emptySystemRequest = None
   ∧ ¬ ∃ result, @toMessages sampleCollaborators emptySystemRequest = Some result)
  ∧ @toMessages sampleCollaborators twoPartSystemRequest
    = Some [ ChatCompletionMessage.mk "system"
               ("You are task oriented system." +:+ newline +:+ "be terse") [] "" [] "";
             ChatCompletionMessage.mk "user" "hi" [] "" [] "" ]
  ∧ @toMessages sampleCollaborators
      (quietRequestOf [systemMessage "."; userMessage "hi"])
    = Some [ ChatCompletionMessage.mk "user" "hi" [] "" [] "" ]
  ∧ @toMessages sampleCollaborators
      (quietRequestOf [userMessage "hi"; systemMessage "{}"])
    = Some [ ChatCompletionMessage.mk "user" "hi" [] "" [] "" ].
Proof.
  split; [split; [reflexivity|by intros [result Hresult]]|].
  split; [reflexivity|]. split; reflexivity.
Qed.

(** The compilation of [[user:"hi", system:"be terse"]]. *)
Lemma system_prompt_coalescing_witness :
  mergeable (CompletionRequest.Messages trailingSystemRequest) = true
  ∧ @toMessages sampleCollaborators trailingSystemRequest
    = Some [ ChatCompletionMessage.mk "system" "You are task oriented system." [] "" [] "";
             ChatCompletionMessage.mk "user" "hi" [] "" [] "";
             ChatCompletionMessage.mk "user" "be terse" [] "" [] "" ].
Proof.
  split; [reflexivity|].
  pose proof (@system_prompt_coalescing sampleCollaborators trailingSystemRequest
                eq_refl) as (Hcompiled & _).
  exact Hcompiled.
Defined.

(** The request [[user:"2+2?", user:"{}", user:"hi"]]: the message ["{}"] is
    absent from the compiled list. *)
Lemma single_text_collapse_witness :
  textParts (userMessage "{}") = ["{}"]
  ∧ @toMessages sampleCollaborators sentinelRequest
    = Some [ ChatCompletionMessage.mk "system" "You are task oriented system." [] "" [] "";
             ChatCompletionMessage.mk "user" "2+2?" [] "" [] "";
             ChatCompletionMessage.mk "user" "hi" [] "" [] "" ].
Proof.
  split; [reflexivity|].
  exact (proj1 (proj1 (@single_text_collapse sampleCollaborators sentinelRequest
                         (userMessage "{}") "{}" eq_refl)
                  [systemMessage "You are task oriented system."; userMessage "2+2?"]
                  [userMessage "hi"] eq_refl)
           (or_intror eq_refl)).
Defined.
